(** * Progress Briefing plugin: job store, log observer, escalation latch

    A shallow embedding of [src/index.ts] (the OpenClaw progress-briefing
    plugin) and the properties of its job-state reconciliation and
    escalation engine.

    Conventions of the embedding.
    - JavaScript numbers that the plugin handles (millisecond timestamps,
      byte offsets, counts, thresholds) are integers and are modelled by [Z].
    - Text is a [string] of bytes; a log file is its byte content and
      [buf.toString("utf8")] is the identity (ASCII logs).
    - The closure variables of [register] ([state], the files under
      [dataDir], the logger, the Discord channel) form the [World] record and
      the code runs in a state-and-exception monad [M] over it.
    - [Date.now()] reads an oracle clock: every call consumes one reading.
    - [jobs.jsonl] is the sequence of its lines, each line given by what
      [JSON.parse] makes of it; a stored [state] outside the six of
      [JobState] is [other key], and the first loop of [formatBrief], whose
      [(by[j.state] ?? by.registered).push(j)] throws a TypeError when the
      key names a member of [Object.prototype], is run by [renderBrief].
    - [state.observe.counters[scope]] is a plain object: a read of a name
      it does not own falls through to [Object.prototype] and gives the
      member's text once a number is added to it ([inheritedText], with the
      function text of V8), and an assignment to [__proto__] of a value
      that is not an object stores nothing. A counter is therefore a
      [CounterValue], a number or a text.
    - A Discord post has one of three outcomes ([PostOutcome]): delivered,
      rejected with a status line and a body, or [fetch] itself failing
      with its own message.
    - File-system calls succeed. The long body of [observeFromGatewayLogs]
      is cut into [readChunk] (lines 454-476), [scanLines] (480-562),
      [perAgentJobs] (628-663), [escalate] (668-729) and [reportErrors]
      (what follows the early return), and [tick] into [renderBrief] and
      [postBrief] (from line 1041 on).
    - The report tool, [loadState], the tool-call hooks and the helpers of
      the agents tool follow the scheduler; the in-memory activity maps of
      the hooks are the [Activity] record, passed explicitly, and
      [cfg.activity] is an [ActivityConfig] of its own.
    - Left out: the status tool ([toISOString]), the listing of the agents
      tool ([localeCompare], [toLocaleString]), [formatResultSummary]
      ([JSON.stringify]) and [formatDuration] ([toFixed]). *)

From stdpp Require Import gmap strings list.
From Stdlib Require Import ZArith Ascii String DecimalString Lia.

Set Warnings "-clear-no-such-hyp".

Open Scope string_scope.
Open Scope list_scope.
Open Scope Z_scope.

(* ===================================================================== *)
(** ** Text helpers (the JavaScript string primitives the plugin calls)  *)
(* ===================================================================== *)

Module Text.

Definition LF : ascii := "010"%char.
Definition CR : ascii := "013"%char.
Definition quote : ascii := ascii_of_nat 34.
Definition backslash : ascii := ascii_of_nat 92.

(** template-literal rendering of an integer number *)
Definition num (z : Z) : string := NilZero.string_of_int (Z.to_int z).

(** [s.length] as a number *)
Definition len (s : string) : Z := Z.of_nat (String.length s).

(** [hay.includes(needle)] *)
Fixpoint includes (hay needle : string) : bool :=
  String.prefix needle hay ||
  match hay with
  | EmptyString => false
  | String _ hay' => includes hay' needle
  end.

(** [arr.join(sep)] *)
Definition join (sep : string) (parts : list string) : string :=
  String.concat sep parts.

(** white space and line terminators removed by [trim] (ASCII part) *)
Definition is_space (c : ascii) : bool :=
  let n := nat_of_ascii c in
  (Nat.eqb n 32 || (Nat.leb 9 n && Nat.leb n 13))%bool.

Fixpoint trimStart (s : string) : string :=
  match s with
  | String c s' => if is_space c then trimStart s' else s
  | EmptyString => EmptyString
  end.

Fixpoint trimEnd (s : string) : string :=
  match s with
  | EmptyString => EmptyString
  | String c s' =>
      match trimEnd s' with
      | EmptyString => if is_space c then EmptyString else String c EmptyString
      | t => String c t
      end
  end.

Definition trim (s : string) : string := trimEnd (trimStart s).

(** [s.split("\n")] *)
Fixpoint split_LF (s : string) : list string :=
  match s with
  | EmptyString => [EmptyString]
  | String c s' =>
      match split_LF s' with
      | cur :: rest =>
          if Ascii.eqb c LF then EmptyString :: cur :: rest
          else String c cur :: rest
      | [] => [String c EmptyString]
      end
  end.

(** drop one trailing carriage return *)
Fixpoint chop_CR (s : string) : string :=
  match s with
  | EmptyString => EmptyString
  | String c EmptyString => if Ascii.eqb c CR then EmptyString else s
  | String c s' => String c (chop_CR s')
  end.

(** [s.split(/\r?\n/)]: a separator is a line feed together with the
    carriage return just before it, so every piece but the last loses one
    trailing carriage return. *)
Fixpoint chop_all_but_last (l : list string) : list string :=
  match l with
  | [] => []
  | [x] => [x]
  | x :: rest => chop_CR x :: chop_all_but_last rest
  end.

Definition split_lines (s : string) : list string :=
  chop_all_but_last (split_LF s).

(** [.filter(Boolean)] on strings: the empty string is falsy *)
Definition nonempty (s : string) : bool :=
  match s with EmptyString => false | _ => true end.

(** the [len] bytes of [s] that start at byte offset [start] *)
Definition slice (start len : Z) (s : string) : string :=
  substring (Z.to_nat start) (Z.to_nat len) s.

End Text.

(* ===================================================================== *)
(** ** Regular expressions (the fragment of RegExp the plugin's literals
       use), matched by greedy backtracking like the JavaScript engine     *)
(* ===================================================================== *)

Module Regex.

(** one-character matchers *)
Inductive cls : Type :=
| Lit (c : ascii)                          (* a literal character *)
| Digit                                    (* \d *)
| Space                                    (* \s *)
| AnyOf (ranges : list (ascii * ascii))    (* [a-z...], single x as (x,x) *)
| NoneOf (ranges : list (ascii * ascii)).  (* [^...] *)

Inductive re : Type :=
| Eps
| One (c : cls)
| Many1 (c : cls)          (* c+ , greedy *)
| Opt (r : re)             (* (?:r)? , greedy *)
| WordB                    (* \b *)
| Bol                      (* ^ without the m flag *)
| Seq (a b : re)
| Alt (a b : re)
| Cap (r : re).            (* the capture group 1 *)

(** a compiled RegExp: the pattern and its [i] flag *)
Record RegExp := mkRegExp { pattern : re; ignoreCase : bool }.

Definition in_range (c : ascii) (r : ascii * ascii) : bool :=
  (Nat.leb (nat_of_ascii (fst r)) (nat_of_ascii c)
   && Nat.leb (nat_of_ascii c) (nat_of_ascii (snd r)))%bool.

Definition cls_base (k : cls) (c : ascii) : bool :=
  match k with
  | Lit x => Ascii.eqb x c
  | Digit => in_range c ("0"%char, "9"%char)
  | Space => Text.is_space c
  | AnyOf rs => existsb (in_range c) rs
  | NoneOf rs => negb (existsb (in_range c) rs)
  end.

Definition is_upper (c : ascii) : bool := in_range c ("A"%char, "Z"%char).
Definition is_lower (c : ascii) : bool := in_range c ("a"%char, "z"%char).
Definition to_lower (c : ascii) : ascii :=
  if is_upper c then ascii_of_nat (nat_of_ascii c + 32) else c.
Definition to_upper (c : ascii) : ascii :=
  if is_lower c then ascii_of_nat (nat_of_ascii c - 32) else c.

(** with the [i] flag a character matches when one of its case variants
    does; a negated class is negated after that *)
Definition cls_match (ci : bool) (k : cls) (c : ascii) : bool :=
  if ci then
    match k with
    | NoneOf rs => negb (existsb (in_range (to_lower c)) rs
                         || existsb (in_range (to_upper c)) rs)
    | _ => cls_base k (to_lower c) || cls_base k (to_upper c)
    end
  else cls_base k c.

(** \w *)
Definition is_word (c : option ascii) : bool :=
  match c with
  | None => false
  | Some c => (is_upper c || is_lower c || in_range c ("0"%char, "9"%char)
               || Ascii.eqb c "_"%char)%bool
  end.

Definition head (s : string) : option ascii :=
  match s with String c _ => Some c | EmptyString => None end.

Section Matcher.
Context {R : Type}.
Variable ci : bool.

(** zero or more characters of a class, longest first *)
Fixpoint many (k : cls) (prev : option ascii) (s : string)
    (cont : option ascii -> string -> option R) : option R :=
  match s with
  | String x s' =>
      if cls_match ci k x then
        match many k (Some x) s' cont with
        | Some r => Some r
        | None => cont prev s
        end
      else cont prev s
  | EmptyString => cont prev s
  end.

(** [run r prev s cap cont]: match [r] at the front of [s], where [prev]
    is the character before [s]; [cont] receives what follows *)
Fixpoint run (r : re) (prev : option ascii) (s : string)
    (cap : option string)
    (cont : option ascii -> string -> option string -> option R)
    : option R :=
  match r with
  | Eps => cont prev s cap
  | One k =>
      match s with
      | String x s' => if cls_match ci k x then cont (Some x) s' cap else None
      | EmptyString => None
      end
  | Many1 k =>
      match s with
      | String x s' =>
          if cls_match ci k x
          then many k (Some x) s' (fun p t => cont p t cap)
          else None
      | EmptyString => None
      end
  | Opt a =>
      match run a prev s cap cont with
      | Some res => Some res
      | None => cont prev s cap
      end
  | WordB =>
      if xorb (is_word prev) (is_word (head s)) then cont prev s cap else None
  | Bol =>
      match prev with None => cont prev s cap | Some _ => None end
  | Seq a b => run a prev s cap (fun p t c => run b p t c cont)
  | Alt a b =>
      match run a prev s cap cont with
      | Some res => Some res
      | None => run b prev s cap cont
      end
  | Cap a =>
      run a prev s cap
        (fun p t _ =>
           cont p t
             (Some (substring 0 (String.length s - String.length t) s)))
  end.
End Matcher.

(** the result of a successful [exec]: the text before the match, the text
    after it, and capture group 1 *)
Record MatchResult := mkMatch
  { before : string; after : string; group1 : option string }.

Fixpoint search (ci : bool) (r : re) (prev : option ascii) (s : string)
    : option MatchResult :=
  match run ci r prev s None (fun _ t c => Some (mkMatch EmptyString t c)) with
  | Some m => Some m
  | None =>
      match s with
      | String x s' =>
          match search ci r (Some x) s' with
          | Some m => Some (mkMatch (String x (before m)) (after m) (group1 m))
          | None => None
          end
      | EmptyString => None
      end
  end.

Definition exec (rx : RegExp) (s : string) : option MatchResult :=
  search (ignoreCase rx) (pattern rx) None s.

(** [rx.test(s)] *)
Definition test (rx : RegExp) (s : string) : bool :=
  match exec rx s with Some _ => true | None => false end.

(** [s.match(rx)?.[1]] *)
Definition match1 (rx : RegExp) (s : string) : option string :=
  match exec rx s with Some m => group1 m | None => None end.

(** [s.replace(rx, "")] for a RegExp without the g flag *)
Definition remove_first (rx : RegExp) (s : string) : string :=
  match exec rx s with
  | Some m => before m +:+ after m
  | None => s
  end.

(** a literal run of characters *)
Fixpoint lit (s : string) : re :=
  match s with
  | EmptyString => Eps
  | String c EmptyString => One (Lit c)
  | String c s' => Seq (One (Lit c)) (lit s')
  end.

Fixpoint seq (rs : list re) : re :=
  match rs with
  | [] => Eps
  | [r] => r
  | r :: rs' => Seq r (seq rs')
  end.

Definition rx (r : re) : RegExp := mkRegExp r false.
Definition rxi (r : re) : RegExp := mkRegExp r true.

End Regex.

(* ===================================================================== *)
(** ** Data model                                                         *)
(* ===================================================================== *)

(** [type JobState], and what else a record read from [jobs.jsonl] or
    passed by the host may carry under [state]: any other value, given by
    the property key it converts to *)
Inductive JobState : Type :=
| registered | running | waiting | blocked | completed | failed
| other (key : string).

Global Instance JobState_eq_dec : EqDecision JobState.
Proof. solve_decision. Defined.

(** [type JobRecord]. At run time a record is a parsed JSON object or a
    [Partial<JobRecord>] patch, so every property may be absent
    ([None] is [undefined]). *)
Record JobRecord : Type := mkJob
  { jobId : option string;
    title : option string;
    owner : option string;
    state : option JobState;
    progress : option Z;
    detail : option string;
    createdAt : option Z;
    updatedAt : option Z;
    lastActivityAt : option Z }.

Global Instance JobRecord_eq_dec : EqDecision JobRecord.
Proof. solve_decision. Defined.

(** the object literal [{}] *)
Definition emptyJob : JobRecord :=
  mkJob None None None None None None None None None.

(** the property names of a job record, and a property read by name *)
Inductive Field : Type :=
| FjobId | Ftitle | Fowner | Fstate | Fprogress | Fdetail
| FcreatedAt | FupdatedAt | FlastActivityAt.

Inductive FieldValue : Type :=
| VString (s : string) | VState (s : JobState) | VNumber (z : Z).

Definition prop (f : Field) (j : JobRecord) : option FieldValue :=
  match f with
  | FjobId => VString <$> jobId j
  | Ftitle => VString <$> title j
  | Fowner => VString <$> owner j
  | Fstate => VState <$> state j
  | Fprogress => VNumber <$> progress j
  | Fdetail => VString <$> detail j
  | FcreatedAt => VNumber <$> createdAt j
  | FupdatedAt => VNumber <$> updatedAt j
  | FlastActivityAt => VNumber <$> lastActivityAt j
  end.

(** [a ?? b] *)
Definition nullish {A} (a : option A) (b : A) : A :=
  match a with Some x => x | None => b end.

(** property-wise [b.f] if present, else [a.f] *)
Definition orelse {A} (b a : option A) : option A :=
  match b with Some x => Some x | None => a end.

(** object spread [{ ...a, ...b }] *)
Definition spread (a b : JobRecord) : JobRecord :=
  {| jobId := orelse (jobId b) (jobId a);
     title := orelse (title b) (title a);
     owner := orelse (owner b) (owner a);
     state := orelse (state b) (state a);
     progress := orelse (progress b) (progress a);
     detail := orelse (detail b) (detail a);
     createdAt := orelse (createdAt b) (createdAt a);
     updatedAt := orelse (updatedAt b) (updatedAt a);
     lastActivityAt := orelse (lastActivityAt b) (lastActivityAt a) |}.

(** truthiness of an optional string: [undefined] and the empty string are
    falsy *)
Definition truthy (s : option string) : bool :=
  match s with Some s => Text.nonempty s | None => false end.

(** One line of [jobs.jsonl], by what the reader makes of it. A JSON value
    that is not an object (a number, a string, an array) has none of the
    properties: it is [Parsed emptyJob]. Every line is complete: the file is
    empty or ends with a line feed, as [upsertJob] and the reset leave it. *)
Inductive Line : Type :=
| Blank                      (* trims to the empty string *)
| Unparseable (raw : string) (* JSON.parse throws *)
| JsonNull                   (* JSON.parse returns null *)
| Parsed (j : JobRecord).    (* JSON.parse returns a value with these properties *)

(** [observe.scope] *)
Inductive Scope : Type := flock | gateway.

Global Instance Scope_eq_dec : EqDecision Scope.
Proof. solve_decision. Defined.

Definition scope_name (s : Scope) : string :=
  match s with flock => "flock" | gateway => "gateway" end.

(** [type ProgressBriefingConfig] and the Discord token of the host config.
    A regular expression source that [new RegExp] rejects is [None]. *)
Record PerAgentJobsConfig : Type := mkPerAgentJobsConfig
  { pa_enabled : option bool; pa_minCount : option Z }.

Record EscalateConfig : Type := mkEscalateConfig
  { esc_enabled : option bool;
    esc_threshold : option Z;
    esc_cooldownMs : option Z;
    esc_mention : option string }.

Record ObserveConfig : Type := mkObserveConfig
  { obs_enabled : option bool;
    obs_scope : option Scope;
    obs_logPath : option string;
    obs_maxBytesPerTick : option Z;
    obs_includeRegexes : option (list (option Regex.RegExp));
    obs_excludeRegexes : option (list (option Regex.RegExp));
    obs_perAgentJobs : option PerAgentJobsConfig;
    obs_escalate : option EscalateConfig }.

Record DiscordConfig : Type := mkDiscordConfig
  { dc_enabled : option bool;
    dc_channelId : option string;
    dc_mention : option string }.

Record Config : Type := mkConfig
  { cfg_enabled : option bool;
    cfg_pollEveryMs : option Z;
    cfg_idleEscalateMs : option Z;
    cfg_discord : option DiscordConfig;
    cfg_observe : option ObserveConfig;
    cfg_discordToken : option string }.

(** an insertion-ordered association list, for [Map<string, number>] and for
    the per-scope counter object *)
Abbreviation Counts := (list (string * Z)).

Fixpoint assoc_get (m : Counts) (k : string) : option Z :=
  match m with
  | [] => None
  | (k', v) :: m' => if String.eqb k' k then Some v else assoc_get m' k
  end.

(** [m.set(k, v)] / [o[k] = v]: an existing key keeps its place *)
Fixpoint assoc_set (m : Counts) (k : string) (v : Z) : Counts :=
  match m with
  | [] => [(k, v)]
  | (k', v') :: m' =>
      if String.eqb k' k then (k', v) :: m' else (k', v') :: assoc_set m' k v
  end.

(** A property of the per-scope counter object
    [state.observe.counters[scope]], a plain object: the number [bumpN]
    keeps, or the text that [+] leaves once a member inherited from
    [Object.prototype] was read where no counter was. Such a text is the
    source text of a function, or [[object Object]], followed by digits:
    compared with a number it is NaN. *)
Inductive CounterValue : Type :=
| CNum (n : Z)
| CText (s : string).

Abbreviation ScopeCounters := (list (string * CounterValue)).

(** what the POST of a briefing to Discord comes to *)
Inductive PostOutcome : Type :=
| Delivered                                         (* res.ok *)
| Rejected (status : Z) (statusText body : string)  (* a response that is not ok *)
| Unreachable (message : string).                   (* fetch rejects with an Error *)

(** the mutable [state] of the plugin *)
Record ObserveState : Type := mkObserveState
  { logPath : string;
    pos : Z;
    lastSize : Z;
    lastEscalateAt : Z;
    lastEscalateReason : string;
    counters : gmap string ScopeCounters }.

Record Escalation : Type := mkEscalation
  { pending : bool;
    forcedMention : string;
    reason : string;
    setAt : Z }.

Record ObserveLast : Type := mkObserveLast
  { escalated : bool; last_forcedMention : string; last_reason : string }.

Record State : Type := mkState
  { lastBriefAt : Z;
    lastNoMsgEscalationAt : Z;
    lastBriefContent : option string;
    observe : ObserveState;
    observeEscalation : Escalation;
    observeLast : ObserveLast }.

Definition initialObserve : ObserveState := mkObserveState "" 0 0 0 "" ∅.
Definition noEscalation : Escalation := mkEscalation false "" "" 0.
Definition noObserveLast : ObserveLast := mkObserveLast false "" "".

(** the initial value of [state] in [register] *)
Definition initialState : State :=
  mkState 0 0 (Some "") initialObserve noEscalation noObserveLast.

(** the value [progress_briefing_reset] assigns: it has no
    [lastBriefContent] property *)
Definition resetState : State :=
  mkState 0 0 None initialObserve noEscalation noObserveLast.

Inductive Level : Type := Info | Error | Debug.

(** Everything the closures of [register] can read or write. *)
Record World : Type := mkWorld
  { w_state : State;                       (* the variable [state] *)
    w_jobs : option (list Line);           (* jobs.jsonl, if it exists *)
    w_stateFile : option State;            (* state.json, if it exists *)
    w_logs : string -> option string;      (* files by path: the gateway logs *)
    w_clock : nat -> Z;                    (* successive readings of Date.now() *)
    w_reads : nat;                         (* readings consumed so far *)
    w_dayPath : Z -> string;               (* todayLogPath at a given instant *)
    w_localeString : Z -> string;          (* Date.prototype.toLocaleString *)
    w_toolLines : list string;             (* the rendered tool-call sections *)
    w_logger : list (Level * string);      (* api.logger, oldest first *)
    w_discordPost : PostOutcome;             (* what the Discord POST comes to *)
    w_discord : list (string * string) }.  (* messages delivered: channel, content *)

Definition with_state (f : State -> State) (w : World) : World :=
  mkWorld (f (w_state w)) (w_jobs w) (w_stateFile w) (w_logs w) (w_clock w)
    (w_reads w) (w_dayPath w) (w_localeString w) (w_toolLines w) (w_logger w)
    (w_discordPost w) (w_discord w).

Definition with_jobs (f : option (list Line) -> option (list Line)) (w : World)
    : World :=
  mkWorld (w_state w) (f (w_jobs w)) (w_stateFile w) (w_logs w) (w_clock w)
    (w_reads w) (w_dayPath w) (w_localeString w) (w_toolLines w) (w_logger w)
    (w_discordPost w) (w_discord w).

Definition with_stateFile (s : option State) (w : World) : World :=
  mkWorld (w_state w) (w_jobs w) s (w_logs w) (w_clock w)
    (w_reads w) (w_dayPath w) (w_localeString w) (w_toolLines w) (w_logger w)
    (w_discordPost w) (w_discord w).

Definition with_reads (n : nat) (w : World) : World :=
  mkWorld (w_state w) (w_jobs w) (w_stateFile w) (w_logs w) (w_clock w)
    n (w_dayPath w) (w_localeString w) (w_toolLines w) (w_logger w)
    (w_discordPost w) (w_discord w).

Definition with_logger (l : list (Level * string)) (w : World) : World :=
  mkWorld (w_state w) (w_jobs w) (w_stateFile w) (w_logs w) (w_clock w)
    (w_reads w) (w_dayPath w) (w_localeString w) (w_toolLines w) l
    (w_discordPost w) (w_discord w).

Definition with_discord (l : list (string * string)) (w : World) : World :=
  mkWorld (w_state w) (w_jobs w) (w_stateFile w) (w_logs w) (w_clock w)
    (w_reads w) (w_dayPath w) (w_localeString w) (w_toolLines w) (w_logger w)
    (w_discordPost w) l.

(** field updates of [state] *)
Definition set_observe (o : ObserveState) (s : State) : State :=
  mkState (lastBriefAt s) (lastNoMsgEscalationAt s) (lastBriefContent s)
    o (observeEscalation s) (observeLast s).

Definition set_observeEscalation (e : Escalation) (s : State) : State :=
  mkState (lastBriefAt s) (lastNoMsgEscalationAt s) (lastBriefContent s)
    (observe s) e (observeLast s).

Definition set_observeLast (l : ObserveLast) (s : State) : State :=
  mkState (lastBriefAt s) (lastNoMsgEscalationAt s) (lastBriefContent s)
    (observe s) (observeEscalation s) l.

Definition set_lastBrief (at_ : Z) (content : string) (s : State) : State :=
  mkState at_ (lastNoMsgEscalationAt s) (Some content)
    (observe s) (observeEscalation s) (observeLast s).

Definition set_cursor (path : string) (p : Z) (o : ObserveState) : ObserveState :=
  mkObserveState path p (lastSize o) (lastEscalateAt o) (lastEscalateReason o)
    (counters o).

Definition set_pos_size (p sz : Z) (o : ObserveState) : ObserveState :=
  mkObserveState (logPath o) p sz (lastEscalateAt o) (lastEscalateReason o)
    (counters o).

Definition set_lastEscalate (at_ : Z) (why : string) (o : ObserveState)
    : ObserveState :=
  mkObserveState (logPath o) (pos o) (lastSize o) at_ why (counters o).

Definition set_counters (c : gmap string ScopeCounters) (o : ObserveState)
    : ObserveState :=
  mkObserveState (logPath o) (pos o) (lastSize o) (lastEscalateAt o)
    (lastEscalateReason o) c.

Definition set_pending (b : bool) (e : Escalation) : Escalation :=
  mkEscalation b (forcedMention e) (reason e) (setAt e).

(* ===================================================================== *)
(** ** The monad of the plugin's code: world state and thrown errors     *)
(* ===================================================================== *)

Inductive Res (A : Type) : Type :=
| Ok (a : A)
| Throw (message : string).
Arguments Ok {A} a.
Arguments Throw {A} message.

Definition M (A : Type) : Type := World -> Res A * World.

Definition ret {A} (a : A) : M A := fun w => (Ok a, w).

Definition bind {A B} (m : M A) (f : A -> M B) : M B :=
  fun w =>
    match m w with
    | (Ok a, w') => f a w'
    | (Throw e, w') => (Throw e, w')
    end.

Definition throw {A} (e : string) : M A := fun w => (Throw e, w).

(** [try { body } catch (err) { handler }]: what the body did to the world
    before it threw stays done *)
Definition try_catch {A} (body : M A) (handler : string -> M A) : M A :=
  fun w =>
    match body w with
    | (Ok a, w') => (Ok a, w')
    | (Throw e, w') => handler e w'
    end.

Definition get : M World := fun w => (Ok w, w).
Definition modify (f : World -> World) : M unit := fun w => (Ok tt, f w).
Definition getState : M State := fun w => (Ok (w_state w), w).
Definition modifyState (f : State -> State) : M unit := modify (with_state f).

Declare Scope m_scope.
Delimit Scope m_scope with M.
Notation "x <- c1 ;; c2" := (bind c1 (fun x => c2))
  (at level 100, c1 at next level, right associativity) : m_scope.
Notation "c1 ;; c2" := (bind c1 (fun _ => c2))
  (at level 100, right associativity) : m_scope.
Open Scope m_scope.

(** [for (const x of xs) body(x)] *)
Fixpoint forEach {A} (xs : list A) (body : A -> M unit) : M unit :=
  match xs with
  | [] => ret tt
  | x :: xs' => body x ;; forEach xs' body
  end.

(** [now()], i.e. [Date.now()] *)
Definition now : M Z :=
  fun w => (Ok (w_clock w (w_reads w)), with_reads (S (w_reads w)) w).

(** [api.logger.info / error] *)
Definition logger (lvl : Level) (msg : string) : M unit :=
  modify (fun w => with_logger (w_logger w ++ [(lvl, msg)]) w).

(** [saveState()] *)
Definition saveState : M unit :=
  modify (fun w => with_stateFile (Some (w_state w)) w).

(* ===================================================================== *)
(** ** Event store and job reconciler: [readJobs], [upsertJob]           *)
(* ===================================================================== *)

(** [safeJsonParse<JobRecord>(l)]: [null] when JSON.parse throws *)
Definition safeJsonParse (l : Line) : option JobRecord :=
  match l with
  | Parsed j => Some j
  | Blank | Unparseable _ | JsonNull => None
  end.

(** [.filter(Boolean)] on the trimmed lines *)
Definition nonblank (l : Line) : bool :=
  match l with Blank => false | _ => true end.

(** [if (j?.jobId) jobs.push(j)] over the lines *)
Fixpoint parseJobs (lines : list Line) : list JobRecord :=
  match lines with
  | [] => []
  | l :: rest =>
      match safeJsonParse l with
      | Some j => if truthy (jobId j) then j :: parseJobs rest else parseJobs rest
      | None => parseJobs rest
      end
  end.

(** [Map<string, JobRecord>] in insertion order, and [map.set] *)
Fixpoint map_set (m : list (string * JobRecord)) (k : string) (v : JobRecord)
    : list (string * JobRecord) :=
  match m with
  | [] => [(k, v)]
  | (k', v') :: m' =>
      if String.eqb k' k then (k', v) :: m' else (k', v') :: map_set m' k v
  end.

(** [for (const j of jobs) map.set(j.jobId, j)] *)
Definition latestPerJobId (jobs : list JobRecord) : list (string * JobRecord) :=
  fold_left (fun m j => map_set m (nullish (jobId j) "") j) jobs [].

(** the comparator [(a, b) => a.createdAt - b.createdAt]; a difference that
    is NaN counts as 0 *)
Definition byCreatedAt (a b : JobRecord) : Z :=
  match createdAt a, createdAt b with
  | Some x, Some y => x - y
  | _, _ => 0
  end.

(** [Array.prototype.sort], a stable sort: [cmp a b > 0] puts [a] after [b] *)
Fixpoint sort_insert {A} (cmp : A -> A -> Z) (x : A) (sorted : list A) : list A :=
  match sorted with
  | [] => [x]
  | y :: rest =>
      if 0 <? cmp y x then x :: y :: rest else y :: sort_insert cmp x rest
  end.

Definition sort {A} (cmp : A -> A -> Z) (l : list A) : list A :=
  fold_left (fun acc x => sort_insert cmp x acc) l [].

(** the reduction of [readJobs] on the lines of an existing file *)
Definition reduceLines (lines : list Line) : list JobRecord :=
  sort byCreatedAt
    (map snd (latestPerJobId (parseJobs (filter (fun l => nonblank l = true) lines)))).

Definition readJobs : M (list JobRecord) :=
  w <- get ;;
  match w_jobs w with
  | None => ret []
  | Some lines => ret (reduceLines lines)
  end.

(** [fs.appendFileSync(jobsPath, JSON.stringify(next) + "\n")]: the file is
    created when missing, and the line reads back as [next] *)
Definition appendJob (next : JobRecord) : M unit :=
  modify (with_jobs (fun f => Some (nullish f [] ++ [Parsed next]))).

Definition upsertJob (patch : JobRecord) : M JobRecord :=
  jobs <- readJobs ;;
  let prev := List.find (fun j => bool_decide (jobId j = jobId patch)) jobs in
  base <- match prev with
          | Some p => ret p
          | None =>
              c <- now ;; u <- now ;; a <- now ;;
              ret (mkJob (jobId patch) None None (Some registered) None None
                     (Some c) (Some u) (Some a))
          end ;;
  u <- now ;;
  a <- now ;;
  let next :=
    spread (spread base patch)
      (mkJob None None None None None None None (Some u) (Some a)) in
  appendJob next ;;
  ret next.

(* ===================================================================== *)
(** ** Tool [progress_briefing_reset]                                    *)
(* ===================================================================== *)

(** a tool parameter as the host passes it *)
Inductive JsValue : Type :=
| JsUndefined | JsNull | JsBool (b : bool) | JsNumber (z : Z) | JsString (s : string).

(** [x !== true] *)
Definition not_exactly_true (x : JsValue) : bool :=
  match x with JsBool true => false | _ => true end.

Definition msg_disabled : string := "progress-briefing plugin disabled".
Definition msg_refused : string :=
  "Refusing to reset without confirm=true. This will delete stored jobs/state.".
Definition msg_cleared : string := "ok: cleared progress-briefing jobs + state".

(** [const enabled = cfg.enabled !== false] *)
Definition enabled (cfg : Config) : bool :=
  match cfg_enabled cfg with Some false => false | _ => true end.

(** [execute] of the reset tool; the result is the text of its content *)
Definition progress_briefing_reset (cfg : Config) (confirm : JsValue) : M string :=
  if negb (enabled cfg) then ret msg_disabled
  else if not_exactly_true confirm then ret msg_refused
  else
    try_catch
      (modify (with_jobs (fun f => match f with Some _ => Some [] | None => None end)) ;;
       modifyState (fun _ => resetState) ;;
       saveState ;;
       ret msg_cleared)
      (fun err => ret ("reset failed: " +:+ err)).

(* ===================================================================== *)
(** ** Health signal detector: the scan of [observeFromGatewayLogs]      *)
(* ===================================================================== *)

Import Regex.

(** [compileRegexes]: sources that [new RegExp] rejects are skipped *)
Definition compileRegexes (arr : option (list (option RegExp))) : list RegExp :=
  omap id (nullish arr []).

(** [\bHTTP\s+] followed by three characters *)
Definition http_status (d1 d2 d3 : cls) : re :=
  seq [WordB; lit "HTTP"; Many1 Space; One d1; One d2; One d3; WordB].

Definition defaultIncludeGateway : list RegExp :=
  [ rxi (seq [WordB; lit "Gateway HTTP"; WordB]);
    rxi (http_status (Lit "4") Digit Digit);
    rxi (http_status (Lit "5") Digit Digit);
    rxi (lit "authentication_error");
    rxi (lit "Invalid bearer token");
    rxi (lit "ETIMEDOUT");
    rxi (lit "ECONNRESET");
    rxi (lit "ENOTFOUND");
    rxi (lit "EAI_AGAIN") ].

Definition matches (include exclude : list RegExp) (scope : Scope)
    (line : string) : bool :=
  if existsb (fun r => test r line) exclude then false
  else if negb (bool_decide (include = [])) then
    existsb (fun r => test r line) include
  else
    match scope with
    | flock => Text.includes line "[flock"
    | gateway => existsb (fun r => test r line) defaultIncludeGateway
    end.

Definition agent_chars : cls :=
  AnyOf [("a", "z"); ("A", "Z"); ("0", "9"); ("_", "_"); ("-", "-")]%char.

(** [(?:\\"|")]: a quote, possibly JSON-escaped *)
Definition a_quote : re :=
  Alt (Seq (One (Lit Text.backslash)) (One (Lit Text.quote)))
      (One (Lit Text.quote)).

Definition rx_agent_responded : RegExp :=
  rx (seq [ lit "Agent"; Many1 Space; a_quote;
            Cap (Many1 (NoneOf [(Text.backslash, Text.backslash);
                                (Text.quote, Text.quote)]));
            a_quote; Many1 Space; lit "responded:" ]).

Definition rx_for_agent : RegExp :=
  rx (seq [WordB; lit "for"; Many1 Space; Cap (Many1 agent_chars); lit "@"]).

Definition rx_session_agent : RegExp :=
  rx (seq [lit "session:agent:"; Cap (Many1 agent_chars)]).

(** [extractAgent]: the first pattern that captures a name wins, the empty
    string is "no agent" *)
Definition extractAgent (line : string) : string :=
  let m1 := match1 rx_agent_responded line in
  if truthy m1 then nullish m1 ""
  else
    let m2 := match1 rx_for_agent line in
    if truthy m2 then nullish m2 ""
    else
      let m3 := match1 rx_session_agent line in
      if truthy m3 then nullish m3 "" else "".

(** the counters local to one run of the observer *)
Record Tally : Type := mkTally
  { count401 : Z;
    count405 : Z;
    count429 : Z;
    count5xx : Z;
    countExecutorFailed : Z;
    countExecFailed : Z;
    countPluginLoadFailed : Z;
    agents401 : Counts;
    agentsExecutorFailed : Counts;
    agents405 : Counts;
    agents429 : Counts;
    agents5xx : Counts }.

Definition emptyTally : Tally := mkTally 0 0 0 0 0 0 0 [] [] [] [] [].

(** [bump(m, k)] *)
Definition bump (m : Counts) (k : string) : Counts :=
  assoc_set m k (nullish (assoc_get m k) 0 + 1).

(** [count++; if (agent) bump(agents, agent)] when [hit] *)
Definition tally1 (hit : bool) (agent : string) (ca : Z * Counts) : Z * Counts :=
  if hit
  then (fst ca + 1, if Text.nonempty agent then bump (snd ca) agent else snd ca)
  else ca.

(** the body of [for (const l of lines)], lines 513-562 *)
Definition scanLine (include exclude : list RegExp) (scope : Scope)
    (t : Tally) (l : string) : Tally :=
  if negb (matches include exclude scope l) then t
  else
    let agent := extractAgent l in
    let is401 :=
      Text.includes l "HTTP 401" || Text.includes l "authentication_error"
      || Text.includes l "Invalid bearer token" in
    let is405 :=
      Text.includes l "Gateway HTTP 405"
      || test (rx (http_status (Lit "4") (Lit "0") (Lit "5"))) l in
    let is429 :=
      test (rx (http_status (Lit "4") (Lit "2") (Lit "9"))) l
      || Text.includes l "rate_limit" in
    let is5xx :=
      test (rx (http_status (Lit "5") Digit Digit)) l
      || test (rx (seq [WordB; lit "Gateway HTTP"; Many1 Space; One (Lit "5");
                        One Digit; One Digit; WordB])) l in
    let isExecFail :=
      bool_decide (scope = flock) && Text.includes l "[flock:executor]"
      && Text.includes l " failed:" in
    let isExecToolFail :=
      bool_decide (scope = flock)
      && (Text.includes l "Exec failed" || Text.includes l "ExecFailed") in
    let isPluginLoadFail :=
      bool_decide (scope = flock) && Text.includes l "failed to load" in
    let r401 := tally1 is401 agent (count401 t, agents401 t) in
    let r405 := tally1 is405 agent (count405 t, agents405 t) in
    let r429 := tally1 is429 agent (count429 t, agents429 t) in
    let r5xx := tally1 is5xx agent (count5xx t, agents5xx t) in
    let rExec := tally1 isExecFail agent (countExecutorFailed t, agentsExecutorFailed t) in
    {| count401 := fst r401;
       count405 := fst r405;
       count429 := fst r429;
       count5xx := fst r5xx;
       countExecutorFailed := fst rExec;
       countExecFailed :=
         if isExecToolFail then countExecFailed t + 1 else countExecFailed t;
       countPluginLoadFailed :=
         if isPluginLoadFail then countPluginLoadFailed t + 1
         else countPluginLoadFailed t;
       agents401 := snd r401;
       agentsExecutorFailed := snd rExec;
       agents405 := snd r405;
       agents429 := snd r429;
       agents5xx := snd r5xx |}.

Definition scanLines (include exclude : list RegExp) (scope : Scope)
    (lines : list string) : Tally :=
  fold_left (scanLine include exclude scope) lines emptyTally.

(** the guard before the early [return]: every count is [=== 0] *)
Definition nothingCounted (t : Tally) : bool :=
  (count401 t =? 0) && (count405 t =? 0) && (count429 t =? 0)
  && (count5xx t =? 0) && (countExecutorFailed t =? 0)
  && (countExecFailed t =? 0) && (countPluginLoadFailed t =? 0).

(** truthiness of a number *)
Definition nonzero (z : Z) : bool := negb (z =? 0).

(** [fmtMap] *)
Definition fmtMap (m : Counts) : string :=
  Text.join ", "
    (map (fun kv => fst kv +:+ "(" +:+ Text.num (snd kv) +:+ ")")
       (sort (fun a b => snd b - snd a) m)).

Definition detailPart (label : string) (count : Z) (agents : option Counts)
    : list string :=
  if nonzero count then
    let a := match agents with Some m => fmtMap m | None => "" end in
    [label +:+ "=" +:+ Text.num count
     +:+ (if Text.nonempty a then " [" +:+ a +:+ "]" else "")]
  else [].

Definition detailParts (t : Tally) : list string :=
  detailPart "401" (count401 t) (Some (agents401 t))
  ++ detailPart "405" (count405 t) (Some (agents405 t))
  ++ detailPart "429" (count429 t) (Some (agents429 t))
  ++ detailPart "5xx" (count5xx t) (Some (agents5xx t))
  ++ detailPart "executorFailed" (countExecutorFailed t)
       (Some (agentsExecutorFailed t))
  ++ detailPart "execFailed" (countExecFailed t) None
  ++ detailPart "pluginLoadFailed" (countPluginLoadFailed t) None.

(** [const stateStr = count401 || ... ? "blocked" : "running"] *)
Definition stateStr (t : Tally) : JobState :=
  if nonzero (count401 t) || nonzero (count405 t) || nonzero (count429 t)
     || nonzero (count5xx t) || nonzero (countExecutorFailed t)
     || nonzero (countExecFailed t) || nonzero (countPluginLoadFailed t)
  then blocked else running.

(** [new Set([...])]: first occurrences, in order *)
Fixpoint dedupe (l : list string) : list string :=
  match l with
  | [] => []
  | x :: rest => x :: filter (fun y => y ≠ x) (dedupe rest)
  end.

Definition keys {V} (m : list (string * V)) : list string := map fst m.

(* ===================================================================== *)
(** ** Escalation state machine: the block under [if (escEnabled)]       *)
(* ===================================================================== *)

(** Property order of a plain object ([Object.entries]): array-index keys
    first, in ascending numeric order, then the other keys in insertion
    order. *)
Definition digit_value (c : ascii) : option Z :=
  if in_range c ("0"%char, "9"%char)
  then Some (Z.of_nat (nat_of_ascii c) - 48) else None.

Fixpoint decimal_value (acc : Z) (s : string) : option Z :=
  match s with
  | EmptyString => Some acc
  | String c s' =>
      match digit_value c with
      | Some d => decimal_value (10 * acc + d) s'
      | None => None
      end
  end.

(** the array index a key denotes: a canonical decimal below 2^32 - 1 *)
Definition array_index (k : string) : option Z :=
  match k with
  | EmptyString => None
  | String c rest =>
      if Ascii.eqb c "0"%char && Text.nonempty rest then None
      else
        match decimal_value 0 k with
        | Some n => if n <? 4294967295 then Some n else None
        | None => None
        end
  end.

Definition Object_entries {V} (o : list (string * V)) : list (string * V) :=
  sort (fun a b => nullish (array_index (fst a)) 0 - nullish (array_index (fst b)) 0)
    (filter (fun kv => is_Some (array_index (fst kv))) o)
  ++ filter (fun kv => array_index (fst kv) = None) o.

(** an own property of the counter object *)
Fixpoint own_get (o : ScopeCounters) (k : string) : option CounterValue :=
  match o with
  | [] => None
  | (k', v) :: o' => if String.eqb k' k then Some v else own_get o' k
  end.

(** The members every plain object inherits from [Object.prototype], each
    with the text string concatenation makes of it: the source text of a
    native function as Node prints it, and for the accessor [__proto__] the
    text of the prototype object. *)
Definition inheritedText (k : string) : option string :=
  if String.eqb k "__proto__" then Some "[object Object]"
  else if String.eqb k "constructor" then Some "function Object() { [native code] }"
  else if bool_decide
            (k ∈ [ "__defineGetter__"; "__defineSetter__"; "hasOwnProperty";
                   "__lookupGetter__"; "__lookupSetter__"; "isPrototypeOf";
                   "propertyIsEnumerable"; "toString"; "valueOf";
                   "toLocaleString" ])
  then Some ("function " +:+ k +:+ "() { [native code] }")
  else None.

(** [(scopeCounters[k] ?? 0) + n]: the own property if there is one, else
    the inherited member, which is not nullish, else 0. A number is added
    to, a text or an inherited member is concatenated with. *)
Definition readPlus (o : ScopeCounters) (k : string) (n : Z) : CounterValue :=
  match own_get o k with
  | Some (CNum c) => CNum (c + n)
  | Some (CText s) => CText (s +:+ Text.num n)
  | None =>
      match inheritedText k with
      | Some s => CText (s +:+ Text.num n)
      | None => CNum n
      end
  end.

(** [scopeCounters[k] = v]: an own property keeps its place, a new one goes
    last; without an own property the inherited setter of [__proto__] takes
    the assignment and drops a value that is no object *)
Fixpoint obj_set (o : ScopeCounters) (k : string) (v : CounterValue)
    : ScopeCounters :=
  match o with
  | [] => if String.eqb k "__proto__" then [] else [(k, v)]
  | (k', v') :: o' =>
      if String.eqb k' k then (k', v) :: o' else (k', v') :: obj_set o' k v
  end.

(** [bumpN] on the per-scope counter object *)
Definition bumpN (scopeCounters : ScopeCounters) (agentId : string) (n : Z)
    : ScopeCounters :=
  if negb (Text.nonempty agentId) || (n <=? 0) then scopeCounters
  else obj_set scopeCounters agentId (readPlus scopeCounters agentId n).

(** the five [bumpN] calls for one agent of this tick *)
Definition bumpAgent (t : Tally) (scopeCounters : ScopeCounters) (agentId : string)
    : ScopeCounters :=
  let c1 := bumpN scopeCounters agentId (nullish (assoc_get (agents401 t) agentId) 0) in
  let c2 := bumpN c1 agentId (nullish (assoc_get (agents405 t) agentId) 0) in
  let c3 := bumpN c2 agentId (nullish (assoc_get (agents429 t) agentId) 0) in
  let c4 := bumpN c3 agentId (nullish (assoc_get (agents5xx t) agentId) 0) in
  bumpN c4 agentId (nullish (assoc_get (agentsExecutorFailed t) agentId) 0).

(** the agents of this tick, in the order of the escalation block *)
Definition tickAgents (t : Tally) : list string :=
  dedupe (keys (agents401 t) ++ keys (agents405 t) ++ keys (agents429 t)
          ++ keys (agents5xx t) ++ keys (agentsExecutorFailed t)).

(** the cumulative counters after this tick's counts were added *)
Definition bumpAll (t : Tally) (scopeCounters : ScopeCounters) : ScopeCounters :=
  fold_left (bumpAgent t) (tickAgents t) scopeCounters.

(** "Determine offender: max cumulative count": the first entry with the
    largest count above zero. [c > offenderCount] is false for a text. *)
Definition findOffender (scopeCounters : ScopeCounters) : string * Z :=
  fold_left
    (fun best kv =>
       match snd kv with
       | CNum c => if snd best <? c then (fst kv, c) else best
       | CText _ => best
       end)
    (Object_entries scopeCounters) ("", 0).

Definition escalationReason (threshold : Z) (offender : string) (count : Z)
    : string :=
  "error threshold hit: >=" +:+ Text.num threshold +:+ " (offender=" +:+ offender
  +:+ ", cumulative=" +:+ Text.num count +:+ ")".

(** [state.observe.counters[scope]], the empty object when absent *)
Definition scopeCountersOf (scope : Scope) (s : State) : ScopeCounters :=
  nullish (counters (observe s) !! scope_name scope) [].

Definition setScopeCounters (scope : Scope) (c : ScopeCounters) (s : State) : State :=
  set_observe
    (set_counters (<[scope_name scope := c]> (counters (observe s))) (observe s)) s.

Definition escEnabled (esc : option EscalateConfig) : bool :=
  bool_decide (esc ≫= esc_enabled = Some true).
Definition escThreshold (esc : option EscalateConfig) : Z :=
  nullish (esc ≫= esc_threshold) 3.
Definition escCooldownMs (esc : option EscalateConfig) : Z :=
  nullish (esc ≫= esc_cooldownMs) (5 * 60000).
Definition escMention (esc : option EscalateConfig) : string :=
  nullish (esc ≫= esc_mention) "@here".

(** lines 668-729 of [observeFromGatewayLogs]; [scopeCounters] aliases the
    object inside [state], so every write to it is a write to [state] *)
Definition escalate (esc : option EscalateConfig) (scope : Scope) (t : Tally)
    : M unit :=
  let threshold := escThreshold esc in
  let cooldownMs := escCooldownMs esc in
  let mention := escMention esc in
  if escEnabled esc then
    st <- getState ;;
    let scopeCounters := bumpAll t (scopeCountersOf scope st) in
    modifyState (setScopeCounters scope scopeCounters) ;;
    let offender := fst (findOffender scopeCounters) in
    let offenderCount := snd (findOffender scopeCounters) in
    let shouldEscalate := threshold <=? offenderCount in
    t0 <- now ;;
    let cooledDown := cooldownMs <=? t0 - lastEscalateAt (observe st) in
    if shouldEscalate && cooledDown then
      let reason := escalationReason threshold offender offenderCount in
      t1 <- now ;;
      modifyState (fun s => set_observe (set_lastEscalate t1 reason (observe s)) s) ;;
      t2 <- now ;;
      modifyState (set_observeEscalation (mkEscalation true mention reason t2)) ;;
      if Text.nonempty offender
      then modifyState
             (setScopeCounters scope (obj_set scopeCounters offender (CNum threshold)))
      else ret tt
    else ret tt
  else ret tt.

(* ===================================================================== *)
(** ** Log tailer and the observer tick: [observeFromGatewayLogs]        *)
(* ===================================================================== *)

Definition observeCfg {A} (cfg : Config) (f : ObserveConfig -> option A) : option A :=
  cfg_observe cfg ≫= f.

Definition baseJobId (scope : Scope) : string :=
  match scope with gateway => "gateway:health" | flock => "flock:health" end.

Definition baseTitle (scope : Scope) : string :=
  match scope with
  | gateway => "Gateway health (auto)"
  | flock => "Flock health (auto)"
  end.

(** [baseJobId.replace(/:health$/, ":agent")] *)
Definition agentJobIdPrefix (scope : Scope) : string :=
  match scope with gateway => "gateway:agent" | flock => "flock:agent" end.

(** [baseTitle.replace(" health (auto)", " agent health")] *)
Definition agentTitlePrefix (scope : Scope) : string :=
  match scope with
  | gateway => "Gateway agent health"
  | flock => "Flock agent health"
  end.

(** a patch with the properties the observer supplies *)
Definition healthPatch (id ttl : string) (st : JobState) (dtl : string)
    : JobRecord :=
  mkJob (Some id) (Some ttl) (Some "observe") (Some st) None (Some dtl)
    None None None.

(** lines 454-476: stat the file, reset the cursor on rotation, read the
    window, advance the cursor. [content] is the file found at [path]. *)
Definition readChunk (path : string) (content : string) (maxBytes : Z)
    : M string :=
  let size := Text.len content in
  st <- getState ;;
  (if bool_decide (logPath (observe st) ≠ path) || (size <? pos (observe st))
   then modifyState (fun s =>
          set_observe (set_cursor path (Z.max 0 (size - maxBytes)) (observe s)) s)
   else ret tt) ;;
  st <- getState ;;
  let start := Z.max 0 (pos (observe st)) in
  let end_ := size in
  let bytesToRead := Z.min maxBytes (Z.max 0 (end_ - start)) in
  let readStart := Z.max 0 (end_ - bytesToRead) in
  (* Buffer.alloc(bytesToRead) *)
  (if bytesToRead <? 0
   then throw "The value of size is out of range."
   else ret tt) ;;
  let buf := Text.slice readStart bytesToRead content in
  modifyState (fun s => set_observe (set_pos_size end_ size (observe s)) s) ;;
  ret buf.

(** the optional per-agent jobs, the body of the loop at lines 639-662 *)
Definition perAgentJob (scope : Scope) (t : Tally) (minCount : Z)
    (agent : string) : M unit :=
  let c401 := nullish (assoc_get (agents401 t) agent) 0 in
  let cExec := nullish (assoc_get (agentsExecutorFailed t) agent) 0 in
  let c405 := nullish (assoc_get (agents405 t) agent) 0 in
  let c429 := nullish (assoc_get (agents429 t) agent) 0 in
  let c5xx := nullish (assoc_get (agents5xx t) agent) 0 in
  let total := c401 + cExec + c405 + c429 + c5xx in
  if total <? minCount then ret tt
  else
    let parts :=
      detailPart "401" c401 None ++ detailPart "429" c429 None
      ++ detailPart "5xx" c5xx None ++ detailPart "executorFailed" cExec None
      ++ detailPart "405" c405 None in
    upsertJob
      (healthPatch (agentJobIdPrefix scope +:+ ":" +:+ agent)
         (agentTitlePrefix scope +:+ ": " +:+ agent +:+ " (auto)")
         blocked (Text.join ", " parts)) ;;
    ret tt.

Definition perAgentJobs (cfg : Config) (scope : Scope) (t : Tally) : M unit :=
  let pa := observeCfg cfg obs_perAgentJobs in
  let perAgentEnabled := bool_decide (pa ≫= pa_enabled = Some true) in
  let minCount := nullish (pa ≫= pa_minCount) 1 in
  if perAgentEnabled then
    forEach
      (dedupe (keys (agents401 t) ++ keys (agentsExecutorFailed t)
               ++ keys (agents405 t) ++ keys (agents429 t) ++ keys (agents5xx t)))
      (perAgentJob scope t minCount)
  else ret tt.

(** [todayLogPath()] *)
Definition todayLogPath : M string :=
  w <- get ;; t <- now ;; ret (w_dayPath w t).

(** [cfg.observe?.logPath ?? todayLogPath()] *)
Definition resolveLogPath (cfg : Config) : M string :=
  match observeCfg cfg obs_logPath with
  | Some p => ret p
  | None => todayLogPath
  end.

Definition obsEnabled (cfg : Config) : bool :=
  bool_decide (observeCfg cfg obs_enabled = Some true).
Definition obsScope (cfg : Config) : Scope :=
  nullish (observeCfg cfg obs_scope) gateway.
Definition obsMaxBytes (cfg : Config) : Z :=
  nullish (observeCfg cfg obs_maxBytesPerTick) (1024 * 1024).

(** the text scanned in one tick, cut into lines *)
Definition chunkLines (text : string) : list string :=
  filter (fun l => Text.nonempty l = true) (Text.split_lines text).

(** what follows the early return, lines 584-739, when something was
    counted *)
Definition reportErrors (cfg : Config) (scope : Scope) (t : Tally) : M unit :=
  perAgentJobs cfg scope t ;;
  escalate (observeCfg cfg obs_escalate) scope t ;;
  upsertJob
    (healthPatch (baseJobId scope) (baseTitle scope) (stateStr t)
       ("Detected " +:+ scope_name scope +:+ " errors in gateway logs: "
        +:+ Text.join ", " (detailParts t))) ;;
  saveState.

Definition observeFromGatewayLogs (cfg : Config) : M unit :=
  if negb (obsEnabled cfg) then ret tt
  else
    let scope := obsScope cfg in
    logPath <- resolveLogPath cfg ;;
    let maxBytes := obsMaxBytes cfg in
    let include := compileRegexes (observeCfg cfg obs_includeRegexes) in
    let exclude := compileRegexes (observeCfg cfg obs_excludeRegexes) in
    try_catch
      (w <- get ;;
       match w_logs w logPath with
       | None =>
           upsertJob
             (healthPatch (baseJobId scope) (baseTitle scope) waiting
                ("gateway log not found: " +:+ logPath)) ;;
           ret tt
       | Some content =>
           text <- readChunk logPath content maxBytes ;;
           let lines := chunkLines text in
           let t := scanLines include exclude scope lines in
           modifyState (set_observeLast noObserveLast) ;;
           if nothingCounted t then ret tt
           else reportErrors cfg scope t
       end)
      (fun err =>
         logger Error ("[progress-briefing][observe] failed: " +:+ err)).

(* ===================================================================== *)
(** ** Briefing scheduler: [formatBrief] and [tick]                      *)
(* ===================================================================== *)

Definition stateName (s : option JobState) : string :=
  match s with
  | Some registered => "registered"
  | Some running => "running"
  | Some waiting => "waiting"
  | Some blocked => "blocked"
  | Some completed => "completed"
  | Some failed => "failed"
  | Some (other key) => key
  | None => "undefined"
  end.

(** [fmt] of [formatBrief] *)
Definition fmtJob (j : JobRecord) : string :=
  let pct := match progress j with
             | Some p => " (" +:+ Text.num p +:+ "%)"
             | None => ""
             end in
  let dtl := if truthy (detail j) then " — " +:+ nullish (detail j) "" else "" in
  "- [" +:+ stateName (state j) +:+ "] "
  +:+ nullish (orelse (title j) (jobId j)) "undefined" +:+ pct +:+ dtl.

(** the own property of [by] that a key names *)
Definition stateOfKey (key : string) : JobState :=
  if String.eqb key "running" then running
  else if String.eqb key "waiting" then waiting
  else if String.eqb key "blocked" then blocked
  else if String.eqb key "completed" then completed
  else if String.eqb key "failed" then failed
  else if String.eqb key "registered" then registered
  else other key.

(** the bucket [by[j.state] ?? by.registered]; a key that names no bucket
    shows in no section, like [registered] *)
Definition bucket (j : JobRecord) : JobState :=
  match state j with
  | Some (other key) => stateOfKey key
  | Some s => s
  | None => registered
  end.

(** [(by[j.state] ?? by.registered).push(j)] throws a TypeError when
    [j.state] names a member that [by] inherits from [Object.prototype]:
    that member is not nullish and has no [push] *)
Definition pushThrows (j : JobRecord) : bool :=
  match bucket j with
  | other key => match inheritedText key with Some _ => true | None => false end
  | _ => false
  end.

(** the message of that TypeError, as V8 renders the call site *)
Definition pushTypeError : string :=
  "(by[j.state] ?? by.registered).push is not a function".

Definition inState (s : JobState) (jobs : list JobRecord) : list JobRecord :=
  filter (fun j => bucket j = s) jobs.

(** [section] of [formatBrief] *)
Definition section (name : string) (arr : list JobRecord) : list string :=
  match arr with
  | [] => []
  | _ =>
      (name +:+ " (" +:+ Text.num (Z.of_nat (List.length arr)) +:+ ")")
      :: map fmtJob arr ++ [""]
  end.

(** [formatBrief(jobs, opts)] from its second statement on; its first
    loop, which fills the buckets, throws under [pushThrows] and is run by
    [renderBrief]. The two tool-call sections print durations with
    [toFixed]; the lines they push are taken as given. *)
Definition formatBrief (jobs : list JobRecord) (header : option string)
    (toolLines : list string) : string :=
  let lines :=
    (if truthy header then [nullish header ""] else [])
    ++ toolLines
    ++ section "📋 RUNNING" (inState running jobs)
    ++ section "⏳ WAITING" (inState waiting jobs)
    ++ section "🚫 BLOCKED" (inState blocked jobs)
    ++ section "✔️ COMPLETED" (inState completed jobs)
    ++ section "❌ FAILED" (inState failed jobs) in
  let hasContent :=
    negb (bool_decide (toolLines = []))
    || negb (bool_decide (inState running jobs = []))
    || negb (bool_decide (inState waiting jobs = []))
    || negb (bool_decide (inState blocked jobs = [])) in
  let lines :=
    if truthy header && negb hasContent then lines ++ ["(no activity)"] else lines in
  match lines with
  | [] => "(no jobs)"
  | _ => Text.trim (Text.join (String Text.LF "") lines)
  end.

(** [/^\[progress-briefing\] [^\n]+\n?/] *)
Definition rx_header : RegExp :=
  rx (seq [ Bol; lit "[progress-briefing] ";
            Many1 (NoneOf [(Text.LF, Text.LF)]); Opt (One (Lit Text.LF)) ]).

Definition withoutHeader (text : string) : string := remove_first rx_header text.

(** [discordSendText]: a response that is not ok throws with its status,
    status text and body, and an unreachable host throws the error of
    [fetch] *)
Definition discordSendText (channelId content : string) : M unit :=
  w <- get ;;
  match w_discordPost w with
  | Delivered => modify (with_discord (w_discord w ++ [(channelId, content)]))
  | Rejected status statusText body =>
      throw ("Discord send failed: " +:+ Text.num status +:+ " " +:+ statusText
             +:+ " " +:+ body)
  | Unreachable message => throw message
  end.

Definition pollEveryMs (cfg : Config) : Z := nullish (cfg_pollEveryMs cfg) 30000.

(** [(timePassed && contentChanged) || hasEscalation] *)
Definition shouldPost (timePassed contentChanged hasEscalation : bool) : bool :=
  (timePassed && contentChanged) || hasEscalation.

(** the text sent: mention line, briefing, escalation reason *)
Definition briefContent (cfg : Config) (st : State) (text : string) : string :=
  let esc := observeEscalation st in
  let forced := if pending esc then forcedMention esc else "" in
  let mention :=
    if Text.nonempty forced then Some forced else cfg_discord cfg ≫= dc_mention in
  let content :=
    if truthy mention then nullish mention "" +:+ String Text.LF text else text in
  if pending esc && Text.nonempty (reason esc)
  then content +:+ String Text.LF (String Text.LF "[escalation] ") +:+ reason esc
  else content.

(** the [try] block of [tick], lines 1080-1098 *)
Definition sendBrief (cfg : Config) (text content : string) : M unit :=
  let discordEnabled :=
    negb (bool_decide (cfg_discord cfg ≫= dc_enabled = Some false)) in
  let channelId := cfg_discord cfg ≫= dc_channelId in
  let discordToken := cfg_discordToken cfg in
  (if discordEnabled && truthy channelId && truthy discordToken
   then discordSendText (nullish channelId "") content
   else ret tt) ;;
  logger Info (String Text.LF content) ;;
  st <- getState ;;
  (if pending (observeEscalation st)
   then modifyState (fun s =>
          set_observeEscalation (set_pending false (observeEscalation s)) s)
   else ret tt) ;;
  t <- now ;;
  modifyState (set_lastBrief t text) ;;
  saveState.

(** [tick] from the rendered [text] on, lines 1041-1105: decide, then post *)
Definition postBrief (cfg : Config) (jobs : list JobRecord) (text : string)
    : M unit :=
  let lastActivity :=
    fold_left Z.max (map (fun j => nullish (lastActivityAt j) 0) jobs) 0 in
  idleNow <- now ;;
  let idleFor := if nonzero lastActivity then idleNow - lastActivity else idleNow in
  st <- getState ;;
  let contentChanged :=
    negb (bool_decide
            (withoutHeader text = withoutHeader (nullish (lastBriefContent st) ""))) in
  t <- now ;;
  let timePassed := pollEveryMs cfg <=? t - lastBriefAt st in
  let hasEscalation := pending (observeEscalation st) in
  if negb (shouldPost timePassed contentChanged hasEscalation) then ret tt
  else
    let content := briefContent cfg st text in
    try_catch
      (sendBrief cfg text content)
      (fun err => logger Error ("[progress-briefing] brief post failed: " +:+ err)).

(** [tick] up to the rendered text: observe, read the jobs, render *)
Definition renderBrief (cfg : Config) : M (list JobRecord * string) :=
  observeFromGatewayLogs cfg ;;
  jobs <- readJobs ;;
  w <- get ;;
  d <- now ;;
  (* the first loop of formatBrief, outside any try *)
  (if existsb pushThrows jobs
   then throw pushTypeError
   else ret tt) ;;
  ret (jobs,
       formatBrief jobs (Some ("[progress-briefing] " +:+ w_localeString w d))
         (w_toolLines w)).

(** [tick], which the service schedules only when the plugin is enabled *)
Definition tick (cfg : Config) : M unit :=
  jt <- renderBrief cfg ;;
  postBrief cfg (fst jt) (snd jt).

(* ===================================================================== *)
(** ** Vocabulary of the properties, and the worlds of the examples      *)
(* ===================================================================== *)

(** *** The job store *)

(** [map.get(k)] *)
Fixpoint jget (m : list (string * JobRecord)) (k : string) : option JobRecord :=
  match m with
  | [] => None
  | (k', v) :: m' => if String.eqb k' k then Some v else jget m' k
  end.

(** the last record of [js] filed under key [k] *)
Fixpoint lastJob (k : string) (js : list JobRecord) : option JobRecord :=
  match js with
  | [] => None
  | j :: rest =>
      match lastJob k rest with
      | Some j' => Some j'
      | None => if String.eqb (nullish (jobId j) "") k then Some j else None
      end
  end.


(** the last well-formed line of the log that carries the job id [id] *)
Fixpoint lastWrite (id : string) (lines : list Line) : option JobRecord :=
  match lines with
  | [] => None
  | l :: rest =>
      match lastWrite id rest with
      | Some j => Some j
      | None =>
          match l with
          | Parsed j => if bool_decide (jobId j = Some id) then Some j else None
          | _ => None
          end
      end
  end.

(** [jobs.find((j) => j.jobId === id)] on the reduced records *)
Definition findJob (id : option string) (jobs : list JobRecord) : option JobRecord :=
  List.find (fun j => bool_decide (jobId j = id)) jobs.

(** what [readJobs] returns in a world *)
Definition storedJobs (w : World) : list JobRecord :=
  match w_jobs w with Some lines => reduceLines lines | None => [] end.

(** the current record of a job id, as [upsertJob] looks it up *)
Definition currentRecord (id : option string) (w : World) : option JobRecord :=
  findJob id (storedJobs w).

(** the properties [upsertJob] stamps last *)
Definition stamps (u a : Z) : JobRecord :=
  mkJob None None None None None None None (Some u) (Some a).

(** the record a missing job starts from *)
Definition freshJob (id : option string) (c u a : Z) : JobRecord :=
  mkJob id None None (Some registered) None None (Some c) (Some u) (Some a).

(** the record [upsertJob] appends, read off the world it starts in *)
Definition upsertNext (patch : JobRecord) (w : World) : JobRecord :=
  let c := w_clock w in
  let r := w_reads w in
  match currentRecord (jobId patch) w with
  | Some prev => spread (spread prev patch) (stamps (c r) (c (1 + r)%nat))
  | None =>
      spread (spread (freshJob (jobId patch) (c r) (c (1 + r)%nat) (c (2 + r)%nat)) patch)
        (stamps (c (3 + r)%nat) (c (4 + r)%nat))
  end.

(** the clock readings consumed once [upsertJob] is done *)
Definition upsertReads (patch : JobRecord) (w : World) : nat :=
  match currentRecord (jobId patch) w with
  | Some _ => (2 + w_reads w)%nat
  | None => (5 + w_reads w)%nat
  end.

(** the world [upsertJob] leaves *)
Definition afterUpsert (patch : JobRecord) (w : World) : World :=
  with_jobs (fun f => Some (nullish f [] ++ [Parsed (upsertNext patch w)]))
    (with_reads (upsertReads patch w) w).

(** a sequence of [upsertJob] calls *)
Definition upsertAll (patches : list JobRecord) : M unit :=
  forEach patches (fun p => upsertJob p ;; ret tt).

(** the two reports of the end-to-end scenario *)
Definition report_running_10 : JobRecord :=
  mkJob (Some "build-1") None None (Some running) (Some 10) None None None None.
Definition report_90 : JobRecord :=
  mkJob (Some "build-1") None None None (Some 90) None None None None.

(** *** Example worlds *)

(** a fresh installation: no files, the clock at 1_700_000_000_000 ms
    advancing one millisecond per reading, Discord reachable *)
Definition world0 : World :=
  mkWorld initialState None None (fun _ => None)
    (fun n => 1700000000000 + Z.of_nat n) 0%nat
    (fun _ => "/tmp/openclaw/openclaw-2026-01-01.log") Text.num [] [] Delivered [].

Definition gwLog : string := "/tmp/gw.log".

(** [world0] with the gateway log at [gwLog] *)
Definition with_log (content : string) (w : World) : World :=
  mkWorld (w_state w) (w_jobs w) (w_stateFile w)
    (fun p => if String.eqb p gwLog then Some content else w_logs w p)
    (w_clock w) (w_reads w) (w_dayPath w) (w_localeString w) (w_toolLines w)
    (w_logger w) (w_discordPost w) (w_discord w).

(** *** The log tailer *)

(** the read step as the specification words it: the bytes read are the
    [min(maxBytes, size - pos)] bytes that start at [pos] *)
Definition reads_from_cursor (path content : string) (maxBytes : Z) (w : World)
    : Prop :=
  let size := Text.len content in
  let p := pos (observe (w_state w)) in
  exists w',
    readChunk path content maxBytes w
      = (Ok (Text.slice p (Z.min maxBytes (size - p)) content), w')
    /\ pos (observe (w_state w')) = size.

(** a ten-byte log, nothing consumed yet, the cursor already on this path *)
Definition world_tail : World :=
  with_state
    (fun s => set_observe (set_cursor gwLog 0 (observe s)) s)
    (with_log "0123456789" world0).

(** *** The briefing scheduler *)

(** the Discord send is attempted *)
Definition discordConfigured (cfg : Config) : bool :=
  negb (bool_decide (cfg_discord cfg ≫= dc_enabled = Some false))
  && truthy (cfg_discord cfg ≫= dc_channelId)
  && truthy (cfg_discordToken cfg).

(** the message of the error a failed POST throws *)
Definition sendError (o : PostOutcome) : option string :=
  match o with
  | Delivered => None
  | Rejected status statusText body =>
      Some ("Discord send failed: " +:+ Text.num status +:+ " " +:+ statusText
            +:+ " " +:+ body)
  | Unreachable message => Some message
  end.

(** the outbound send of this tick would be rejected or not get through *)
Definition transportFails (cfg : Config) (w : World) : bool :=
  discordConfigured cfg
  && match w_discordPost w with Delivered => false | _ => true end.

(** the instant at which [tick] compares against [lastBriefAt]: the second
    clock reading after the text was rendered *)
Definition decisionTime (w : World) : Z := w_clock w (1 + w_reads w)%nat.

(** the minimum interval has elapsed since the last publish *)
Definition intervalElapsed (cfg : Config) (w : World) : Prop :=
  pollEveryMs cfg <= decisionTime w - lastBriefAt (w_state w).

(** [rest] when [s] is [p] followed by [rest] *)
Fixpoint afterPrefix (p s : string) : option string :=
  match p, s with
  | EmptyString, _ => Some s
  | String a p', String b s' => if Ascii.eqb a b then afterPrefix p' s' else None
  | String _ _, EmptyString => None
  end.

(** the first line of [s], and what follows it from its line break on *)
Fixpoint cutAtLF (s : string) : string * string :=
  match s with
  | EmptyString => (EmptyString, EmptyString)
  | String c s' =>
      if Ascii.eqb c Text.LF then (EmptyString, s)
      else (String c (fst (cutAtLF s')), snd (cutAtLF s'))
  end.

(** The content "after stripping a leading timestamp header", in the words
    of the specification and apart from the code's regular expression: a
    text that opens with [[progress-briefing] ] and a timestamp (something
    on that line) loses that line and its line break; any other text is
    taken whole. *)
Definition ignoringHeader (text : string) : string :=
  match afterPrefix "[progress-briefing] " text with
  | Some rest =>
      match cutAtLF rest with
      | (EmptyString, _) => text
      | (String _ _, String _ body) => body
      | (String _ _, EmptyString) => EmptyString
      end
  | None => text
  end.

(** the rendered content differs from the last published one, leading
    timestamp header aside *)
Definition contentDiffers (text : string) (w : World) : Prop :=
  ignoringHeader text <> ignoringHeader (nullish (lastBriefContent (w_state w)) "").

Definition escalationPending (w : World) : Prop :=
  pending (observeEscalation (w_state w)) = true.

(** the publish rule of the specification *)
Definition publishDue (cfg : Config) (text : string) (w : World) : Prop :=
  (intervalElapsed cfg w /\ contentDiffers text w) \/ escalationPending w.

(** the briefing was published: it reached the log sink and, when the
    Discord send is configured, the channel *)
Definition posted (cfg : Config) (text : string) (w w' : World) : Prop :=
  let content := briefContent cfg (w_state w) text in
  w_logger w' = w_logger w ++ [(Info, String Text.LF content)]
  /\ w_discord w' =
     (if discordConfigured cfg
      then w_discord w ++ [(nullish (cfg_discord cfg ≫= dc_channelId) "", content)]
      else w_discord w).

(** the publish was attempted and the send failed: the failure was logged
    with the message of the error *)
Definition postFailed (w w' : World) : Prop :=
  exists message,
    w_logger w' =
    w_logger w ++ [(Error, "[progress-briefing] brief post failed: " +:+ message)].

(** the world after a successful post *)
Definition afterPost (cfg : Config) (text : string) (w : World) : World :=
  let content := briefContent cfg (w_state w) text in
  let st :=
    set_lastBrief (w_clock w (2 + w_reads w)%nat) text
      (if pending (observeEscalation (w_state w))
       then set_observeEscalation (set_pending false (observeEscalation (w_state w)))
              (w_state w)
       else w_state w) in
  mkWorld st (w_jobs w) (Some st) (w_logs w) (w_clock w) (3 + w_reads w)%nat
    (w_dayPath w) (w_localeString w) (w_toolLines w)
    (w_logger w ++ [(Info, String Text.LF content)]) (w_discordPost w)
    (if discordConfigured cfg
     then w_discord w ++ [(nullish (cfg_discord cfg ≫= dc_channelId) "", content)]
     else w_discord w).

(** the world after a failed post *)
Definition afterFailedPost (w : World) : World :=
  with_logger
    (w_logger w
     ++ [(Error, "[progress-briefing] brief post failed: "
                 +:+ nullish (sendError (w_discordPost w)) "")])
    (with_reads (2 + w_reads w)%nat w).

(** Discord configured, an escalation pending, the bot token refused *)
Definition cfg_discord_on : Config :=
  mkConfig None None None
    (Some (mkDiscordConfig None (Some "1234567890") None)) None (Some "bot-token").

Definition world_pending_down : World :=
  mkWorld
    (set_observeEscalation (mkEscalation true "@here" "error threshold hit" 5)
       initialState)
    None None (fun _ => None) (fun n => 1700000000000 + Z.of_nat n) 0%nat
    (fun _ => "/tmp/openclaw/openclaw-2026-01-01.log") Text.num [] []
    (Rejected 401 "Unauthorized" "{}") [].

(** *** The observer and the escalation latch *)


(** the escalation-relevant part of the state is the same *)
Definition sameEscalation (st st' : State) : Prop :=
  observeEscalation st' = observeEscalation st
  /\ lastEscalateAt (observe st') = lastEscalateAt (observe st)
  /\ lastEscalateReason (observe st') = lastEscalateReason (observe st)
  /\ forall s, scopeCountersOf s st' = scopeCountersOf s st.

(** the include/exclude filter of a configuration *)
Definition matchesCfg (cfg : Config) (line : string) : bool :=
  matches (compileRegexes (observeCfg cfg obs_includeRegexes))
    (compileRegexes (observeCfg cfg obs_excludeRegexes)) (obsScope cfg) line.

(** no agent was attributed in this tally *)
Definition noAgents (t : Tally) : Prop :=
  agents401 t = [] /\ agents405 t = [] /\ agents429 t = []
  /\ agents5xx t = [] /\ agentsExecutorFailed t = [].

(** the lines the observer scans in a tick that starts in [w] *)
Definition scannedLines (cfg : Config) (w : World) : list string :=
  if obsEnabled cfg then
    match resolveLogPath cfg w with
    | (Ok path, w1) =>
        match w_logs w1 path with
        | Some content =>
            match readChunk path content (obsMaxBytes cfg) w1 with
            | (Ok text, _) => chunkLines text
            | (Throw _, _) => []
            end
        | None => []
        end
    | (Throw _, _) => []
    end
  else [].

(** every matched line of this tick is unattributed *)
Definition unattributedTick (cfg : Config) (w : World) : Prop :=
  forall l, l ∈ scannedLines cfg w -> matchesCfg cfg l = true -> extractAgent l = "".

(** every counter of the scope is below the threshold *)
Definition belowThreshold (cfg : Config) (st : State) : Prop :=
  forall a c, (a, CNum c) ∈ scopeCountersOf (obsScope cfg) st ->
    c < escThreshold (observeCfg cfg obs_escalate).

(** what the environment presents at the start of a tick: the files on disk
    and whether Discord is reachable *)
Record Feed : Type := mkFeed
  { feed_logs : string -> option string; feed_discordPost : PostOutcome }.

Definition feed (f : Feed) (w : World) : World :=
  mkWorld (w_state w) (w_jobs w) (w_stateFile w) (feed_logs f) (w_clock w)
    (w_reads w) (w_dayPath w) (w_localeString w) (w_toolLines w) (w_logger w)
    (feed_discordPost f) (w_discord w).

(** successive scheduler ticks, each on what the environment then presents *)
Fixpoint runTicks (cfg : Config) (feeds : list Feed) (w : World) : World :=
  match feeds with
  | [] => w
  | f :: rest => runTicks cfg rest (snd (tick cfg (feed f w)))
  end.

(** the log stream consists solely of unattributed matching lines: in every
    tick, every scanned line that matches yields no agent *)
Fixpoint unattributedStream (cfg : Config) (feeds : list Feed) (w : World) : Prop :=
  match feeds with
  | [] => True
  | f :: rest =>
      unattributedTick cfg (feed f w)
      /\ unattributedStream cfg rest (snd (tick cfg (feed f w)))
  end.

(** nothing was added to a counter and no escalation was raised; a pending
    one may have been consumed by a publish *)
Definition noNewEscalation (st st' : State) : Prop :=
  (forall s, scopeCountersOf s st' = scopeCountersOf s st)
  /\ lastEscalateAt (observe st') = lastEscalateAt (observe st)
  /\ lastEscalateReason (observe st') = lastEscalateReason (observe st)
  /\ (observeEscalation st' = observeEscalation st
      \/ observeEscalation st' = set_pending false (observeEscalation st)).

(** *** Example logs and configurations *)

(** a log line with its line feed *)
Definition line (s : string) : string := s +:+ String Text.LF "".

(** observation of [gwLog] in gateway scope, escalation at 3 errors with a
    five-minute cooldown *)
Definition esc_at_3 : EscalateConfig :=
  mkEscalateConfig (Some true) (Some 3) (Some 300000) None.

Definition cfg_watch : Config :=
  mkConfig None None None None
    (Some (mkObserveConfig (Some true) None (Some gwLog) None None None None
             (Some esc_at_3)))
    None.





(** two ticks of unattributed server errors *)
Definition feeds_unattributed : list Feed :=
  [ mkFeed (fun p => if String.eqb p gwLog
                     then Some (line "HTTP 500 upstream failure") else None) Delivered;
    mkFeed (fun p => if String.eqb p gwLog
                     then Some (line "HTTP 500 upstream failure"
                                +:+ line "HTTP 503 again") else None) Delivered ].

(** the health job of the gateway scope *)
Definition healthState (w : World) : option (option JobState) :=
  state <$> currentRecord (Some "gateway:health") w.

(** one server error, then a tick whose new text is harmless *)
Definition world_one_error : World :=
  snd (observeFromGatewayLogs cfg_watch
         (with_log (line "HTTP 500 upstream failure") world0)).

Definition world_then_quiet : World :=
  snd (observeFromGatewayLogs cfg_watch
         (with_log (line "HTTP 500 upstream failure" +:+ line "all quiet")
            world_one_error)).

(** *** Cumulative counts *)

(** a counter read with [?? 0] *)
Definition countOf (cs : Counts) (a : string) : Z := nullish (assoc_get cs a) 0.

(** the errors attributed to an agent in one tick *)
Definition tickTotal (t : Tally) (a : string) : Z :=
  countOf (agents401 t) a + countOf (agents405 t) a + countOf (agents429 t) a
  + countOf (agents5xx t) a + countOf (agentsExecutorFailed t) a.

(** a per-tick agent map as [bump] builds it: named agents, positive counts *)
Definition bumped (m : Counts) : Prop :=
  forall a c, (a, c) ∈ m -> a <> "" /\ 0 < c.

Definition bumpedTally (t : Tally) : Prop :=
  bumped (agents401 t) /\ bumped (agents405 t) /\ bumped (agents429 t)
  /\ bumped (agents5xx t) /\ bumped (agentsExecutorFailed t).


(** *** The escalation rule on attributed errors *)

(** the number a counter holds; 0 when the agent has none or it is a text *)
Definition numOf (cs : ScopeCounters) (a : string) : Z :=
  match own_get cs a with
  | Some (CNum n) => n
  | _ => 0
  end.

(** the names of the members every JavaScript object inherits *)
Definition objectMember (a : string) : bool :=
  bool_decide
    (a ∈ [ "constructor"; "__proto__"; "toString"; "valueOf"; "toLocaleString";
           "hasOwnProperty"; "isPrototypeOf"; "propertyIsEnumerable";
           "__defineGetter__"; "__defineSetter__"; "__lookupGetter__";
           "__lookupSetter__" ]).

(** the errors of the agent can be counted: its counter is a number, or it
    has no counter yet and is not named like an inherited member *)
Definition counted (cs : ScopeCounters) (a : string) : bool :=
  match own_get cs a with
  | Some (CNum _) => true
  | Some (CText _) => false
  | None => negb (objectMember a)
  end.






(** *** Unattributed errors, as the claim words them *)

(** over a stream of ticks whose matching lines all yield no agent, no
    escalation is raised: whatever the configuration and the state *)
Definition unattributed_never_escalate (cfg : Config) (feeds : list Feed)
    (w : World) : Prop :=
  unattributedStream cfg feeds w ->
  noNewEscalation (w_state w) (w_state (runTicks cfg feeds w)).

(** a threshold of zero *)
Definition cfg_threshold_0 : Config :=
  mkConfig None None None None
    (Some (mkObserveConfig (Some true) None (Some gwLog) None None None None
             (Some (mkEscalateConfig (Some true) (Some 0) (Some 300000) None))))
    None.

(** one tick on one unattributed server error *)
Definition feed_one_error : list Feed :=
  [ mkFeed (fun p => if String.eqb p gwLog
                     then Some (line "HTTP 500 upstream failure") else None)
      Delivered ].

(** agent pm stands at the threshold, where the last escalation clamped
    it, and that escalation is long past *)
Definition world_clamped : World :=
  with_state
    (set_observe (mkObserveState "" 0 0 0 "" {[ "gateway" := [("pm", CNum 3)] ]}))
    world0.

(** *** The publish rule for every tick *)

(** a pending escalation and no Discord: the briefing goes to the log *)
Definition world_pending_up : World :=
  mkWorld
    (set_observeEscalation (mkEscalation true "@here" "error threshold hit" 5)
       initialState)
    None None (fun _ => None) (fun n => 1700000000000 + Z.of_nat n) 0%nat
    (fun _ => "/tmp/openclaw/openclaw-2026-01-01.log") Text.num [] [] Delivered [].





(* ===================================================================== *)
(** ** Further code of [src/index.ts]: the report tool, [loadState],
       the tool-call hooks and the helpers of the agents tool             *)
(* ===================================================================== *)

(** [execute] of [progress_briefing_report] (lines 810-827); the result is
    the text of its content *)
Definition progress_briefing_report (cfg : Config) (params : JobRecord) : M string :=
  if negb (enabled cfg) then ret msg_disabled
  else
    next <- upsertJob params ;;
    ret ("ok: " +:+ nullish (jobId next) "undefined" +:+ " → "
         +:+ stateName (state next)).

(** [loadState] (lines 367-381) on a [state.json] that [saveState] wrote.
    [{ ...state, ...parsed }] takes every property the snapshot has; a
    snapshot saved after a reset has no [lastBriefContent], which then stays
    as it is in memory. The nested objects of a saved snapshot are complete,
    so the two targeted merges that follow change nothing. *)
Definition loadState : M unit :=
  w <- get ;;
  match w_stateFile w with
  | None => ret tt
  | Some parsed =>
      modifyState (fun s =>
        mkState (lastBriefAt parsed) (lastNoMsgEscalationAt parsed)
          (orelse (lastBriefContent parsed) (lastBriefContent s))
          (observe parsed) (observeEscalation parsed) (observeLast parsed))
  end.

(** *** Strings and maps of the hooks *)

(** [s.split(":")] and the like *)
Fixpoint split_on (sep : ascii) (s : string) : list string :=
  match s with
  | EmptyString => [EmptyString]
  | String c s' =>
      match split_on sep s' with
      | cur :: rest =>
          if Ascii.eqb c sep then EmptyString :: cur :: rest
          else String c cur :: rest
      | [] => [String c EmptyString]
      end
  end.

(** [s.endsWith(suffix)] *)
Fixpoint endsWith (s suffix : string) : bool :=
  String.eqb s suffix
  || match s with
     | EmptyString => false
     | String _ s' => endsWith s' suffix
     end.

(** [s.slice(0, n)] *)
Definition slice0 (s : string) (n : Z) : string :=
  if n <? 0 then substring 0 (Z.to_nat (Z.max 0 (Text.len s + n))) s
  else substring 0 (Z.to_nat n) s.

(** [a || b || c] on optional strings, the last one a literal *)
Definition firstTruthy (a b : option string) (c : string) : string :=
  if truthy a then nullish a "" else if truthy b then nullish b "" else c.

(** [Map<string, V>] in insertion order *)
Fixpoint mapGet {V} (m : list (string * V)) (k : string) : option V :=
  match m with
  | [] => None
  | (k', v) :: m' => if String.eqb k' k then Some v else mapGet m' k
  end.

Fixpoint mapSet {V} (m : list (string * V)) (k : string) (v : V)
    : list (string * V) :=
  match m with
  | [] => [(k, v)]
  | (k', v') :: m' =>
      if String.eqb k' k then (k', v) :: m' else (k', v') :: mapSet m' k v
  end.

Fixpoint mapDelete {V} (m : list (string * V)) (k : string) : list (string * V) :=
  match m with
  | [] => []
  | (k', v) :: m' => if String.eqb k' k then m' else (k', v) :: mapDelete m' k
  end.

(** [arr.slice(-n)]: the last [n] elements *)
Definition lastN {A} (n : nat) (l : list A) : list A :=
  skipn (List.length l - n) l.

(** *** [formatParamsSummary] (lines 276-310) *)

(** tool parameters, [Record<string, unknown>], in insertion order. Only
    strings are looked into: a nested object or an array counts here like
    any other value that is not a string. *)
Abbreviation Params := (list (string * JsValue)).

(** [params.k && typeof params.k === "string"]: a non-empty string *)
Definition stringParam (ps : Params) (k : string) : option string :=
  match mapGet ps k with
  | Some (JsString s) => if Text.nonempty s then Some s else None
  | _ => None
  end.

(** [Object.entries] of the parameters: array-index keys first, ascending *)
Definition paramEntries (ps : Params) : Params :=
  sort (fun a b => nullish (array_index (fst a)) 0 - nullish (array_index (fst b)) 0)
    (filter (fun kv => is_Some (array_index (fst kv))) ps)
  ++ filter (fun kv => array_index (fst kv) = None) ps.

(** [s.length > maxLen ? s.slice(0, maxLen) + "…" : s] *)
Definition clip (s : string) (maxLen : Z) : string :=
  if maxLen <? Text.len s then slice0 s maxLen +:+ "…" else s.

(** the fallback loop: the first parameter that is a non-empty string *)
Fixpoint firstStringParam (entries : Params) (maxLen : Z) : string :=
  match entries with
  | [] => ""
  | (k, JsString v) :: rest =>
      if Text.nonempty v then k +:+ "=`" +:+ clip v maxLen +:+ "`"
      else firstStringParam rest maxLen
  | _ :: rest => firstStringParam rest maxLen
  end.

Definition formatParamsSummary (params : Params) (maxLen : Z) : string :=
  match stringParam params "reason" with
  | Some r => "reason: " +:+ clip r maxLen
  | None =>
  match stringParam params "command" with
  | Some c => "`" +:+ clip c maxLen +:+ "`"
  | None =>
  match stringParam params "path" with
  | Some p => "`" +:+ p +:+ "`"
  | None =>
  match stringParam params "file_path" with
  | Some p => "`" +:+ p +:+ "`"
  | None =>
  match stringParam params "query" with
  | Some q => String Text.quote (slice0 q maxLen) +:+ String Text.quote ""
  | None =>
  match stringParam params "url" with
  | Some u => "`" +:+ slice0 u maxLen +:+ "`"
  | None => firstStringParam (paramEntries params) maxLen
  end end end end end end.

(** *** Activity tracking (lines 255-274 and 1132-1237) *)

(** [cfg.activity] *)
Record ActivityConfig : Type := mkActivityConfig
  { act_enabled : option bool;
    act_maxRecent : option Z;
    act_excludeTools : option (list string) }.

Definition activityEnabled (a : option ActivityConfig) : bool :=
  negb (bool_decide (a ≫= act_enabled = Some false)).

Definition maxRecentTools (a : option ActivityConfig) : Z :=
  nullish (a ≫= act_maxRecent) 10.

Definition excludeTools (a : option ActivityConfig) : list string :=
  nullish (a ≫= act_excludeTools)
    [ "progress_briefing_report"; "progress_briefing_status";
      "progress_briefing_agents"; "progress_briefing_reset" ].

(** [type ActiveToolCall] *)
Record ActiveToolCall : Type := mkActiveToolCall
  { a_toolName : string;
    a_params : Params;
    a_sessionKey : option string;
    a_agentId : option string;
    a_startedAt : Z }.

(** [type RecentToolCall]; [result] and [error] are always [undefined] *)
Record RecentToolCall : Type := mkRecentToolCall
  { r_toolName : string;
    r_params : Params;
    r_sessionKey : option string;
    r_agentId : option string;
    r_startedAt : Z;
    r_endedAt : Z;
    r_durationMs : Z }.

(** an entry of [AgentActivity.recentTools] *)
Record ToolStamp : Type := mkToolStamp
  { ts_name : string; ts_paramsSummary : string; ts_timestamp : Z }.

(** [type AgentActivity] *)
Record AgentActivity : Type := mkAgentActivity
  { lastToolAt : Z;
    lastToolName : string;
    lastParamsSummary : string;
    agentRecentTools : list ToolStamp }.

(** the in-memory tracking state of [register]: [callSeq], [activeTools],
    [recentTools] and [agentActivity] *)
Record Activity : Type := mkActivity
  { callSeq : Z;
    activeTools : list (string * ActiveToolCall);
    recentTools : list RecentToolCall;
    agentActivity : list (string * AgentActivity) }.

Definition noActivity : Activity := mkActivity 0 [] [] [].

(** the [event] and [ctx] arguments of a hook *)
Record ToolEvent : Type := mkToolEvent
  { ev_toolName : option string; ev_params : option Params }.

Record HookContext : Type := mkHookContext
  { ctx_agentId : option string;
    ctx_sessionKey : option string;
    ctx_toolName : option string }.

(** [!toolName || excludeTools.has(toolName)] *)
Definition untracked (acfg : option ActivityConfig) (toolName : option string) : bool :=
  negb (truthy toolName)
  || bool_decide (nullish toolName "" ∈ excludeTools acfg).

(** the job id under which a hook files an agent: [agent:${agentId}:current] *)
Definition agentJobId (agentId : string) : string :=
  "agent:" +:+ agentId +:+ ":current".

(** the handler of [before_tool_call] *)
Definition before_tool_call (acfg : option ActivityConfig)
    (event : ToolEvent) (ctx : HookContext) (act : Activity) : M Activity :=
  if negb (activityEnabled acfg) then ret act
  else if untracked acfg (ev_toolName event) then ret act
  else
    let toolName := nullish (ev_toolName event) "" in
    let seq := callSeq act + 1 in
    let callId := Text.num seq in
    let agentId := firstTruthy (ctx_agentId ctx) (ctx_sessionKey ctx) "unknown" in
    let paramsSummary := formatParamsSummary (nullish (ev_params event) []) 60 in
    let existing :=
      nullish (mapGet (agentActivity act) agentId) (mkAgentActivity 0 "" "" []) in
    lastAt <- now ;;
    stampAt <- now ;;
    let agents :=
      mapSet (agentActivity act) agentId
        (mkAgentActivity lastAt toolName paramsSummary
           (lastN 5 (agentRecentTools existing
                     ++ [mkToolStamp toolName paramsSummary stampAt]))) in
    startedAt <- now ;;
    let active :=
      mapSet (activeTools act) callId
        (mkActiveToolCall toolName (nullish (ev_params event) [])
           (ctx_sessionKey ctx) (ctx_agentId ctx) startedAt) in
    logger Debug ("[progress-briefing] before_tool_call: " +:+ toolName
                  +:+ " (id=" +:+ callId +:+ ")") ;;
    patchAt <- now ;;
    upsertJob
      (mkJob (Some (agentJobId agentId)) (Some (agentId +:+ " (auto)"))
         (Some agentId) (Some running) None
         (Some ("Last tool: " +:+ toolName +:+ " " +:+ paramsSummary))
         None (Some patchAt) None) ;;
    ret (mkActivity seq active (recentTools act) agents).

(** the first (oldest) active call of a tool *)
Fixpoint findActive (m : list (string * ActiveToolCall)) (toolName : string)
    : option (string * ActiveToolCall) :=
  match m with
  | [] => None
  | (id, call) :: m' =>
      if String.eqb (a_toolName call) toolName then Some (id, call)
      else findActive m' toolName
  end.

(** [while (recentTools.length > maxRecentTools) recentTools.pop()], run for
    at most [fuel] iterations; [None] when it has not ended by then *)
Fixpoint popWhileOver {A} (fuel : nat) (maxRecent : Z) (l : list A)
    : option (list A) :=
  if maxRecent <? Z.of_nat (List.length l) then
    match fuel with
    | O => None
    | S fuel' => popWhileOver fuel' maxRecent (removelast l)
    end
  else Some l.

(** the handler of [tool_result_persist]; [None] when its trimming loop
    never ends. One iteration per element is all a loop that ends takes. *)
Definition tool_result_persist (acfg : option ActivityConfig)
    (event : ToolEvent) (ctx : HookContext) (act : Activity)
    : M (option Activity) :=
  if negb (activityEnabled acfg) then ret (Some act)
  else
    let toolName := orelse (ev_toolName event) (ctx_toolName ctx) in
    if untracked acfg toolName then ret (Some act)
    else
      let toolName := nullish toolName "" in
      logger Debug ("[progress-briefing] tool_result_persist: " +:+ toolName) ;;
      let matched := findActive (activeTools act) toolName in
      (* if (matchedId) *)
      let matchedId :=
        match matched with
        | Some (id, _) => if Text.nonempty id then Some id else None
        | None => None
        end in
      let active :=
        match matchedId with
        | Some id => mapDelete (activeTools act) id
        | None => activeTools act
        end in
      (match matchedId with
       | Some id => logger Debug ("[progress-briefing] removed active call: " +:+ id)
       | None => ret tt
       end) ;;
      startedAt <- match matched with
                   | Some (_, call) => ret (a_startedAt call)
                   | None => now
                   end ;;
      endedAt <- now ;;
      let entry :=
        mkRecentToolCall toolName
          (match matched with Some (_, call) => a_params call | None => [] end)
          (orelse (ctx_sessionKey ctx)
             (match matched with Some (_, call) => a_sessionKey call | None => None end))
          (orelse (ctx_agentId ctx)
             (match matched with Some (_, call) => a_agentId call | None => None end))
          startedAt endedAt (endedAt - startedAt) in
      let recent := entry :: recentTools act in
      ret (match popWhileOver (List.length recent) (maxRecentTools acfg) recent with
           | Some trimmed =>
               Some (mkActivity (callSeq act) active trimmed (agentActivity act))
           | None => None
           end).

(** *** Helpers of [progress_briefing_agents] (lines 870-887) *)

(** the filter on the jobs: [agent:...:current] *)
Definition isAgentCurrentJob (j : JobRecord) : bool :=
  match jobId j with
  | Some id => String.prefix "agent:" id && endsWith id ":current"
  | None => false
  end.

(** [extractAgentId] *)
Definition extractAgentId (jobId : string) : string :=
  let parts := split_on ":"%char jobId in
  if 3 <=? Z.of_nat (List.length parts) then nth 1 parts "" else "".

(* ===================================================================== *)
(** ** Vocabulary of the further properties                               *)
(* ===================================================================== *)

(** the lines of [jobs.jsonl], none when the file is missing *)
Definition jobLines (w : World) : list Line := nullish (w_jobs w) [].

(** a line that [upsertJob] wrote *)
Definition isParsed (l : Line) : Prop := exists j, l = Parsed j.

(** [jobs.jsonl] only grew: the old lines are still there, in place, and
    records were appended after them *)
Definition appendedOnly (w w' : World) : Prop :=
  exists added, jobLines w' = jobLines w ++ added /\ Forall isParsed added.

(** the numbers of a list ascend *)
Fixpoint ascending (l : list Z) : Prop :=
  match l with
  | [] => True
  | x :: rest => Forall (fun y => x <= y) rest /\ ascending rest
  end.

(** the sum of the counts of a per-agent map *)
Definition sumCounts (m : Counts) : Z := fold_right (fun kv acc => snd kv + acc) 0 m.

(** the header line of a scheduled briefing *)
Definition briefHeader (timestamp : string) : string :=
  "[progress-briefing] " +:+ timestamp.

(** a timestamp as [toLocaleString] prints it: not empty, on one line *)
Fixpoint oneLine (s : string) : bool :=
  match s with
  | EmptyString => true
  | String c s' => negb (Ascii.eqb c Text.LF) && oneLine s'
  end.

(** the text has no colon *)
Fixpoint colonFree (s : string) : bool :=
  match s with
  | EmptyString => true
  | String c s' => negb (Ascii.eqb c ":"%char) && colonFree s'
  end.

(** [a.createdAt], read as a number *)
Definition createdAtOf (j : JobRecord) : Z := nullish (createdAt j) 0.

(** a second job, and a store that holds it next to build-1 *)
Definition report_deploy : JobRecord :=
  mkJob (Some "deploy-2") (Some "Deploy") None (Some waiting) None None None None None.

Definition world_two_jobs : World :=
  afterUpsert report_deploy (afterUpsert report_running_10 world0).

(** every run of [m] takes a world to one related to it by [R] *)
Definition keeps (R : World -> World -> Prop) {A} (m : M A) : Prop :=
  forall w, R w (snd (m w)).

(** the messages delivered to Discord are the same *)
Definition sameDiscord (w w' : World) : Prop := w_discord w' = w_discord w.

(** the tailer starts over: another file than last time, or a file shorter
    than the cursor *)
Definition rotated (path content : string) (st : State) : bool :=
  bool_decide (logPath (observe st) ≠ path)
  || (Text.len content <? pos (observe st)).

(** observation of [gwLog] with a negative byte cap *)
Definition cfg_negative_cap : Config :=
  mkConfig None None None None
    (Some (mkObserveConfig (Some true) None (Some gwLog) (Some (-1)) None None None
             None))
    None.

(** the counts of a tally are consistent with [k] scanned lines: per kind,
    the errors attributed to agents are at most the errors counted, and
    those are at most [k] *)
Definition countsWithin (k : Z) (t : Tally) : Prop :=
  (0 <= sumCounts (agents401 t) <= count401 t /\ count401 t <= k)
  /\ (0 <= sumCounts (agents405 t) <= count405 t /\ count405 t <= k)
  /\ (0 <= sumCounts (agents429 t) <= count429 t /\ count429 t <= k)
  /\ (0 <= sumCounts (agents5xx t) <= count5xx t /\ count5xx t <= k)
  /\ (0 <= sumCounts (agentsExecutorFailed t) <= countExecutorFailed t
      /\ countExecutorFailed t <= k)
  /\ 0 <= countExecFailed t <= k
  /\ 0 <= countPluginLoadFailed t <= k.

(** every counted error of the tally is attributed to an agent *)
Definition fullyAttributed (t : Tally) : Prop :=
  sumCounts (agents401 t) = count401 t
  /\ sumCounts (agents405 t) = count405 t
  /\ sumCounts (agents429 t) = count429 t
  /\ sumCounts (agents5xx t) = count5xx t
  /\ sumCounts (agentsExecutorFailed t) = countExecutorFailed t.

(** the line matches no exclude pattern *)
Definition notExcluded (exclude : list Regex.RegExp) (l : string) : bool :=
  negb (existsb (fun r => Regex.test r l) exclude).

(** a world in which a briefing with this header and body was posted last *)
Definition world_posted : World :=
  with_state
    (set_lastBrief 1700000000000
       (briefHeader "1/1/2026, 9:00:00 AM" +:+ String Text.LF "(no activity)"))
    world0.

(** some parameter is a string that is not empty *)
Definition hasStringParam (ps : Params) : Prop :=
  exists k s, (k, JsString s) ∈ ps /\ s <> "".

(** the state a new process has after [loadState] read the snapshot [s] *)
Definition restored (s : State) : State :=
  mkState (lastBriefAt s) (lastNoMsgEscalationAt s)
    (Some (nullish (lastBriefContent s) ""))
    (observe s) (observeEscalation s) (observeLast s).

(** a shell call by agent main, and the context the host passes with it *)
Definition ev_exec : ToolEvent :=
  mkToolEvent (Some "exec") (Some [("command", JsString "npm test")]).

Definition ctx_main : HookContext :=
  mkHookContext (Some "main") (Some "agent:main:discord") None.

(* ===================================================================== *)
(** * Properties                                                          *)
(* ===================================================================== *)

(** ** Running monadic code *)

(** unfold the monad operations in the goal *)
Ltac run_m :=
  repeat progress
    (cbv beta iota delta
       [bind ret get modify modifyState getState now logger saveState throw try_catch];
     cbn [negb andb orb fst snd
          w_state w_jobs w_stateFile w_logs w_clock w_reads w_dayPath
          w_localeString w_toolLines w_logger w_discordPost w_discord
          with_state with_jobs with_stateFile with_reads with_logger with_discord]).

Lemma bind_ok {A B} (m : M A) (f : A -> M B) w a w' :
  m w = (Ok a, w') -> bind m f w = f a w'.
Proof. intros H. unfold bind. by rewrite H. Qed.

Lemma bind_throw {A B} (m : M A) (f : A -> M B) w e w' :
  m w = (Throw e, w') -> bind m f w = (Throw e, w').
Proof. intros H. unfold bind. by rewrite H. Qed.

Lemma try_catch_ok {A} (m : M A) h w a w' :
  m w = (Ok a, w') -> try_catch m h w = (Ok a, w').
Proof. intros H. unfold try_catch. by rewrite H. Qed.

Lemma try_catch_throw {A} (m : M A) h w e w' :
  m w = (Throw e, w') -> try_catch m h w = h e w'.
Proof. intros H. unfold try_catch. by rewrite H. Qed.

(** ** The stable sort is a permutation *)

Lemma sort_insert_perm {A} (cmp : A -> A -> Z) x l :
  sort_insert cmp x l ≡ₚ x :: l.
Proof.
  induction l as [|y l IH]; simpl; [done|].
  destruct (0 <? cmp y x); [done|].
  rewrite IH. apply Permutation_swap.
Qed.

Lemma sort_perm {A} (cmp : A -> A -> Z) l : sort cmp l ≡ₚ l.
Proof.
  unfold sort.
  assert (G : forall acc, fold_left (fun acc x => sort_insert cmp x acc) l acc ≡ₚ acc ++ l).
  { induction l as [|x l IH]; intros acc; simpl.
    - by rewrite app_nil_r.
    - rewrite IH, sort_insert_perm. simpl. apply Permutation_middle. }
  apply G.
Qed.

(** ** The latest-per-jobId map *)

Lemma jget_map_set m k v k' :
  jget (map_set m k v) k' = if String.eqb k k' then Some v else jget m k'.
Proof.
  induction m as [|[k0 v0] m IH]; simpl.
  - done.
  - destruct (String.eqb_spec k0 k) as [->|Hne]; simpl.
    + destruct (String.eqb_spec k k'); done.
    + rewrite IH. destruct (String.eqb_spec k0 k') as [->|]; [|done].
      destruct (String.eqb_spec k k'); congruence.
Qed.

Lemma map_set_keys m k v :
  map fst (map_set m k v) = if bool_decide (k ∈ map fst m) then map fst m
                            else map fst m ++ [k].
Proof.
  induction m as [|[k0 v0] m IH]; simpl; [done|].
  destruct (String.eqb_spec k0 k) as [->|Hne]; simpl.
  - rewrite bool_decide_eq_true_2; [done | set_solver].
  - rewrite IH. destruct (decide (k ∈ map fst m)) as [Hin|Hin].
    + rewrite !bool_decide_eq_true_2; [done | set_solver | done].
    + rewrite !bool_decide_eq_false_2; [done | set_solver | done].
Qed.

Lemma map_set_NoDup m k v : NoDup (map fst m) -> NoDup (map fst (map_set m k v)).
Proof.
  intros H. rewrite map_set_keys. case_bool_decide; [done|].
  apply NoDup_app. split_and!; [done | set_solver | apply NoDup_singleton].
Qed.

Lemma jget_elem_of m k v : NoDup (map fst m) -> (k, v) ∈ m <-> jget m k = Some v.
Proof.
  induction m as [|[k0 v0] m IH]; simpl; intros Hnd.
  - split; [by intros ?%elem_of_nil | done].
  - apply NoDup_cons in Hnd as [Hk0 Hnd].
    destruct (String.eqb_spec k0 k) as [->|Hne].
    + split.
      * intros [Heq|Hin]%elem_of_cons; [congruence|].
        exfalso. apply Hk0. apply list_elem_of_fmap. by exists (k, v).
      * intros [= ->]. left.
    + rewrite <- IH by done. split.
      * intros [Heq|Hin]%elem_of_cons; [congruence | done].
      * intros Hin. by right.
Qed.

Lemma latestPerJobId_spec js :
  NoDup (map fst (latestPerJobId js))
  /\ forall k, jget (latestPerJobId js) k = lastJob k js.
Proof.
  unfold latestPerJobId.
  assert (G : forall m, NoDup (map fst m) ->
    let r := fold_left (fun m j => map_set m (nullish (jobId j) "") j) js m in
    NoDup (map fst r)
    /\ forall k, jget r k = match lastJob k js with Some j => Some j | None => jget m k end).
  { induction js as [|j js IH]; intros m Hm; simpl.
    - done.
    - destruct (IH (map_set m (nullish (jobId j) "") j)) as [Hnd Hget];
        [by apply map_set_NoDup|].
      split; [done|]. intros k. rewrite Hget.
      destruct (lastJob k js); [done|]. rewrite jget_map_set.
      by destruct (String.eqb _ k). }
  destruct (G [] (NoDup_nil_2)) as [Hnd Hget]. split; [done|].
  intros k. rewrite Hget. by destruct (lastJob k js).
Qed.

Lemma lastJob_key k js j : lastJob k js = Some j -> nullish (jobId j) "" = k.
Proof.
  induction js as [|j0 js IH]; simpl; [done|].
  destruct (lastJob k js); [by intros [= ->]; apply IH|].
  destruct (String.eqb_spec (nullish (jobId j0) "") k); [by intros [= <-] | done].
Qed.

Lemma lastJob_elem_of k js j : lastJob k js = Some j -> j ∈ js.
Proof.
  induction js as [|j0 js IH]; simpl; [done|].
  destruct (lastJob k js).
  - intros [= ->]. right. by apply IH.
  - destruct (String.eqb (nullish (jobId j0) "") k); [|done].
    intros [= <-]. left.
Qed.

Lemma lastJob_app k js j :
  lastJob k (js ++ [j]) =
  if String.eqb (nullish (jobId j) "") k then Some j else lastJob k js.
Proof.
  induction js as [|j0 js IH]; simpl.
  - done.
  - rewrite IH. destruct (String.eqb (nullish (jobId j) "") k); [done|].
    done.
Qed.

(** ** Well-formed lines *)

Lemma parseJobs_nonblank lines :
  parseJobs (filter (fun l => nonblank l = true) lines) = parseJobs lines.
Proof.
  induction lines as [|l lines IH]; [done|].
  rewrite filter_cons. destruct l; simpl; rewrite ?IH; try done.
  all: case_decide; simpl; rewrite ?IH; done.
Qed.


Lemma parseJobs_app l1 l2 : parseJobs (l1 ++ l2) = parseJobs l1 ++ parseJobs l2.
Proof.
  induction l1 as [|l l1 IH]; simpl; [done|].
  destruct (safeJsonParse l) as [j|]; [|done].
  destruct (truthy (jobId j)); simpl; by rewrite IH.
Qed.

Lemma parseJobs_truthy lines j : j ∈ parseJobs lines -> truthy (jobId j) = true.
Proof.
  induction lines as [|l lines IH]; simpl; [by intros ?%elem_of_nil|].
  destruct (safeJsonParse l) as [j0|]; [|done].
  destruct (truthy (jobId j0)) eqn:E; [|done].
  intros [->|Hin]%elem_of_cons; [done | by apply IH].
Qed.

Lemma truthy_Some id : truthy (Some id) = Text.nonempty id.
Proof. done. Qed.

Lemma truthy_inv o : truthy o = true -> exists id, o = Some id /\ Text.nonempty id = true.
Proof. destruct o as [id|]; [|done]. intros H. by exists id. Qed.

Lemma lastJob_parseJobs id lines :
  Text.nonempty id = true -> lastJob id (parseJobs lines) = lastWrite id lines.
Proof.
  intros Hid. induction lines as [|l lines IH]; simpl; [done|].
  rewrite <- IH. destruct l as [| | |j]; simpl; try by destruct (lastJob id _).
  destruct (jobId j) as [s|] eqn:Ej; simpl.
  - destruct (Text.nonempty s) eqn:Es; simpl.
    + rewrite Ej. simpl. destruct (lastJob id (parseJobs lines)); [done|].
      destruct (String.eqb_spec s id) as [->|Hne].
      * by rewrite bool_decide_eq_true_2.
      * rewrite bool_decide_eq_false_2; [done | congruence].
    + destruct (lastJob id (parseJobs lines)); [done|].
      rewrite bool_decide_eq_false_2; [done|].
      intros [= ->]. congruence.
  - by destruct (lastJob id (parseJobs lines)).
Qed.

Lemma lastWrite_jobId id lines j : lastWrite id lines = Some j -> jobId j = Some id.
Proof.
  induction lines as [|l lines IH]; simpl; [done|].
  destruct (lastWrite id lines); [by intros [= ->]; apply IH|].
  destruct l as [| | |j0]; try done.
  case_bool_decide; [by intros [= <-] | done].
Qed.

(** the records of [reduceLines]: one per job id, the last line written *)
Lemma reduceLines_elem_of lines j :
  j ∈ reduceLines lines <->
  exists id, Text.nonempty id = true /\ lastWrite id lines = Some j.
Proof.
  unfold reduceLines. rewrite sort_perm, parseJobs_nonblank.
  destruct (latestPerJobId_spec (parseJobs lines)) as [Hnd Hget].
  rewrite list_elem_of_fmap. split.
  - intros [[k v] [-> Hin]]. simpl.
    apply (jget_elem_of _ _ _ Hnd) in Hin. rewrite Hget in Hin.
    pose proof (lastJob_key _ _ _ Hin) as Hk.
    pose proof (parseJobs_truthy _ _ (lastJob_elem_of _ _ _ Hin)) as Ht.
    apply truthy_inv in Ht as (id & Hid & Hne). rewrite Hid in Hk. simpl in Hk. subst k.
    exists id. split; [done|]. by rewrite <- lastJob_parseJobs.
  - intros (id & Hne & Hlast). exists (id, j). split; [done|].
    apply (jget_elem_of _ _ _ Hnd). rewrite Hget. by rewrite lastJob_parseJobs.
Qed.

Lemma reduceLines_NoDup lines : NoDup (map jobId (reduceLines lines)).
Proof.
  unfold reduceLines. rewrite sort_perm, parseJobs_nonblank.
  destruct (latestPerJobId_spec (parseJobs lines)) as [Hnd Hget].
  assert (E : map jobId (map snd (latestPerJobId (parseJobs lines)))
              = map Some (map fst (latestPerJobId (parseJobs lines)))).
  { rewrite !map_map. apply map_ext_in. intros [k v] Hin%list_elem_of_In. simpl.
    apply (jget_elem_of _ _ _ Hnd) in Hin. rewrite Hget in Hin.
    pose proof (lastJob_key _ _ _ Hin) as Hk.
    pose proof (parseJobs_truthy _ _ (lastJob_elem_of _ _ _ Hin)) as Ht.
    apply truthy_inv in Ht as (id & Hid & Hne). rewrite Hid in Hk |- *.
    simpl in Hk. by subst. }
  rewrite E. apply (NoDup_fmap_2 Some). done.
Qed.

Lemma findJob_unique id jobs j :
  NoDup (map jobId jobs) -> j ∈ jobs -> jobId j = id -> findJob id jobs = Some j.
Proof.
  induction jobs as [|j0 jobs IH]; simpl; intros Hnd Hin Hid.
  - by apply elem_of_nil in Hin.
  - apply NoDup_cons in Hnd as [Hj0 Hnd]. case_bool_decide as Hd.
    + apply elem_of_cons in Hin as [->|Hin]; [done|].
      exfalso. apply Hj0. apply list_elem_of_fmap. exists j. split; [congruence | done].
    + apply elem_of_cons in Hin as [->|Hin]; [done|]. by apply IH.
Qed.

Lemma findJob_reduceLines id lines :
  Text.nonempty id = true ->
  findJob (Some id) (reduceLines lines) = lastWrite id lines.
Proof.
  intros Hid. destruct (lastWrite id lines) as [j|] eqn:E.
  - apply findJob_unique; [apply reduceLines_NoDup | | by eapply lastWrite_jobId].
    apply reduceLines_elem_of. by exists id.
  - unfold findJob. destruct (List.find _ _) as [j|] eqn:F; [|done].
    apply find_some in F as [Hin%list_elem_of_In Hj].
    apply bool_decide_eq_true_1 in Hj.
    apply reduceLines_elem_of in Hin as (id' & _ & Hl).
    pose proof (lastWrite_jobId _ _ _ Hl). congruence.
Qed.

(** ** The current state of the store *)

Lemma readJobs_run w : readJobs w = (Ok (storedJobs w), w).
Proof. unfold readJobs, storedJobs, bind, get, ret. by destruct (w_jobs w). Qed.

Lemma upsertJob_run patch w :
  upsertJob patch w = (Ok (upsertNext patch w), afterUpsert patch w).
Proof.
  unfold upsertJob. rewrite (bind_ok _ _ _ _ _ (readJobs_run w)).
  unfold afterUpsert, upsertNext, upsertReads, currentRecord, findJob.
  destruct (List.find _ (storedJobs w)) as [prev|]; reflexivity.
Qed.

Lemma lastWrite_app id lines l :
  lastWrite id (lines ++ [l]) =
  match l with
  | Parsed j => if bool_decide (jobId j = Some id) then Some j else lastWrite id lines
  | _ => lastWrite id lines
  end.
Proof.
  induction lines as [|l0 lines IH]; simpl.
  - done.
  - rewrite IH. destruct l as [| | |j]; try done. by case_bool_decide.
Qed.

Lemma upsertNext_jobId patch w id :
  jobId patch = Some id -> jobId (upsertNext patch w) = Some id.
Proof.
  intros H. unfold upsertNext.
  destruct (currentRecord _ w); simpl; by rewrite H.
Qed.

Lemma currentRecord_afterUpsert patch w id :
  Text.nonempty id = true -> jobId patch = Some id ->
  currentRecord (Some id) (afterUpsert patch w) = Some (upsertNext patch w).
Proof.
  intros Hne Hid. unfold currentRecord, storedJobs, afterUpsert. simpl.
  rewrite findJob_reduceLines by done. rewrite lastWrite_app.
  rewrite bool_decide_eq_true_2; [done | by apply upsertNext_jobId].
Qed.

Lemma currentRecord_afterUpsert_other patch w id id' :
  Text.nonempty id' = true -> jobId patch = Some id -> id' <> id ->
  currentRecord (Some id') (afterUpsert patch w) = currentRecord (Some id') w.
Proof.
  intros Hne Hid Hdiff. unfold currentRecord, storedJobs, afterUpsert. simpl.
  rewrite findJob_reduceLines by done. rewrite lastWrite_app.
  rewrite bool_decide_eq_false_2.
  - destruct (w_jobs w) as [ls|]; simpl; [by rewrite findJob_reduceLines | done].
  - rewrite (upsertNext_jobId _ _ _ Hid). congruence.
Qed.

Lemma upsertAll_cons p ps w :
  upsertAll (p :: ps) w = upsertAll ps (afterUpsert p w).
Proof.
  unfold upsertAll. simpl. unfold bind at 1. unfold bind at 1.
  by rewrite upsertJob_run.
Qed.

Lemma upsertAll_total ps : forall w, exists w', upsertAll ps w = (Ok tt, w').
Proof.
  induction ps as [|p ps IH]; intros w; [by eexists|].
  rewrite upsertAll_cons. apply IH.
Qed.

(** only a non-empty job id has a current record *)
Lemma currentRecord_nonempty id w r :
  currentRecord (Some id) w = Some r -> Text.nonempty id = true.
Proof.
  unfold currentRecord, findJob, storedJobs. intros H.
  apply find_some in H as [Hin%list_elem_of_In Hid].
  apply bool_decide_eq_true_1 in Hid.
  destruct (w_jobs w) as [lines|]; [|by apply elem_of_nil in Hin].
  apply reduceLines_elem_of in Hin as (id' & Hne & Hl).
  pose proof (lastWrite_jobId _ _ _ Hl). congruence.
Qed.

Lemma upsertAll_keeps_createdAt id ps : forall w r,
  Text.nonempty id = true ->
  Forall (fun q => jobId q = Some id /\ createdAt q = None) ps ->
  currentRecord (Some id) w = Some r ->
  exists r' w', upsertAll ps w = (Ok tt, w')
    /\ currentRecord (Some id) w' = Some r' /\ createdAt r' = createdAt r.
Proof.
  induction ps as [|p ps IH]; intros w r Hne Hall Hcur.
  - exists r, w. done.
  - apply Forall_cons in Hall as [[Hid Hc] Hall].
    rewrite upsertAll_cons.
    destruct (IH (afterUpsert p w) (upsertNext p w) Hne Hall) as (r' & w' & Hrun & Hcur' & Hcr).
    { by apply currentRecord_afterUpsert. }
    exists r', w'. split_and!; [done | done |].
    rewrite Hcr. unfold upsertNext. rewrite Hid, Hcur. simpl. by rewrite Hc.
Qed.

(** ** Event store: reading a corrupted log *)



(** ** Job reconciler: [createdAt] and partial patches *)

(** C6. createdAt immutability: after any non-empty sequence of [upsertJob]
    calls for one job id that had no record before the first call, with
    patches that do not supply [createdAt], the current record of that id has
    as [createdAt] the first clock reading of the first call, however many
    calls followed; the record exists whenever the id is not the empty
    string. *)
Theorem createdAt_is_first_call_timestamp
    (id : string) (p : JobRecord) (ps : list JobRecord) (w : World) :
  Forall (fun q => jobId q = Some id /\ createdAt q = None) (p :: ps) ->
  currentRecord (Some id) w = None ->
  exists w',
    upsertAll (p :: ps) w = (Ok tt, w')
    /\ (Text.nonempty id = true -> is_Some (currentRecord (Some id) w'))
    /\ (forall r, currentRecord (Some id) w' = Some r ->
          createdAt r = Some (w_clock w (w_reads w))).
Proof.
  intros Hall Hcur.
  destruct (upsertAll_total (p :: ps) w) as (w' & Hrun).
  exists w'. split; [exact Hrun|].
  assert (G : Text.nonempty id = true ->
              exists r, currentRecord (Some id) w' = Some r
                        /\ createdAt r = Some (w_clock w (w_reads w))).
  { intros Hne. apply Forall_cons in Hall as [[Hid Hc] Hall].
    rewrite upsertAll_cons in Hrun.
    destruct (upsertAll_keeps_createdAt id ps (afterUpsert p w) (upsertNext p w) Hne Hall)
      as (r & w2 & Hrun2 & Hcur' & Hcr).
    { by apply currentRecord_afterUpsert. }
    rewrite Hrun2 in Hrun. injection Hrun as <-.
    exists r. split; [done|].
    rewrite Hcr. unfold upsertNext. rewrite Hid, Hcur. simpl. by rewrite Hc. }
  split.
  - intros Hne. destruct (G Hne) as (r & Hr & _). by exists r.
  - intros r Hr. destruct (G (currentRecord_nonempty _ _ _ Hr)) as (r' & Hr' & Hc).
    congruence.
Qed.

Lemma upsertNext_prop patch w f :
  f <> FupdatedAt -> f <> FlastActivityAt ->
  prop f (upsertNext patch w) =
  match prop f patch with
  | Some v => Some v
  | None =>
      match currentRecord (jobId patch) w with
      | Some prev => prop f prev
      | None =>
          prop f (freshJob (jobId patch) (w_clock w (w_reads w)) 0 0)
      end
  end.
Proof.
  intros H1 H2. unfold upsertNext.
  destruct (currentRecord (jobId patch) w) as [prev|];
    destruct patch as [pid pt po ps pp pd pc pu pa];
    destruct f; try congruence; cbn [prop spread stamps freshJob jobId title owner
      state progress detail createdAt updatedAt lastActivityAt orelse fmap option_fmap option_map].
  all: first [ by destruct pid | by destruct pt | by destruct po | by destruct ps
             | by destruct pp | by destruct pd | by destruct pc ].
Qed.

(** C7. Partial-patch frame condition: an [upsertJob] on a job that has a
    current record yields a current record in which every property other
    than the two refreshed timestamps ([updatedAt], [lastActivityAt]) has the
    supplied value if the patch supplies one and its prior value otherwise;
    and reporting build-1 with state running and progress 10, then build-1
    with progress 90 and no state, yields state running and progress 90. *)
Theorem upsert_keeps_unsupplied_fields :
  (forall (id : string) (patch prev : JobRecord) (w : World),
      jobId patch = Some id ->
      currentRecord (Some id) w = Some prev ->
      exists next w',
        upsertJob patch w = (Ok next, w')
        /\ currentRecord (Some id) w' = Some next
        /\ forall f, f <> FupdatedAt -> f <> FlastActivityAt ->
             prop f next =
             match prop f patch with Some v => Some v | None => prop f prev end)
  /\ (forall w : World,
        exists r w',
          upsertAll [report_running_10; report_90] w = (Ok tt, w')
          /\ currentRecord (Some "build-1") w' = Some r
          /\ state r = Some running /\ progress r = Some 90).
Proof.
  split.
  - intros id patch prev w Hid Hcur.
    pose proof (currentRecord_nonempty _ _ _ Hcur) as Hne.
    exists (upsertNext patch w), (afterUpsert patch w). split_and!.
    + apply upsertJob_run.
    + by apply currentRecord_afterUpsert.
    + intros f H1 H2. rewrite upsertNext_prop by done.
      destruct (prop f patch); [done|]. by rewrite Hid, Hcur.
  - intros w. rewrite !upsertAll_cons. simpl.
    set (w1 := afterUpsert report_running_10 w).
    exists (upsertNext report_90 w1), (afterUpsert report_90 w1).
    split_and!; [done | by apply currentRecord_afterUpsert | |].
    + pose proof (upsertNext_prop report_90 w1 Fstate) as H. simpl in H.
      unfold w1 in H at 2.
      rewrite (currentRecord_afterUpsert report_running_10 w "build-1") in H by done.
      specialize (H ltac:(done) ltac:(done)).
      pose proof (upsertNext_prop report_running_10 w Fstate ltac:(done) ltac:(done)) as H'.
      simpl in H'. rewrite H' in H. simpl in H.
      destruct (state (upsertNext report_90 w1)); simpl in H; congruence.
    + pose proof (upsertNext_prop report_90 w1 Fprogress ltac:(done) ltac:(done)) as H.
      simpl in H. destruct (progress (upsertNext report_90 w1)); simpl in H; congruence.
Qed.

(** ** Reset tool *)

(** C8. Reset confirmation gate: with the plugin enabled, a reset whose
    [confirm] is not exactly [true] returns the refusal and leaves the whole
    world (jobs, state, state file) unchanged; with [confirm] exactly [true]
    it reports success, the in-memory and saved state are the reset state,
    and reading the store then yields no job. *)
Theorem reset_needs_exact_confirmation (cfg : Config) (confirm : JsValue) (w : World) :
  enabled cfg = true ->
  (confirm <> JsBool true ->
     progress_briefing_reset cfg confirm w = (Ok msg_refused, w))
  /\ (confirm = JsBool true ->
        exists w',
          progress_briefing_reset cfg confirm w = (Ok msg_cleared, w')
          /\ readJobs w' = (Ok [], w')
          /\ w_state w' = resetState
          /\ w_stateFile w' = Some resetState).
Proof.
  intros Hen. unfold progress_briefing_reset. rewrite Hen. simpl. split.
  - intros Hc. destruct confirm as [| | [|] | |]; done.
  - intros ->. simpl. eexists. split; [reflexivity|].
    split_and!; [|done|done].
    rewrite readJobs_run. unfold storedJobs. simpl. by destruct (w_jobs w).
Qed.

(** ** Concrete worlds for the examples *)

Lemma createdAt_is_first_call_timestamp_witness :
  exists w',
    upsertAll [report_running_10; report_90] world0 = (Ok tt, w')
    /\ (Text.nonempty "build-1" = true -> is_Some (currentRecord (Some "build-1") w'))
    /\ (forall r, currentRecord (Some "build-1") w' = Some r ->
          createdAt r = Some (w_clock world0 (w_reads world0))).
Proof.
  apply (createdAt_is_first_call_timestamp "build-1" report_running_10 [report_90] world0).
  - repeat constructor.
  - vm_compute. reflexivity.
Defined.

Lemma upsert_keeps_unsupplied_fields_witness :
  exists next w',
    upsertJob report_90 (afterUpsert report_running_10 world0) = (Ok next, w')
    /\ currentRecord (Some "build-1") w' = Some next
    /\ forall f, f <> FupdatedAt -> f <> FlastActivityAt ->
         prop f next =
         match prop f report_90 with
         | Some v => Some v
         | None => prop f (upsertNext report_running_10 world0)
         end.
Proof.
  apply (proj1 upsert_keeps_unsupplied_fields "build-1" report_90
           (upsertNext report_running_10 world0)
           (afterUpsert report_running_10 world0)).
  - reflexivity.
  - vm_compute. reflexivity.
Defined.

Lemma reset_needs_exact_confirmation_witness :
  (JsString "true" <> JsBool true ->
     progress_briefing_reset (mkConfig None None None None None None)
       (JsString "true") world0 = (Ok msg_refused, world0))
  /\ (JsString "true" = JsBool true ->
        exists w',
          progress_briefing_reset (mkConfig None None None None None None)
            (JsString "true") world0 = (Ok msg_cleared, w')
          /\ readJobs w' = (Ok [], w')
          /\ w_state w' = resetState
          /\ w_stateFile w' = Some resetState).
Proof.
  apply (reset_needs_exact_confirmation (mkConfig None None None None None None)
           (JsString "true") world0).
  reflexivity.
Defined.

(** ** Log tailer *)

Lemma substring_length s : forall n m,
  (n + m <= String.length s)%nat -> String.length (substring n m s) = m.
Proof.
  induction s as [|c s IH]; intros n m H; simpl in *.
  - assert (n = 0%nat) by lia. assert (m = 0%nat) by lia. by subst.
  - destruct n as [|n]; destruct m as [|m]; simpl; try done.
    + f_equal. apply IH. lia.
    + apply IH. lia.
    + apply IH. lia.
Qed.

(** C2, as stated, fails: with a 4-byte cap on a 10-byte file and the cursor
    at 0 the tailer reads "6789", the last four bytes, not the four bytes at
    the cursor. *)
Lemma capped_read_skips_to_tail :
  logPath (observe (w_state world_tail)) = gwLog
  /\ pos (observe (w_state world_tail)) <= Text.len "0123456789"
  /\ fst (readChunk gwLog "0123456789" 4 world_tail) = Ok "6789"
  /\ ~ reads_from_cursor gwLog "0123456789" 4 world_tail.
Proof.
  split_and!; [reflexivity | by vm_compute | vm_compute; reflexivity |].
  intros (w' & Hrun & _).
  apply (f_equal fst) in Hrun. vm_compute in Hrun. discriminate Hrun.
Qed.

(** C2 (amended). Log tailer read step: when the file exists, the path is the
    stored one and [0 <= pos <= size] (with a non-negative cap), the tailer
    reads exactly [n = min(maxBytesPerTick, size - pos)] bytes, namely the
    last [n] bytes of the file (offset [size - n], which is [pos] exactly when
    the unread part fits the cap), and then sets [pos] to the size whatever
    [n] was. *)
Theorem tailer_reads_tail_window
    (path content : string) (maxBytes : Z) (w : World) :
  logPath (observe (w_state w)) = path ->
  0 <= pos (observe (w_state w)) <= Text.len content ->
  0 <= maxBytes ->
  let size := Text.len content in
  let p := pos (observe (w_state w)) in
  let n := Z.min maxBytes (size - p) in
  exists text w',
    readChunk path content maxBytes w = (Ok text, w')
    /\ text = Text.slice (size - n) n content
    /\ Text.len text = n
    /\ (size - p <= maxBytes -> text = Text.slice p n content)
    /\ pos (observe (w_state w')) = size
    /\ lastSize (observe (w_state w')) = size.
Proof.
  intros Hpath Hpos Hmax size p n.
  unfold readChunk, bind, getState, modifyState, modify, ret, throw.
  rewrite bool_decide_eq_false_2 by (intros H; by apply H).
  simpl. fold size p.
  assert ((size <? p) = false) as -> by (apply Z.ltb_ge; unfold p, size; lia).
  simpl. fold p.
  replace (Z.max 0 p) with p by lia.
  replace (Z.max 0 (size - p)) with (size - p) by lia.
  fold n.
  assert (Hn : 0 <= n <= size) by (unfold n, Text.len in *; lia).
  assert ((n <? 0) = false) as -> by (apply Z.ltb_ge; lia).
  replace (Z.max 0 (size - n)) with (size - n) by lia.
  eexists _, _. split; [reflexivity|]. simpl.
  split_and!; try done.
  - unfold Text.len, Text.slice. rewrite substring_length; [lia|].
    unfold size, Text.len in *. lia.
  - intros Hfit. replace n with (size - p) by lia. f_equal. lia.
Qed.

Lemma tailer_reads_tail_window_witness :
  exists text w',
    readChunk gwLog "0123456789" 4 world_tail = (Ok text, w')
    /\ text = Text.slice (10 - 4) 4 "0123456789"
    /\ Text.len text = 4
    /\ (10 - 0 <= 4 -> text = Text.slice 0 4 "0123456789")
    /\ pos (observe (w_state w')) = 10
    /\ lastSize (observe (w_state w')) = 10.
Proof.
  apply (tailer_reads_tail_window gwLog "0123456789" 4 world_tail).
  - vm_compute. reflexivity.
  - vm_compute. split; discriminate.
  - lia.
Defined.

(** ** Briefing scheduler: the header left out of the comparison *)

Lemma in_range_single c x : Regex.in_range c (x, x) = Ascii.eqb c x.
Proof.
  unfold Regex.in_range. simpl.
  destruct (Ascii.eqb c x) eqn:E.
  - apply Ascii.eqb_eq in E as ->. by rewrite Nat.leb_refl.
  - apply andb_false_iff.
    destruct (Nat.leb (nat_of_ascii x) (nat_of_ascii c)) eqn:E1; [|by left].
    destruct (Nat.leb (nat_of_ascii c) (nat_of_ascii x)) eqn:E2; [|by right].
    apply Nat.leb_le in E1, E2. apply Ascii.eqb_neq in E. exfalso. apply E.
    rewrite <- (ascii_nat_embedding c), <- (ascii_nat_embedding x). f_equal. lia.
Qed.

(** a pattern anchored at the start matches nowhere else *)
Lemma search_Bol_later r : forall s x,
  Regex.search false (Regex.Seq Regex.Bol r) (Some x) s = None.
Proof. induction s as [|y s IH]; intros x; simpl; [done | by rewrite IH]. Qed.

Lemma search_Bol_start r s :
  Regex.search false (Regex.Seq Regex.Bol r) None s
  = Regex.run false r None s None (fun _ t c => Some (Regex.mkMatch EmptyString t c)).
Proof.
  destruct s as [|y s]; simpl.
  - by destruct (Regex.run _ _ _ _ _ _).
  - destruct (Regex.run _ _ _ _ _ _); [done|]. by rewrite search_Bol_later.
Qed.

(** a literal matches exactly the texts it is a prefix of *)
Lemma run_lit_prefix {R} p : forall prev,
  p <> "" ->
  exists q, forall s cap (cont : option ascii -> string -> option string -> option R),
    Regex.run false (Regex.lit p) prev s cap cont
    = match afterPrefix p s with
      | Some rest => cont q rest cap
      | None => None
      end.
Proof.
  induction p as [|c p IH]; intros prev Hne; [done|].
  destruct p as [|d p].
  - exists (Some c). intros s cap cont. destruct s as [|x s]; simpl; [done|].
    unfold Regex.cls_match, Regex.cls_base.
    by destruct (Ascii.eqb_spec c x) as [<-|].
  - destruct (IH (Some c)) as [q Hq]; [done|].
    exists q. intros s cap cont.
    change (Regex.lit (String c (String d p)))
      with (Regex.Seq (Regex.One (Regex.Lit c)) (Regex.lit (String d p))).
    cbn [Regex.run]. destruct s as [|x s]; [done|].
    unfold Regex.cls_match, Regex.cls_base.
    cbn [afterPrefix]. destruct (Ascii.eqb_spec c x) as [<-|]; [apply Hq | done].
Qed.

(** the greedy run over a line stops at its line break, which is taken
    along when there is one *)
Lemma many_to_line_end s : forall prev,
  Regex.many false (Regex.NoneOf [(Text.LF, Text.LF)]) prev s
    (fun p t =>
       Regex.run false (Regex.Opt (Regex.One (Regex.Lit Text.LF))) p t None
         (fun _ t c => Some (Regex.mkMatch EmptyString t c)))
  = Some (Regex.mkMatch EmptyString
            (match snd (cutAtLF s) with String _ body => body | EmptyString => EmptyString end)
            None).
Proof.
  induction s as [|x s IH]; intros prev; [done|].
  cbn [Regex.many cutAtLF]. unfold Regex.cls_match, Regex.cls_base. cbn [existsb].
  rewrite in_range_single. destruct (Ascii.eqb x Text.LF) eqn:E.
  - apply Ascii.eqb_eq in E as ->. reflexivity.
  - cbn [orb negb snd]. by rewrite IH.
Qed.

(** The regular expression of the code takes off exactly what the
    specification calls the leading timestamp header. *)
Lemma withoutHeader_ignoringHeader text : withoutHeader text = ignoringHeader text.
Proof.
  unfold withoutHeader, Regex.remove_first, Regex.exec, rx_header, ignoringHeader.
  cbn [Regex.pattern Regex.ignoreCase Regex.rx Regex.seq].
  rewrite search_Bol_start.
  destruct (run_lit_prefix (R:=Regex.MatchResult) "[progress-briefing] " None)
    as [q Hq]; [done|].
  cbn [Regex.run]. rewrite Hq.
  destruct (afterPrefix "[progress-briefing] " text) as [rest|]; [|done].
  destruct rest as [|c rest]; [done|].
  cbn [cutAtLF]. unfold Regex.cls_match at 1. unfold Regex.cls_base. cbn [existsb].
  rewrite in_range_single. destruct (Ascii.eqb c Text.LF) eqn:E; [done|].
  cbn [orb negb fst snd]. rewrite many_to_line_end. cbn [Regex.before Regex.after].
  by destruct (snd (cutAtLF rest)).
Qed.

(** ** Briefing scheduler: the publish decision and its failure handling *)

Lemma publishDue_decide cfg text w :
  publishDue cfg text w <->
  shouldPost
    (pollEveryMs cfg <=? decisionTime w - lastBriefAt (w_state w))
    (negb (bool_decide
             (withoutHeader text
              = withoutHeader (nullish (lastBriefContent (w_state w)) ""))))
    (pending (observeEscalation (w_state w))) = true.
Proof.
  unfold publishDue, intervalElapsed, contentDiffers, escalationPending, shouldPost.
  rewrite !withoutHeader_ignoringHeader.
  rewrite orb_true_iff, andb_true_iff, negb_true_iff, bool_decide_eq_false.
  by rewrite Z.leb_le.
Qed.

Lemma postBrief_run cfg jobs text w :
  postBrief cfg jobs text w =
  (Ok tt,
   if shouldPost
        (pollEveryMs cfg <=? decisionTime w - lastBriefAt (w_state w))
        (negb (bool_decide
                 (withoutHeader text
                  = withoutHeader (nullish (lastBriefContent (w_state w)) ""))))
        (pending (observeEscalation (w_state w)))
   then if transportFails cfg w then afterFailedPost w else afterPost cfg text w
   else with_reads (2 + w_reads w)%nat w).
Proof.
  destruct w as [st jb sf lg ck rd dp ls tl lo up dc].
  unfold postBrief, decisionTime. run_m.
  destruct (shouldPost _ _ _); run_m; [|reflexivity].
  unfold sendBrief, transportFails, discordSendText, afterPost, afterFailedPost.
  fold (discordConfigured cfg).
  destruct (discordConfigured cfg); run_m.
  - destruct up as [|status statusText body|message]; run_m; [|reflexivity..].
    destruct (pending (observeEscalation st)); reflexivity.
  - destruct (pending (observeEscalation st)); reflexivity.
Qed.

Lemma try_catch_logged (body : M unit) (msg : string -> string) w :
  exists w', try_catch body (fun err => logger Error (msg err)) w = (Ok tt, w').
Proof.
  unfold try_catch. destruct (body w) as [[[]|e] w1]; by eexists.
Qed.

Lemma resolveLogPath_run cfg w :
  exists p w', resolveLogPath cfg w = (Ok p, w') /\ w_state w' = w_state w.
Proof.
  unfold resolveLogPath. destruct (observeCfg cfg obs_logPath); by eexists _, _.
Qed.

(** the observer never throws into the tick *)
Lemma observeFromGatewayLogs_total cfg w :
  exists w', observeFromGatewayLogs cfg w = (Ok tt, w').
Proof.
  unfold observeFromGatewayLogs. destruct (negb (obsEnabled cfg)); [by eexists|].
  destruct (resolveLogPath_run cfg w) as (p & w1 & Hp & _).
  rewrite (bind_ok _ _ _ _ _ Hp). apply try_catch_logged.
Qed.

(** rendering throws exactly when a stored record trips the bucket loop *)
Lemma renderBrief_run cfg w :
  exists wo,
    observeFromGatewayLogs cfg w = (Ok tt, wo)
    /\ renderBrief cfg w =
       (if existsb pushThrows (storedJobs wo)
        then Throw pushTypeError
        else Ok (storedJobs wo,
                 formatBrief (storedJobs wo)
                   (Some ("[progress-briefing] "
                          +:+ w_localeString wo (w_clock wo (w_reads wo))))
                   (w_toolLines wo)),
        with_reads (S (w_reads wo)) wo).
Proof.
  destruct (observeFromGatewayLogs_total cfg w) as (wo & Ho).
  exists wo. split; [done|]. unfold renderBrief.
  rewrite (bind_ok _ _ _ _ _ Ho). rewrite (bind_ok _ _ _ _ _ (readJobs_run wo)).
  destruct wo as [st jb sf lg ck rd dp ls tl lo up dc]. run_m.
  by destruct (existsb pushThrows _).
Qed.



Lemma afterFailedPost_postFailed w : postFailed w (afterFailedPost w).
Proof. by eexists. Qed.






(** C5. Latch consumption and failure atomicity: on a tick that attempts a
    publish, if the transport send fails then the plugin state (pending
    escalation, last-publish timestamp, last-published content) and the saved
    state file are unchanged, nothing is delivered and the failure is
    logged with the message of the error; if the publish succeeds then the
    pending flag is cleared, the last-publish timestamp and content are
    updated and the state is saved. *)
Theorem failed_publish_keeps_latch
    (cfg : Config) (jobs : list JobRecord) (text : string) (w : World) :
  publishDue cfg text w ->
  exists w',
    postBrief cfg jobs text w = (Ok tt, w')
    /\ (transportFails cfg w = true ->
          w_state w' = w_state w
          /\ w_stateFile w' = w_stateFile w
          /\ w_discord w' = w_discord w
          /\ postFailed w w')
    /\ (transportFails cfg w = false ->
          pending (observeEscalation (w_state w')) = false
          /\ lastBriefAt (w_state w') = w_clock w (2 + w_reads w)%nat
          /\ lastBriefContent (w_state w') = Some text
          /\ w_stateFile w' = Some (w_state w')
          /\ posted cfg text w w').
Proof.
  intros Hdue. apply publishDue_decide in Hdue.
  eexists. split; [apply postBrief_run|]. rewrite Hdue.
  destruct (transportFails cfg w); split; try done.
  - intros _. split_and!; try done. apply afterFailedPost_postFailed.
  - intros _. split_and!; try done. unfold afterPost. simpl.
    destruct (pending (observeEscalation (w_state w))) eqn:E; simpl; by rewrite ?E.
Qed.

Lemma failed_publish_keeps_latch_witness :
  exists w',
    postBrief cfg_discord_on [] "(no jobs)" world_pending_down = (Ok tt, w')
    /\ (transportFails cfg_discord_on world_pending_down = true ->
          w_state w' = w_state world_pending_down
          /\ w_stateFile w' = w_stateFile world_pending_down
          /\ w_discord w' = w_discord world_pending_down
          /\ postFailed world_pending_down w')
    /\ (transportFails cfg_discord_on world_pending_down = false ->
          pending (observeEscalation (w_state w')) = false
          /\ lastBriefAt (w_state w')
             = w_clock world_pending_down (2 + w_reads world_pending_down)%nat
          /\ lastBriefContent (w_state w') = Some "(no jobs)"
          /\ w_stateFile w' = Some (w_state w')
          /\ posted cfg_discord_on "(no jobs)" world_pending_down w').
Proof.
  apply (failed_publish_keeps_latch cfg_discord_on [] "(no jobs)" world_pending_down).
  right. reflexivity.
Defined.

(** ** Escalation: the offender search and the counters *)

Lemma Object_entries_perm {V} (o : list (string * V)) : Object_entries o ≡ₚ o.
Proof.
  unfold Object_entries. rewrite sort_perm.
  induction o as [|kv o IH]; [done|].
  rewrite !filter_cons. destruct (array_index (fst kv)) as [n|] eqn:E.
  - rewrite decide_True by (by eexists). rewrite decide_False by done.
    simpl. by rewrite IH.
  - rewrite decide_False by (by intros [? ?]). rewrite decide_True by done.
    rewrite <- Permutation_middle. by rewrite IH.
Qed.

Lemma Object_entries_elem_of {V} (o : list (string * V)) kv :
  kv ∈ Object_entries o <-> kv ∈ o.
Proof. by rewrite Object_entries_perm. Qed.

(** the search keeps the largest number seen, starting from 0, and passes
    over every text *)
Lemma findOffender_fold (l : ScopeCounters) : forall best,
  let r :=
    fold_left
      (fun best kv =>
         match snd kv with
         | CNum c => if snd best <? c then (fst kv, c) else best
         | CText _ => best
         end) l best in
  (r = best \/ (fst r, CNum (snd r)) ∈ l)
  /\ snd best <= snd r
  /\ forall a c, (a, CNum c) ∈ l -> c <= snd r.
Proof.
  induction l as [|[k v] l IH]; intros best; simpl.
  - split_and!; [by left | lia | intros a c Hin; by apply elem_of_nil in Hin].
  - destruct v as [c|txt]; simpl.
    + destruct (IH (if snd best <? c then (k, c) else best)) as (H1 & H2 & H3).
      destruct (Z.ltb_spec (snd best) c) as [Hlt|Hge]; simpl in H2.
      * split_and!.
        -- right. destruct H1 as [->|H1]; [left | by right].
        -- lia.
        -- intros a c' Hin. apply elem_of_cons in Hin as [Heq|Hin];
             [injection Heq as -> ->; lia | by apply (H3 a)].
      * split_and!.
        -- destruct H1 as [->|H1]; [by left | right; by right].
        -- done.
        -- intros a c' Hin. apply elem_of_cons in Hin as [Heq|Hin];
             [injection Heq as -> ->; lia | by apply (H3 a)].
    + destruct (IH best) as (H1 & H2 & H3). split_and!.
      * destruct H1 as [->|H1]; [by left | right; by right].
      * done.
      * intros a c' Hin. apply elem_of_cons in Hin as [Heq|Hin];
          [discriminate Heq | by apply (H3 a)].
Qed.

Lemma findOffender_spec (cs : ScopeCounters) :
  (findOffender cs = ("", 0)
   \/ (fst (findOffender cs), CNum (snd (findOffender cs))) ∈ cs)
  /\ 0 <= snd (findOffender cs)
  /\ forall a c, (a, CNum c) ∈ cs -> c <= snd (findOffender cs).
Proof.
  unfold findOffender.
  destruct (findOffender_fold (Object_entries cs) ("", 0)) as (H1 & H2 & H3).
  split_and!.
  - destruct H1 as [H1|H1]; [by left | right]. by apply Object_entries_elem_of.
  - done.
  - intros a c Hin. apply (H3 a c). by apply Object_entries_elem_of.
Qed.

(** with a positive threshold, the offender reaches it exactly when some
    numeric counter does *)
Lemma findOffender_reaches (cs : ScopeCounters) (threshold : Z) :
  0 < threshold ->
  (threshold <= snd (findOffender cs)) <->
  (exists a c, (a, CNum c) ∈ cs /\ threshold <= c).
Proof.
  intros Hpos. destruct (findOffender_spec cs) as (H1 & H2 & H3). split.
  - intros Hge. destruct H1 as [H1|H1].
    + rewrite H1 in Hge. simpl in Hge. lia.
    + by exists (fst (findOffender cs)), (snd (findOffender cs)).
  - intros (a & c & Hin & Hc). specialize (H3 a c Hin). lia.
Qed.

Lemma assoc_get_set (m : Counts) k v k' :
  assoc_get (assoc_set m k v) k' = if String.eqb k k' then Some v else assoc_get m k'.
Proof.
  induction m as [|[k0 v0] m IH]; simpl.
  - done.
  - destruct (String.eqb_spec k0 k) as [->|Hne]; simpl.
    + by destruct (String.eqb_spec k k').
    + rewrite IH. destruct (String.eqb_spec k0 k') as [->|]; [|done].
      destruct (String.eqb_spec k k'); congruence.
Qed.

(** *** Own properties of the counter object *)



Lemma own_get_None (cs : ScopeCounters) a : a ∉ keys cs -> own_get cs a = None.
Proof.
  unfold keys. induction cs as [|[k v] cs IH]; simpl; [done|].
  intros Hnot. destruct (String.eqb_spec k a) as [->|Hne].
  - exfalso. apply Hnot. left.
  - apply IH. intros Hin. apply Hnot. by right.
Qed.


Lemma own_get_obj_set (cs : ScopeCounters) k v k' :
  own_get (obj_set cs k v) k' =
  if String.eqb k k' then
    match own_get cs k with
    | Some _ => Some v
    | None => if String.eqb k "__proto__" then None else Some v
    end
  else own_get cs k'.
Proof.
  induction cs as [|[k0 v0] cs IH]; simpl.
  - destruct (String.eqb_spec k k') as [->|Hne].
    + destruct (String.eqb k' "__proto__"); simpl; [done|].
      by rewrite String.eqb_refl.
    + destruct (String.eqb k "__proto__"); simpl; [done|].
      by destruct (String.eqb_spec k k').
  - destruct (String.eqb_spec k0 k) as [->|Hne]; simpl.
    + by destruct (String.eqb_spec k k').
    + rewrite IH. destruct (String.eqb_spec k0 k') as [->|]; [|done].
      destruct (String.eqb_spec k k'); congruence.
Qed.









(** reading the per-scope counters back after a write *)
Lemma scopeCountersOf_set scope cs st :
  scopeCountersOf scope (setScopeCounters scope cs st) = cs.
Proof.
  unfold scopeCountersOf, setScopeCounters. simpl. by rewrite lookup_insert_eq.
Qed.

Lemma scope_name_inj s1 s2 : scope_name s1 = scope_name s2 -> s1 = s2.
Proof. by destruct s1, s2. Qed.

Lemma scopeCountersOf_set_other scope scope' cs st :
  scope' <> scope ->
  scopeCountersOf scope' (setScopeCounters scope cs st) = scopeCountersOf scope' st.
Proof.
  intros Hne. unfold scopeCountersOf, setScopeCounters. simpl.
  rewrite lookup_insert_ne; [done|]. intros H. by apply scope_name_inj in H.
Qed.

(** *** The per-tick maps *)

Lemma assoc_get_elem_of (m : Counts) a c : assoc_get m a = Some c -> (a, c) ∈ m.
Proof.
  induction m as [|[k v] m IH]; simpl; [done|].
  destruct (String.eqb_spec k a) as [->|Hne].
  - intros [= ->]. left.
  - intros H. right. by apply IH.
Qed.

Lemma assoc_get_None (m : Counts) a : a ∉ keys m -> assoc_get m a = None.
Proof.
  unfold keys. induction m as [|[k v] m IH]; simpl; [done|].
  intros Hnot. destruct (String.eqb_spec k a) as [->|Hne].
  - exfalso. apply Hnot. left.
  - apply IH. intros Hin. apply Hnot. by right.
Qed.

Lemma assoc_set_elem_of (m : Counts) k v a c :
  (a, c) ∈ assoc_set m k v -> (a = k /\ c = v) \/ (a, c) ∈ m.
Proof.
  induction m as [|[k0 v0] m IH]; simpl.
  - intros [[= -> ->]|[]%elem_of_nil]%elem_of_cons. by left.
  - destruct (String.eqb_spec k0 k) as [->|Hne].
    + intros [[= -> ->]|Hin]%elem_of_cons; [by left | right; by right].
    + intros [[= -> ->]|Hin]%elem_of_cons; [right; left|].
      destruct (IH Hin) as [?|?]; [by left | right; by right].
Qed.

Lemma bumped_countOf m a : bumped m -> 0 <= countOf m a.
Proof.
  intros Hm. unfold countOf. destruct (assoc_get m a) as [c|] eqn:E; simpl; [|lia].
  apply assoc_get_elem_of in E. destruct (Hm a c E). lia.
Qed.

Lemma bump_bumped m a : bumped m -> a <> "" -> bumped (bump m a).
Proof.
  intros Hm Ha a' c Hin. unfold bump in Hin.
  apply assoc_set_elem_of in Hin as [[-> ->]|Hin]; [|by apply Hm].
  split; [done|]. pose proof (bumped_countOf m a Hm). unfold countOf in *. lia.
Qed.

Lemma tally1_bumped hit agent n m :
  bumped m -> bumped (snd (tally1 hit agent (n, m))).
Proof.
  intros Hm. unfold tally1. destruct hit; simpl; [|done].
  destruct agent as [|c s]; simpl; [done|]. by apply bump_bumped.
Qed.

Lemma scanLines_bumped include exclude scope lines :
  bumpedTally (scanLines include exclude scope lines).
Proof.
  unfold scanLines.
  assert (H0 : bumpedTally emptyTally).
  { unfold bumpedTally, bumped. simpl.
    split_and!; intros a c Hin; by apply elem_of_nil in Hin. }
  revert H0. generalize emptyTally.
  induction lines as [|l lines IH]; intros t Ht; simpl; [done|].
  apply IH. unfold scanLine at 1.
  destruct (negb (matches include exclude scope l)); [done|].
  destruct Ht as (H1 & H2 & H3 & H4 & H5).
  unfold bumpedTally. cbn [agents401 agents405 agents429 agents5xx agentsExecutorFailed].
  split_and!; by apply tally1_bumped.
Qed.

Lemma dedupe_elem_of l x : x ∈ dedupe l <-> x ∈ l.
Proof.
  induction l as [|y l IH]; simpl; [done|].
  rewrite !elem_of_cons, list_elem_of_filter, IH.
  destruct (decide (x = y)); naive_solver.
Qed.

Lemma dedupe_NoDup l : NoDup (dedupe l).
Proof.
  induction l as [|y l IH]; simpl; [constructor|].
  apply NoDup_cons. split.
  - rewrite list_elem_of_filter. naive_solver.
  - by apply NoDup_filter.
Qed.


(** *** What [bumpN] adds, and to whom *)

(** the inherited members of the model are the members of the list *)
Lemma inheritedText_objectMember a :
  objectMember a = match inheritedText a with Some _ => true | None => false end.
Proof.
  unfold objectMember, inheritedText.
  destruct (String.eqb_spec a "__proto__") as [->|H1]; [done|].
  destruct (String.eqb_spec a "constructor") as [->|H2]; [done|].
  repeat case_bool_decide; try done; exfalso;
    repeat match goal with
           | H : _ ∈ _ |- _ => rewrite !elem_of_cons, elem_of_nil in H
           | H : ¬ _ ∈ _ |- _ => rewrite !elem_of_cons, elem_of_nil in H
           end; naive_solver.
Qed.

Lemma inheritedText_not_proto a :
  inheritedText a = None -> String.eqb a "__proto__" = false.
Proof. unfold inheritedText. by destruct (String.eqb a "__proto__"). Qed.

Lemma numOf_bumpN cs a n a' :
  0 <= n -> a <> "" ->
  numOf (bumpN cs a n) a'
  = numOf cs a' + (if decide (a = a') then if counted cs a then n else 0 else 0).
Proof.
  intros Hn Ha. unfold bumpN.
  assert (Text.nonempty a = true) as -> by (by destruct a).
  simpl. destruct (Z.leb_spec n 0) as [Hle|Hgt].
  - assert (n = 0) as -> by lia. case_decide; [destruct (counted cs a)|]; lia.
  - unfold numOf, counted, readPlus. rewrite own_get_obj_set.
    rewrite (inheritedText_objectMember a).
    destruct (String.eqb_spec a a') as [<-|Hne].
    + rewrite decide_True by done.
      destruct (own_get cs a) as [[c|txt]|]; simpl; [lia | lia |].
      destruct (inheritedText a) as [txt|] eqn:E; simpl.
      * destruct (String.eqb a "__proto__"); lia.
      * rewrite (inheritedText_not_proto a E). lia.
    + rewrite decide_False by done. lia.
Qed.

Lemma counted_bumpN cs a n a' : counted (bumpN cs a n) a' = counted cs a'.
Proof.
  unfold bumpN. destruct (negb _ || _); [done|].
  unfold counted, readPlus. rewrite own_get_obj_set.
  destruct (String.eqb_spec a a') as [<-|Hne]; [|done].
  rewrite (inheritedText_objectMember a).
  destruct (own_get cs a) as [[c|txt]|]; simpl; [done | done |].
  destruct (inheritedText a) as [txt|] eqn:E; simpl.
  - by destruct (String.eqb a "__proto__").
  - by rewrite (inheritedText_not_proto a E).
Qed.

Lemma numOf_bumpAgent t cs a a' :
  bumpedTally t -> a <> "" ->
  numOf (bumpAgent t cs a) a'
  = numOf cs a'
    + (if decide (a = a') then if counted cs a then tickTotal t a else 0 else 0).
Proof.
  intros (H1 & H2 & H3 & H4 & H5) Ha. unfold bumpAgent.
  fold (countOf (agents401 t) a) (countOf (agents405 t) a) (countOf (agents429 t) a)
       (countOf (agents5xx t) a) (countOf (agentsExecutorFailed t) a).
  rewrite !numOf_bumpN by (done || by apply bumped_countOf).
  rewrite !counted_bumpN.
  unfold tickTotal. case_decide; [destruct (counted cs a)|]; lia.
Qed.

Lemma counted_bumpAgent t cs a a' : counted (bumpAgent t cs a) a' = counted cs a'.
Proof. unfold bumpAgent. by rewrite !counted_bumpN. Qed.

Lemma counted_fold_bumpAgent t agents : forall cs a,
  counted (fold_left (bumpAgent t) agents cs) a = counted cs a.
Proof.
  induction agents as [|x agents IH]; intros cs a; simpl; [done|].
  by rewrite IH, counted_bumpAgent.
Qed.

Lemma numOf_fold_bumpAgent t agents : forall cs a,
  bumpedTally t -> NoDup agents -> (forall x, x ∈ agents -> x <> "") ->
  numOf (fold_left (bumpAgent t) agents cs) a
  = numOf cs a
    + (if decide (a ∈ agents) then if counted cs a then tickTotal t a else 0 else 0).
Proof.
  induction agents as [|x agents IH]; intros cs a Ht Hnd Hne; simpl.
  - lia.
  - apply NoDup_cons in Hnd as [Hx Hnd].
    rewrite IH; [|done|done|intros y Hy; apply Hne; by right].
    rewrite numOf_bumpAgent; [|done|apply Hne; left].
    rewrite counted_bumpAgent.
    destruct (decide (x = a)) as [->|Hxa].
    + rewrite (decide_False (P := a ∈ agents)) by done.
      rewrite (decide_True (P := a ∈ a :: agents)) by left.
      destruct (counted cs a); lia.
    + destruct (decide (a ∈ agents)) as [Hin|Hin].
      * rewrite (decide_True (P := a ∈ x :: agents)) by (by right). lia.
      * rewrite (decide_False (P := a ∈ x :: agents)); [lia|].
        intros [?|?]%elem_of_cons; [congruence | done].
Qed.

Lemma tickTotal_elsewhere t a : a ∉ tickAgents t -> tickTotal t a = 0.
Proof.
  intros Hin. unfold tickTotal, countOf.
  rewrite !assoc_get_None; [done|..];
    intros Hk; apply Hin; unfold tickAgents; apply dedupe_elem_of;
    rewrite !elem_of_app; auto 10.
Qed.

Lemma tickAgents_named t x : bumpedTally t -> x ∈ tickAgents t -> x <> "".
Proof.
  intros (H1 & H2 & H3 & H4 & H5) Hx.
  unfold tickAgents in Hx. apply (proj1 (dedupe_elem_of _ _)) in Hx.
  rewrite !elem_of_app in Hx. unfold keys in Hx.
  destruct Hx as [Hx|[Hx|[Hx|[Hx|Hx]]]];
    apply list_elem_of_fmap in Hx as ([k v] & -> & Hin); simpl;
    [apply (H1 k v Hin) | apply (H2 k v Hin) | apply (H3 k v Hin)
    | apply (H4 k v Hin) | apply (H5 k v Hin)].
Qed.

(** the counter an agent ends a tick with is the one it started with plus
    the errors attributed to it in the tick, where they can be counted *)
Lemma numOf_bumpAll t cs a :
  bumpedTally t ->
  numOf (bumpAll t cs) a = numOf cs a + (if counted cs a then tickTotal t a else 0).
Proof.
  intros Ht. unfold bumpAll.
  rewrite numOf_fold_bumpAgent;
    [|done|apply dedupe_NoDup|intros x; by apply tickAgents_named].
  case_decide as Hin; [done|]. rewrite (tickTotal_elsewhere t a Hin).
  destruct (counted cs a); lia.
Qed.

Lemma counted_bumpAll t cs a : counted (bumpAll t cs) a = counted cs a.
Proof. apply counted_fold_bumpAgent. Qed.


Lemma own_number cs a n :
  own_get cs a = Some (CNum n) -> counted cs a = true /\ numOf cs a = n.
Proof. unfold counted, numOf. by intros ->. Qed.




(** ** The observer tick and the escalation state *)

Lemma sameEscalation_refl st : sameEscalation st st.
Proof. done. Qed.

Lemma sameEscalation_trans st1 st2 st3 :
  sameEscalation st1 st2 -> sameEscalation st2 st3 -> sameEscalation st1 st3.
Proof.
  intros (A1 & A2 & A3 & A4) (B1 & B2 & B3 & B4).
  split_and!; [congruence..|]. intros s. by rewrite B4.
Qed.

Lemma upsertJob_state patch w : w_state (snd (upsertJob patch w)) = w_state w.
Proof. by rewrite upsertJob_run. Qed.

Lemma readChunk_frame path content maxBytes w :
  exists r w',
    readChunk path content maxBytes w = (r, w')
    /\ sameEscalation (w_state w) (w_state w').
Proof.
  destruct w as [s jb sf lg ck rd dp ls tl lo up dc].
  unfold readChunk. run_m.
  destruct (bool_decide (logPath (observe s) ≠ path) || (Text.len content <? pos (observe s)));
    run_m.
  all: match goal with |- context [if ?a <? 0 then _ else _] => destruct (a <? 0) end;
    run_m; by eexists _, _.
Qed.

Lemma tally1_unattributed hit ca : snd (tally1 hit "" ca) = snd ca.
Proof. unfold tally1. by destruct hit. Qed.

Lemma scanLine_unattributed include exclude scope t l :
  (matches include exclude scope l = true -> extractAgent l = "") ->
  noAgents t -> noAgents (scanLine include exclude scope t l).
Proof.
  intros Hl Ht. unfold scanLine.
  destruct (matches include exclude scope l); simpl; [|done].
  rewrite Hl by done. destruct Ht as (H1 & H2 & H3 & H4 & H5).
  unfold noAgents. simpl. rewrite !tally1_unattributed. simpl. done.
Qed.

Lemma scanLines_unattributed include exclude scope lines :
  (forall l, l ∈ lines -> matches include exclude scope l = true -> extractAgent l = "") ->
  noAgents (scanLines include exclude scope lines).
Proof.
  unfold scanLines. generalize emptyTally (ltac:(done) : noAgents emptyTally).
  induction lines as [|l lines IH]; intros t Ht Hall; simpl; [done|].
  apply IH.
  - apply scanLine_unattributed; [|done]. apply Hall. left.
  - intros l' Hin. apply Hall. by right.
Qed.

Lemma noAgents_tickAgents t : noAgents t -> tickAgents t = [].
Proof. unfold tickAgents. intros (-> & -> & -> & -> & ->). done. Qed.

Lemma perAgentJobs_noAgents cfg scope t w :
  noAgents t -> perAgentJobs cfg scope t w = (Ok tt, w).
Proof.
  unfold perAgentJobs. intros (-> & -> & -> & -> & ->).
  by destruct (bool_decide _).
Qed.

(** without attributed agents and with every counter below a positive
    threshold, the escalation block changes nothing that matters *)
Lemma escalate_quiet esc scope t w :
  0 < escThreshold esc ->
  noAgents t ->
  (forall a c, (a, CNum c) ∈ scopeCountersOf scope (w_state w) -> c < escThreshold esc) ->
  exists w',
    escalate esc scope t w = (Ok tt, w')
    /\ sameEscalation (w_state w) (w_state w').
Proof.
  intros Hpos Hno Hlow.
  destruct w as [s jb sf lg ck rd dp ls tl lo up dc]. simpl in *.
  unfold escalate. destruct (escEnabled esc); [|by eexists].
  run_m. unfold bumpAll. rewrite (noAgents_tickAgents t Hno). simpl.
  set (cum := scopeCountersOf scope s).
  assert (Hlt : (escThreshold esc <=? snd (findOffender cum)) = false).
  { apply Z.leb_gt. destruct (Z.lt_ge_cases (snd (findOffender cum)) (escThreshold esc))
      as [|Hge]; [done|].
    apply (findOffender_reaches cum _ Hpos) in Hge as (a & c & Hin & Hc).
    specialize (Hlow a c Hin). lia. }
  rewrite Hlt. run_m. eexists. split; [reflexivity|]. run_m.
  split_and!; try done. intros s'.
  destruct (decide (s' = scope)) as [->|Hne].
  - by rewrite scopeCountersOf_set.
  - by rewrite scopeCountersOf_set_other.
Qed.

Lemma reportErrors_quiet cfg t w :
  0 < escThreshold (observeCfg cfg obs_escalate) ->
  noAgents t ->
  belowThreshold cfg (w_state w) ->
  exists w',
    reportErrors cfg (obsScope cfg) t w = (Ok tt, w')
    /\ sameEscalation (w_state w) (w_state w').
Proof.
  intros Hpos Hno Hlow. unfold reportErrors.
  rewrite (bind_ok _ _ _ _ _ (perAgentJobs_noAgents cfg _ t w Hno)).
  destruct (escalate_quiet _ (obsScope cfg) t w Hpos Hno Hlow) as (w1 & Hrun & Hsame).
  rewrite (bind_ok _ _ _ _ _ Hrun).
  rewrite (bind_ok _ _ _ _ _ (upsertJob_run _ w1)).
  eexists. split; [reflexivity|]. simpl. exact Hsame.
Qed.

Lemma observe_unattributed cfg w :
  0 < escThreshold (observeCfg cfg obs_escalate) ->
  belowThreshold cfg (w_state w) ->
  unattributedTick cfg w ->
  sameEscalation (w_state w) (w_state (snd (observeFromGatewayLogs cfg w))).
Proof.
  intros Hpos Hlow Hun. unfold unattributedTick, scannedLines in Hun.
  unfold observeFromGatewayLogs.
  destruct (obsEnabled cfg); simpl; [|apply sameEscalation_refl].
  destruct (resolveLogPath_run cfg w) as (p & w1 & Hp & Hs1).
  rewrite Hp in Hun. rewrite (bind_ok _ _ _ _ _ Hp).
  assert (Hlow1 : belowThreshold cfg (w_state w1)) by (by rewrite Hs1).
  rewrite <- Hs1. clear Hp Hs1 Hlow.
  unfold try_catch. unfold bind at 1. unfold get at 1.
  destruct (w_logs w1 p) as [content|].
  - destruct (readChunk_frame p content (obsMaxBytes cfg) w1) as (r & w2 & Hr & Hs2).
    rewrite Hr in Hun. unfold bind at 1. rewrite Hr.
    destruct r as [text|e]; [|exact Hs2].
    unfold bind at 1. unfold modifyState at 1, modify at 1.
    set (t := scanLines _ _ _ _).
    destruct (nothingCounted t); [exact Hs2|].
    set (w3 := with_state (set_observeLast noObserveLast) w2).
    assert (Hs3 : sameEscalation (w_state w1) (w_state w3)).
    { destruct Hs2 as (A1 & A2 & A3 & A4). by split_and!. }
    destruct (reportErrors_quiet cfg t w3 Hpos) as (w4 & Hrun & Hs4).
    + apply scanLines_unattributed. exact Hun.
    + intros a c Hin. apply (Hlow1 a c). destruct Hs3 as (_ & _ & _ & A4).
      by rewrite <- A4.
    + rewrite Hrun. simpl. by eapply sameEscalation_trans.
  - unfold bind at 1. rewrite upsertJob_run. simpl. apply sameEscalation_refl.
Qed.

(** ** Unattributed errors across ticks *)

Lemma noNewEscalation_refl st : noNewEscalation st st.
Proof. split_and!; try done. by left. Qed.

Lemma noNewEscalation_trans st1 st2 st3 :
  noNewEscalation st1 st2 -> noNewEscalation st2 st3 -> noNewEscalation st1 st3.
Proof.
  intros (A1 & A2 & A3 & A4) (B1 & B2 & B3 & B4). split_and!.
  - intros s. by rewrite B1.
  - congruence.
  - congruence.
  - destruct A4 as [A4|A4], B4 as [B4|B4]; rewrite B4, A4; auto.
Qed.

Lemma tick_state cfg w :
  exists wo,
    observeFromGatewayLogs cfg w = (Ok tt, wo)
    /\ (w_state (snd (tick cfg w)) = w_state wo
        \/ exists t text,
             w_state (snd (tick cfg w)) =
             set_lastBrief t text
               (if pending (observeEscalation (w_state wo))
                then set_observeEscalation
                       (set_pending false (observeEscalation (w_state wo)))
                       (w_state wo)
                else w_state wo)).
Proof.
  destruct (renderBrief_run cfg w) as (wo & Ho & Hr).
  exists wo. split; [done|].
  unfold tick, bind. rewrite Hr.
  destruct (existsb pushThrows (storedJobs wo)); [by left|].
  rewrite postBrief_run. cbn [snd].
  destruct (shouldPost _ _ _); [|by left].
  destruct (transportFails _ _); [by left|].
  right. by eexists _, _.
Qed.

Lemma tick_noNewEscalation cfg w :
  sameEscalation (w_state w) (w_state (snd (observeFromGatewayLogs cfg w))) ->
  noNewEscalation (w_state w) (w_state (snd (tick cfg w))).
Proof.
  destruct (tick_state cfg w) as (wo & Ho & Hst). rewrite Ho. simpl.
  intros (A1 & A2 & A3 & A4).
  destruct Hst as [->|(t & text & ->)].
  - split_and!; try done. by left.
  - destruct (pending (observeEscalation (w_state wo))) eqn:E; simpl.
    + split_and!; try done. right. by rewrite A1.
    + split_and!; try done. left. done.
Qed.

(** C10. Only attributed errors can escalate: over any number of scheduler
    ticks whose scanned matching lines all yield no agent identity, with a
    positive threshold and every counter of the scope below it at the start,
    no cumulative counter of any scope changes, the cooldown timestamp and
    reason are never stamped, and the escalation latch is never set (it is
    at most consumed by a publish if it was pending beforehand). *)
Theorem unattributed_errors_never_escalate
    (cfg : Config) (feeds : list Feed) (w : World) :
  0 < escThreshold (observeCfg cfg obs_escalate) ->
  belowThreshold cfg (w_state w) ->
  unattributedStream cfg feeds w ->
  let st' := w_state (runTicks cfg feeds w) in
  noNewEscalation (w_state w) st'
  /\ belowThreshold cfg st'
  /\ (pending (observeEscalation (w_state w)) = false ->
        pending (observeEscalation st') = false).
Proof.
  intros Hpos Hlow Hun. simpl.
  assert (G : noNewEscalation (w_state w) (w_state (runTicks cfg feeds w))).
  { revert w Hlow Hun. induction feeds as [|f feeds IH]; intros w Hlow Hun; simpl.
    - apply noNewEscalation_refl.
    - destruct Hun as [Hun1 Hun].
      pose proof (observe_unattributed cfg (feed f w) Hpos Hlow Hun1) as Hobs.
      pose proof (tick_noNewEscalation cfg (feed f w) Hobs) as Htick.
      eapply noNewEscalation_trans; [exact Htick|].
      apply IH; [|done].
      intros a c Hin. apply (Hlow a c).
      destruct Htick as (B1 & _). rewrite (B1 (obsScope cfg)) in Hin. exact Hin. }
  split_and!; [done | |].
  - intros a c Hin. apply (Hlow a c). destruct G as (B1 & _).
    rewrite (B1 (obsScope cfg)) in Hin. exact Hin.
  - intros Hp. destruct G as (_ & _ & _ & [->| ->]); [done | done].
Qed.

(** ** The observer on concrete logs *)




(** C10, as stated, fails: with a threshold of zero one unattributed error
    line raises an escalation, and with a counter standing at the threshold
    since the last escalation and the cooldown elapsed, a tick that scans
    one unattributed error line raises it again. In both the stream holds
    no attributed line. *)
Lemma unattributed_errors_can_escalate :
  ~ unattributed_never_escalate cfg_threshold_0 feed_one_error world0
  /\ ~ unattributed_never_escalate cfg_watch feed_one_error world_clamped.
Proof.
  unfold unattributed_never_escalate. split; intros H.
  - assert (Hun : unattributedStream cfg_threshold_0 feed_one_error world0).
    { cbn [unattributedStream feed_one_error]. split; [|exact I].
      intros l Hl _.
      match type of Hl with
      | _ ∈ ?x =>
          assert (E : x = ["HTTP 500 upstream failure"]) by (vm_compute; reflexivity);
          rewrite E in Hl
      end.
      apply list_elem_of_singleton in Hl as ->. vm_compute. reflexivity. }
    destruct (H Hun) as (_ & Hat & _). vm_compute in Hat. discriminate Hat.
  - assert (Hun : unattributedStream cfg_watch feed_one_error world_clamped).
    { cbn [unattributedStream feed_one_error]. split; [|exact I].
      intros l Hl _.
      match type of Hl with
      | _ ∈ ?x =>
          assert (E : x = ["HTTP 500 upstream failure"]) by (vm_compute; reflexivity);
          rewrite E in Hl
      end.
      apply list_elem_of_singleton in Hl as ->. vm_compute. reflexivity. }
    destruct (H Hun) as (_ & Hat & _). vm_compute in Hat. discriminate Hat.
Qed.

Lemma unattributed_errors_never_escalate_witness :
  noNewEscalation (w_state world0)
    (w_state (runTicks cfg_watch feeds_unattributed world0))
  /\ belowThreshold cfg_watch
       (w_state (runTicks cfg_watch feeds_unattributed world0))
  /\ (pending (observeEscalation (w_state world0)) = false ->
        pending (observeEscalation
                   (w_state (runTicks cfg_watch feeds_unattributed world0))) = false).
Proof.
  apply (unattributed_errors_never_escalate cfg_watch feeds_unattributed world0).
  - vm_compute. reflexivity.
  - intros a c Hin. vm_compute in Hin. inversion Hin.
  - cbn [unattributedStream feeds_unattributed]. split_and!; [| |exact I].
    + intros l Hl _.
      match type of Hl with
      | _ ∈ ?x =>
          assert (E : x = ["HTTP 500 upstream failure"]) by (vm_compute; reflexivity);
          rewrite E in Hl
      end.
      apply list_elem_of_singleton in Hl as ->. vm_compute. reflexivity.
    + intros l Hl _.
      match type of Hl with
      | _ ∈ ?x =>
          assert (E : x = ["HTTP 503 again"]) by (vm_compute; reflexivity);
          rewrite E in Hl
      end.
      apply list_elem_of_singleton in Hl as ->. vm_compute. reflexivity.
Defined.

(** C3, the code against the claim: a missing log gives the health job
    state waiting and a counted error gives blocked, but on a tick where
    the file exists and every count is zero the observer returns before any
    upsert: after an error the job stays blocked (it never reads running),
    and on a fresh store no health job is written at all. *)
Theorem health_job_not_refreshed_on_clean_tick :
  healthState (snd (observeFromGatewayLogs cfg_watch world0)) = Some (Some waiting)
  /\ healthState world_one_error = Some (Some blocked)
  /\ scannedLines cfg_watch
       (with_log (line "HTTP 500 upstream failure" +:+ line "all quiet")
          world_one_error) = ["all quiet"]
  /\ nothingCounted (scanLines [] [] gateway ["all quiet"]) = true
  /\ healthState world_then_quiet = Some (Some blocked)
  /\ w_jobs world_then_quiet = w_jobs world_one_error
  /\ healthState
       (snd (observeFromGatewayLogs cfg_watch (with_log (line "all quiet") world0)))
     = None.
Proof. split_and!; vm_compute; reflexivity. Qed.

(** ** When the escalation block runs *)

Lemma perAgentJob_total scope t minCount a w :
  exists w', perAgentJob scope t minCount a w = (Ok tt, w') /\ w_state w' = w_state w.
Proof.
  unfold perAgentJob. destruct (_ <? _); [by eexists|].
  rewrite (bind_ok _ _ _ _ _ (upsertJob_run _ w)). by eexists.
Qed.

Lemma perAgentJobs_total cfg scope t w :
  exists w', perAgentJobs cfg scope t w = (Ok tt, w') /\ w_state w' = w_state w.
Proof.
  unfold perAgentJobs. destruct (bool_decide _); [|by eexists].
  match goal with |- context [forEach ?l ?f] => generalize l end.
  intros agents. revert w. induction agents as [|a agents IH]; intros w; simpl.
  - by eexists.
  - match goal with |- context [perAgentJob scope t ?m a] =>
      destruct (perAgentJob_total scope t m a w) as (w1 & H1 & Hs1)
    end.
    rewrite (bind_ok _ _ _ _ _ H1).
    destruct (IH w1) as (w2 & H2 & Hs2). exists w2. split; [exact H2 | congruence].
Qed.

Lemma escalate_total esc scope t w : exists w', escalate esc scope t w = (Ok tt, w').
Proof.
  destruct w as [s jb sf lg ck rd dp ls tl lo up dc].
  unfold escalate. destruct (escEnabled esc); [|by eexists]. run_m.
  destruct (_ && _); run_m; [|by eexists].
  destruct (Text.nonempty _); run_m; by eexists.
Qed.

(** a tick in which the log exists and something was counted runs the
    per-agent jobs, then the escalation block, and its final state is the
    one the escalation block leaves *)
Lemma observe_runs_escalation cfg w path w1 content text w2 :
  obsEnabled cfg = true ->
  resolveLogPath cfg w = (Ok path, w1) ->
  w_logs w1 path = Some content ->
  readChunk path content (obsMaxBytes cfg) w1 = (Ok text, w2) ->
  nothingCounted (scanLines (compileRegexes (observeCfg cfg obs_includeRegexes))
                    (compileRegexes (observeCfg cfg obs_excludeRegexes))
                    (obsScope cfg) (chunkLines text)) = false ->
  exists w3,
    perAgentJobs cfg (obsScope cfg)
      (scanLines (compileRegexes (observeCfg cfg obs_includeRegexes))
         (compileRegexes (observeCfg cfg obs_excludeRegexes))
         (obsScope cfg) (chunkLines text))
      (with_state (set_observeLast noObserveLast) w2) = (Ok tt, w3)
    /\ w_state w3 = set_observeLast noObserveLast (w_state w2)
    /\ w_state (snd (observeFromGatewayLogs cfg w))
       = w_state (snd (escalate (observeCfg cfg obs_escalate) (obsScope cfg)
                         (scanLines (compileRegexes (observeCfg cfg obs_includeRegexes))
                            (compileRegexes (observeCfg cfg obs_excludeRegexes))
                            (obsScope cfg) (chunkLines text))
                         w3)).
Proof.
  intros Hen Hp Hlog Hr Hcount.
  set (t := scanLines _ _ _ _) in *.
  destruct (perAgentJobs_total cfg (obsScope cfg) t
              (with_state (set_observeLast noObserveLast) w2)) as (w3 & H3 & Hs3).
  exists w3. split; [exact H3|]. split; [exact Hs3|].
  unfold observeFromGatewayLogs. rewrite Hen. simpl.
  rewrite (bind_ok _ _ _ _ _ Hp).
  unfold try_catch. unfold bind at 1. unfold get at 1. rewrite Hlog.
  unfold bind at 1. rewrite Hr.
  unfold bind at 1. unfold modifyState at 1, modify at 1.
  fold t. rewrite Hcount.
  unfold reportErrors. rewrite (bind_ok _ _ _ _ _ H3).
  destruct (escalate_total (observeCfg cfg obs_escalate) (obsScope cfg) t w3)
    as (w4 & H4).
  rewrite (bind_ok _ _ _ _ _ H4). rewrite H4.
  rewrite (bind_ok _ _ _ _ _ (upsertJob_run _ w4)). reflexivity.
Qed.

(** a tick in which the log exists and nothing was counted stops after the
    read: no job is written, the escalation block does not run *)
Lemma observe_quiet_tick cfg w path w1 content text w2 :
  obsEnabled cfg = true ->
  resolveLogPath cfg w = (Ok path, w1) ->
  w_logs w1 path = Some content ->
  readChunk path content (obsMaxBytes cfg) w1 = (Ok text, w2) ->
  nothingCounted (scanLines (compileRegexes (observeCfg cfg obs_includeRegexes))
                    (compileRegexes (observeCfg cfg obs_excludeRegexes))
                    (obsScope cfg) (chunkLines text)) = true ->
  observeFromGatewayLogs cfg w
  = (Ok tt, with_state (set_observeLast noObserveLast) w2).
Proof.
  intros Hen Hp Hlog Hr Hcount.
  unfold observeFromGatewayLogs. rewrite Hen. simpl.
  rewrite (bind_ok _ _ _ _ _ Hp).
  unfold try_catch. unfold bind at 1. unfold get at 1. rewrite Hlog.
  unfold bind at 1. rewrite Hr.
  unfold bind at 1. unfold modifyState at 1, modify at 1.
  by rewrite Hcount.
Qed.

(* ===================================================================== *)
(** * Further properties of the job store                                 *)
(* ===================================================================== *)

Lemma currentRecord_None w : currentRecord None w = None.
Proof.
  destruct (currentRecord None w) as [r|] eqn:E; [|done].
  unfold currentRecord, findJob, storedJobs in E.
  apply find_some in E as [Hin%list_elem_of_In Hid].
  apply bool_decide_eq_true_1 in Hid.
  destruct (w_jobs w) as [lines|]; [|by apply elem_of_nil in Hin].
  apply reduceLines_elem_of in Hin as (id' & Hne & Hl).
  pose proof (lastWrite_jobId _ _ _ Hl). congruence.
Qed.

Lemma upsertNext_keeps_jobId patch w : jobId (upsertNext patch w) = jobId patch.
Proof.
  destruct (jobId patch) as [id|] eqn:E; [by apply upsertNext_jobId|].
  unfold upsertNext. rewrite E, currentRecord_None. simpl. by rewrite E.
Qed.

Lemma jobLines_afterUpsert patch w :
  jobLines (afterUpsert patch w) = jobLines w ++ [Parsed (upsertNext patch w)].
Proof. done. Qed.

(** X1. [upsertJob] changes the current record of no other job: after an
    upsert whose patch does not carry the id [id'], the current record of
    [id'] is what it was. *)
Theorem upsert_leaves_other_jobs (patch : JobRecord) (id' : string) (w : World) :
  jobId patch <> Some id' ->
  exists next w',
    upsertJob patch w = (Ok next, w')
    /\ currentRecord (Some id') w' = currentRecord (Some id') w.
Proof.
  intros Hid. rewrite upsertJob_run. eexists _, _. split; [done|].
  destruct (Text.nonempty id') eqn:Hne.
  - unfold currentRecord, storedJobs, afterUpsert. simpl.
    rewrite findJob_reduceLines by done. rewrite lastWrite_app.
    rewrite bool_decide_eq_false_2 by (by rewrite upsertNext_keeps_jobId).
    destruct (w_jobs w) as [ls|]; simpl; [by rewrite findJob_reduceLines | done].
  - destruct (currentRecord (Some id') (afterUpsert patch w)) as [r|] eqn:E1.
    { apply currentRecord_nonempty in E1. congruence. }
    destruct (currentRecord (Some id') w) as [r|] eqn:E2; [|done].
    apply currentRecord_nonempty in E2. congruence.
Qed.

Lemma upsert_leaves_other_jobs_witness :
  exists next w',
    upsertJob report_90 world_two_jobs = (Ok next, w')
    /\ currentRecord (Some "deploy-2") w' = currentRecord (Some "deploy-2") world_two_jobs.
Proof. apply (upsert_leaves_other_jobs report_90 "deploy-2" world_two_jobs). discriminate. Defined.

Lemma elem_of_sort_insert {A} (cmp : A -> A -> Z) x l y :
  y ∈ sort_insert cmp x l <-> y = x \/ y ∈ l.
Proof. rewrite (sort_insert_perm cmp x l). apply elem_of_cons. Qed.

Lemma sort_insert_ascending x l :
  is_Some (createdAt x) ->
  (forall y, y ∈ l -> is_Some (createdAt y)) ->
  ascending (map createdAtOf l) ->
  ascending (map createdAtOf (sort_insert byCreatedAt x l)).
Proof.
  intros [cx Hx]. induction l as [|y l IH]; intros Hall Hasc.
  - simpl. split; [constructor | done].
  - destruct (Hall y) as [cy Hy]; [left|].
    destruct Hasc as [Hle Hasc]. fold (map createdAtOf l) in Hle, Hasc.
    simpl. unfold byCreatedAt at 1. rewrite Hx, Hy.
    destruct (0 <? cy - cx) eqn:Hc.
    + apply Z.ltb_lt in Hc. simpl. split_and!; [|done|done].
      constructor; [unfold createdAtOf; rewrite Hx, Hy; simpl; lia|].
      eapply Forall_impl; [exact Hle|]. intros z Hz. simpl in Hz.
      unfold createdAtOf in *. rewrite Hx, Hy in *. simpl in *. lia.
    + apply Z.ltb_ge in Hc. simpl. split.
      * apply List.Forall_forall. intros z Hz.
        apply in_map_iff in Hz as (j & <- & Hj).
        apply list_elem_of_In, elem_of_sort_insert in Hj as [->|Hj].
        -- unfold createdAtOf. rewrite Hx, Hy. simpl. lia.
        -- rewrite List.Forall_forall in Hle. apply Hle.
           apply in_map_iff. exists j. split; [done|]. by apply list_elem_of_In.
      * apply IH; [|done]. intros z Hz. apply Hall. by right.
Qed.

Lemma sort_ascending_from l : forall acc,
  (forall y, y ∈ l -> is_Some (createdAt y)) ->
  (forall y, y ∈ acc -> is_Some (createdAt y)) ->
  ascending (map createdAtOf acc) ->
  ascending
    (map createdAtOf (fold_left (fun acc x => sort_insert byCreatedAt x acc) l acc)).
Proof.
  induction l as [|x l IH]; intros acc Hl Hacc Hasc; simpl; [done|].
  apply IH.
  - intros y Hy. apply Hl. by right.
  - intros y [->|Hy]%elem_of_sort_insert; [apply Hl; left | by apply Hacc].
  - apply sort_insert_ascending; [apply Hl; left | done | done].
Qed.

Lemma lastWrite_elem_of id lines j : lastWrite id lines = Some j -> Parsed j ∈ lines.
Proof.
  induction lines as [|l lines IH]; simpl; [done|].
  destruct (lastWrite id lines) as [j'|].
  - intros [= ->]. right. by apply IH.
  - destruct l as [| | |j0]; try done.
    case_bool_decide; [|done]. intros [= ->]. left.
Qed.

(** X2. [readJobs] returns the current records in ascending order of
    [createdAt], provided every record of the file carries one (as every
    record written by [upsertJob] does). *)
Theorem readJobs_sorted_by_createdAt (w : World) :
  (forall j, Parsed j ∈ jobLines w -> is_Some (createdAt j)) ->
  exists jobs, readJobs w = (Ok jobs, w) /\ ascending (map createdAtOf jobs).
Proof.
  intros Hall. rewrite readJobs_run. eexists. split; [done|].
  unfold storedJobs, jobLines in *. destruct (w_jobs w) as [lines|]; [|done].
  simpl in Hall. unfold reduceLines, sort.
  apply sort_ascending_from; [|by intros y Hy%elem_of_nil|done].
  intros y Hy.
  assert (Hin : y ∈ reduceLines lines).
  { unfold reduceLines. by rewrite sort_perm. }
  apply reduceLines_elem_of in Hin as (id & _ & Hl).
  by apply Hall, (lastWrite_elem_of id).
Qed.

Lemma readJobs_sorted_by_createdAt_witness :
  exists jobs, readJobs world_two_jobs = (Ok jobs, world_two_jobs)
    /\ ascending (map createdAtOf jobs).
Proof.
  apply (readJobs_sorted_by_createdAt world_two_jobs).
  intros j Hj. vm_compute in Hj.
  apply elem_of_cons in Hj as [[= ->]|Hj]; [by eexists|].
  apply elem_of_cons in Hj as [[= ->]|Hj]; [by eexists|].
  by apply elem_of_nil in Hj.
Defined.

(** X3. Whatever the patch says, the record [upsertJob] appends carries as
    [updatedAt] and [lastActivityAt] the last two clock readings of the
    call: a patch cannot set them. The record is appended as the last line
    of the file. *)
Theorem upsert_stamps_last_two_readings (patch : JobRecord) (w : World) :
  exists next w',
    upsertJob patch w = (Ok next, w')
    /\ (w_reads w + 2 <= w_reads w')%nat
    /\ updatedAt next = Some (w_clock w (w_reads w' - 2)%nat)
    /\ lastActivityAt next = Some (w_clock w (w_reads w' - 1)%nat)
    /\ jobLines w' = jobLines w ++ [Parsed next].
Proof.
  rewrite upsertJob_run. eexists _, _. split; [done|].
  unfold afterUpsert, upsertNext, upsertReads. simpl.
  destruct (currentRecord (jobId patch) w) as [prev|]; simpl;
    (split_and!; [lia | f_equal; f_equal; lia | f_equal; f_equal; lia | done]).
Qed.

(** X4. The first report of a job id: the record starts in state
    [registered] unless the patch names a state, its [createdAt] is the
    first clock reading of the call unless the patch carries one, the other
    descriptive properties are the patch's, and five readings are taken. *)
Theorem first_report_defaults (patch : JobRecord) (w : World) :
  currentRecord (jobId patch) w = None ->
  exists next w',
    upsertJob patch w = (Ok next, w')
    /\ state next = Some (nullish (state patch) registered)
    /\ createdAt next = Some (nullish (createdAt patch) (w_clock w (w_reads w)))
    /\ title next = title patch /\ owner next = owner patch
    /\ progress next = progress patch /\ detail next = detail patch
    /\ w_reads w' = (5 + w_reads w)%nat.
Proof.
  intros Hnew. rewrite upsertJob_run. eexists _, _. split; [done|].
  unfold afterUpsert, upsertNext, upsertReads. rewrite Hnew.
  destruct patch as [pid pt po ps pp pd pc pu pa]. simpl.
  split_and!; try done; [by destruct ps | by destruct pc | by destruct pt
    | by destruct po | by destruct pp | by destruct pd].
Qed.

Lemma first_report_defaults_witness :
  exists next w',
    upsertJob report_90 world0 = (Ok next, w')
    /\ state next = Some (nullish (state report_90) registered)
    /\ createdAt next
       = Some (nullish (createdAt report_90) (w_clock world0 (w_reads world0)))
    /\ title next = title report_90 /\ owner next = owner report_90
    /\ progress next = progress report_90 /\ detail next = detail report_90
    /\ w_reads w' = (5 + w_reads world0)%nat.
Proof. apply (first_report_defaults report_90 world0). vm_compute. reflexivity. Defined.

(** X5. A confirmed reset forgets every job: afterwards no job id has a
    current record, and the next report of any job starts over, as the only
    line of the file, with a [createdAt] of its own. *)
Theorem report_after_reset_starts_over (cfg : Config) (patch : JobRecord)
    (w : World) :
  enabled cfg = true ->
  exists w1 next w2,
    progress_briefing_reset cfg (JsBool true) w = (Ok msg_cleared, w1)
    /\ (forall id, currentRecord id w1 = None)
    /\ upsertJob patch w1 = (Ok next, w2)
    /\ createdAt next = Some (nullish (createdAt patch) (w_clock w (w_reads w)))
    /\ jobLines w2 = [Parsed next].
Proof.
  intros Hen. unfold progress_briefing_reset. rewrite Hen. simpl.
  eexists _, _, _. split; [reflexivity|].
  assert (Hnone : forall id,
    currentRecord id
      (with_stateFile (Some resetState)
         (with_state (fun _ => resetState)
            (with_jobs (fun f => match f with Some _ => Some [] | None => None end) w)))
    = None).
  { intros id. unfold currentRecord, storedJobs. simpl. by destruct (w_jobs w). }
  split; [exact Hnone|]. rewrite upsertJob_run. split; [done|].
  unfold afterUpsert, upsertNext. rewrite Hnone.
  destruct patch as [pid pt po ps pp pd pc pu pa]. simpl.
  split; [by destruct pc|]. unfold jobLines. simpl. by destruct (w_jobs w).
Qed.

Lemma report_after_reset_starts_over_witness :
  exists w1 next w2,
    progress_briefing_reset (mkConfig None None None None None None) (JsBool true)
      world_two_jobs = (Ok msg_cleared, w1)
    /\ (forall id, currentRecord id w1 = None)
    /\ upsertJob report_90 w1 = (Ok next, w2)
    /\ createdAt next
       = Some (nullish (createdAt report_90)
                 (w_clock world_two_jobs (w_reads world_two_jobs)))
    /\ jobLines w2 = [Parsed next].
Proof.
  apply (report_after_reset_starts_over (mkConfig None None None None None None)
           report_90 world_two_jobs).
  reflexivity.
Defined.

(** X6. The report tool: disabled, it answers with the notice and touches
    nothing; enabled, it runs exactly one [upsertJob] on its parameters and
    answers with the id and the state of the merged record, which is the
    reported state or else the state the job already had. *)
Theorem report_tool_answers_with_merged_state (cfg : Config) (params : JobRecord)
    (w : World) :
  progress_briefing_report cfg params w
  = (if enabled cfg
     then (Ok ("ok: " +:+ nullish (jobId params) "undefined" +:+ " → "
               +:+ stateName
                     (match state params with
                      | Some s => Some s
                      | None =>
                          match currentRecord (jobId params) w with
                          | Some prev => state prev
                          | None => Some registered
                          end
                      end)),
           snd (upsertJob params w))
     else (Ok msg_disabled, w)).
Proof.
  unfold progress_briefing_report. destruct (enabled cfg); simpl; [|done].
  rewrite (bind_ok _ _ _ _ _ (upsertJob_run params w)). rewrite upsertJob_run.
  unfold ret. simpl. rewrite upsertNext_keeps_jobId. do 3 f_equal.
  do 3 f_equal. unfold upsertNext.
  destruct (currentRecord (jobId params) w) as [prev|];
    destruct params as [pid pt po ps pp pd pc pu pa]; simpl; by destruct ps.
Qed.

(* ===================================================================== *)
(** * What a whole tick preserves                                         *)
(* ===================================================================== *)

(** A relation between the worlds before and after that is reflexive,
    transitive and holds across each primitive write is kept by the
    observer, by the rendering and by the whole tick. The Discord write
    needs to be covered only when Discord is configured. *)
Section Frame.
Variable R : World -> World -> Prop.
Variable cfg : Config.
Hypothesis R_refl : forall w, R w w.
Hypothesis R_trans : forall w1 w2 w3, R w1 w2 -> R w2 w3 -> R w1 w3.
Hypothesis R_state : forall f w, R w (with_state f w).
Hypothesis R_reads : forall n w, R w (with_reads n w).
Hypothesis R_logger : forall l w, R w (with_logger l w).
Hypothesis R_stateFile : forall s w, R w (with_stateFile s w).
Hypothesis R_upsert : forall p w, R w (afterUpsert p w).
Hypothesis R_discord :
  discordConfigured cfg = true -> forall l w, R w (with_discord l w).

Lemma keeps_ret {A} (a : A) : keeps R (ret a).
Proof. intros w. apply R_refl. Qed.

Lemma keeps_throw {A} e : keeps R (@throw A e).
Proof. intros w. apply R_refl. Qed.

Lemma keeps_get : keeps R get.
Proof. intros w. apply R_refl. Qed.

Lemma keeps_getState : keeps R getState.
Proof. intros w. apply R_refl. Qed.

Lemma keeps_bind {A B} (m : M A) (f : A -> M B) :
  keeps R m -> (forall a, keeps R (f a)) -> keeps R (bind m f).
Proof.
  intros Hm Hf w. unfold bind. specialize (Hm w).
  destruct (m w) as [[a|e] w1]; simpl in *; [|done].
  eapply R_trans; [exact Hm | apply Hf].
Qed.

Lemma keeps_try_catch {A} (m : M A) h :
  keeps R m -> (forall e, keeps R (h e)) -> keeps R (try_catch m h).
Proof.
  intros Hm Hh w. unfold try_catch. specialize (Hm w).
  destruct (m w) as [[a|e] w1]; simpl in *; [done|].
  eapply R_trans; [exact Hm | apply Hh].
Qed.

Lemma keeps_forEach {A} (xs : list A) body :
  (forall x, keeps R (body x)) -> keeps R (forEach xs body).
Proof.
  intros Hb. induction xs as [|x xs IH]; simpl; [apply keeps_ret|].
  apply keeps_bind; [apply Hb | intros _; apply IH].
Qed.

Lemma keeps_modifyState f : keeps R (modifyState f).
Proof. intros w. apply R_state. Qed.

Lemma keeps_now : keeps R now.
Proof. intros w. apply R_reads. Qed.

Lemma keeps_logger lvl msg : keeps R (logger lvl msg).
Proof. intros w. apply R_logger. Qed.

Lemma keeps_saveState : keeps R saveState.
Proof. intros w. apply R_stateFile. Qed.

Lemma keeps_readJobs : keeps R readJobs.
Proof. intros w. rewrite readJobs_run. apply R_refl. Qed.

Lemma keeps_upsertJob p : keeps R (upsertJob p).
Proof. intros w. rewrite upsertJob_run. apply R_upsert. Qed.

Ltac keeps_step :=
  lazymatch goal with
  | |- keeps _ (bind _ _) => apply keeps_bind; [|intros ?]
  | |- keeps _ (ret _) => apply keeps_ret
  | |- keeps _ (throw _) => apply keeps_throw
  | |- keeps _ get => apply keeps_get
  | |- keeps _ getState => apply keeps_getState
  | |- keeps _ now => apply keeps_now
  | |- keeps _ saveState => apply keeps_saveState
  | |- keeps _ readJobs => apply keeps_readJobs
  | |- keeps _ (logger _ _) => apply keeps_logger
  | |- keeps _ (modifyState _) => apply keeps_modifyState
  | |- keeps _ (upsertJob _) => apply keeps_upsertJob
  | |- keeps _ (try_catch _ _) => apply keeps_try_catch; [|intros ?]
  | |- keeps _ (forEach _ _) => apply keeps_forEach; intros ?
  | |- keeps _ (if ?b then _ else _) => destruct b
  | |- keeps _ (match ?o with _ => _ end) => destruct o
  end.

Lemma keeps_readChunk path content maxBytes :
  keeps R (readChunk path content maxBytes).
Proof. unfold readChunk. cbv zeta. repeat keeps_step. Qed.

Lemma keeps_perAgentJobs c scope t : keeps R (perAgentJobs c scope t).
Proof. unfold perAgentJobs, perAgentJob. cbv zeta. repeat keeps_step. Qed.

Lemma keeps_escalate esc scope t : keeps R (escalate esc scope t).
Proof. unfold escalate. cbv zeta. repeat keeps_step. Qed.

Lemma keeps_observe c : keeps R (observeFromGatewayLogs c).
Proof.
  unfold observeFromGatewayLogs, resolveLogPath, todayLogPath. cbv zeta.
  repeat first
    [ apply keeps_readChunk
    | unfold reportErrors;
      apply keeps_bind; [apply keeps_perAgentJobs|intros ?];
      apply keeps_bind; [apply keeps_escalate|intros ?]
    | keeps_step ].
Qed.

Lemma keeps_renderBrief c : keeps R (renderBrief c).
Proof.
  unfold renderBrief. apply keeps_bind; [apply keeps_observe|intros ?].
  repeat keeps_step.
Qed.

Lemma keeps_afterPost text w : R w (afterPost cfg text w).
Proof.
  unfold afterPost.
  set (st := set_lastBrief _ _ _). set (lg := w_logger w ++ _).
  set (w1 := with_state (fun _ => st) w).
  set (w2 := with_stateFile (Some st) w1).
  set (w3 := with_reads (3 + w_reads w) w2).
  set (w4 := with_logger lg w3).
  apply (R_trans _ w1); [apply R_state|].
  apply (R_trans _ w2); [apply R_stateFile|].
  apply (R_trans _ w3); [apply R_reads|].
  assert (Hd : discordConfigured cfg = true \/ discordConfigured cfg = false)
    by (destruct (discordConfigured cfg); auto).
  destruct Hd as [Hd|Hd]; rewrite Hd.
  - apply (R_trans _ w4); [apply R_logger|].
    set (dl := w_discord w ++ _). apply (R_discord Hd dl w4).
  - apply (R_logger lg w3).
Qed.

Lemma keeps_postBrief jobs text : keeps R (postBrief cfg jobs text).
Proof.
  intros w. rewrite postBrief_run.
  destruct (shouldPost _ _ _); [|apply R_reads].
  unfold transportFails.
  assert (Hd : discordConfigured cfg = true \/ discordConfigured cfg = false)
    by (destruct (discordConfigured cfg); auto).
  destruct Hd as [Hd|Hd]; rewrite Hd; simpl.
  - assert (Hfail : R w (afterFailedPost w)).
    { unfold afterFailedPost.
      eapply R_trans; [apply (R_reads (2 + w_reads w))|]. apply R_logger. }
    destruct (w_discordPost w); simpl; [apply keeps_afterPost | done | done].
  - apply keeps_afterPost.
Qed.

Lemma keeps_tick : keeps R (tick cfg).
Proof.
  unfold tick. apply keeps_bind; [apply keeps_renderBrief|intros ?].
  apply keeps_postBrief.
Qed.

End Frame.

Lemma appendedOnly_refl w : appendedOnly w w.
Proof. exists []. by rewrite app_nil_r. Qed.

Lemma appendedOnly_trans w1 w2 w3 :
  appendedOnly w1 w2 -> appendedOnly w2 w3 -> appendedOnly w1 w3.
Proof.
  intros (a1 & H1 & F1) (a2 & H2 & F2). exists (a1 ++ a2).
  split; [by rewrite H2, H1, app_assoc | by apply Forall_app].
Qed.

(** X7. A scheduler tick only ever appends to [jobs.jsonl]: whatever the
    configuration and the log, the lines the file had are still there, in
    place, and everything after them is a record [upsertJob] wrote. *)
Theorem tick_only_appends_jobs (cfg : Config) (w : World) :
  appendedOnly w (snd (tick cfg w)).
Proof.
  assert (Hsame : forall w1 w2, w_jobs w2 = w_jobs w1 -> appendedOnly w1 w2).
  { intros w1 w2 H. exists []. unfold jobLines. by rewrite H, app_nil_r. }
  apply (keeps_tick appendedOnly cfg appendedOnly_refl appendedOnly_trans);
    try (intros; by apply Hsame).
  intros p w0. exists [Parsed (upsertNext p w0)]. split; [done|].
  repeat constructor. by eexists.
Qed.

(** X8. Without a Discord channel and token (or with Discord disabled) a
    tick delivers nothing to Discord, error escalations included. *)
Theorem tick_without_discord_sends_nothing (cfg : Config) (w : World) :
  discordConfigured cfg = false ->
  w_discord (snd (tick cfg w)) = w_discord w.
Proof.
  intros Hd. apply (keeps_tick sameDiscord cfg); unfold sameDiscord; try done.
  - intros w1 w2 w3 H1 H2. by rewrite H2.
  - congruence.
Qed.

Lemma tick_without_discord_sends_nothing_witness :
  w_discord (snd (tick cfg_watch world_pending_down)) = w_discord world_pending_down.
Proof.
  apply (tick_without_discord_sends_nothing cfg_watch world_pending_down).
  reflexivity.
Defined.

(* ===================================================================== *)
(** * Further properties of the log tailer                                *)
(* ===================================================================== *)

Lemma substring_zero s : forall n, substring n 0 s = "".
Proof. induction s as [|c s IH]; intros [|n]; simpl; auto. Qed.

Lemma substring_all s : substring 0 (String.length s) s = s.
Proof. induction s as [|c s IH]; simpl; [done | by rewrite IH]. Qed.

Lemma substring_app_r s t : substring (String.length s) (String.length t) (s +:+ t) = t.
Proof. induction s as [|c s IH]; simpl; [apply substring_all | done]. Qed.

Lemma string_length_app s t : String.length (s +:+ t) = (String.length s + String.length t)%nat.
Proof. induction s as [|c s IH]; simpl; [done | by rewrite IH]. Qed.

(** one read with a cap that is not negative: the text is the last [n]
    bytes of the file, and the cursor ends on this path at the end of the
    file *)
Lemma readChunk_ok path content maxBytes w :
  0 <= maxBytes ->
  let size := Text.len content in
  let st := w_state w in
  let start :=
    if rotated path content st then Z.max 0 (size - maxBytes)
    else Z.max 0 (pos (observe st)) in
  let n := Z.min maxBytes (size - start) in
  exists w',
    readChunk path content maxBytes w = (Ok (Text.slice (size - n) n content), w')
    /\ 0 <= n <= size
    /\ logPath (observe (w_state w')) = path
    /\ pos (observe (w_state w')) = size
    /\ lastSize (observe (w_state w')) = size
    /\ w_logs w' = w_logs w /\ w_jobs w' = w_jobs w /\ w_logger w' = w_logger w.
Proof.
  intros Hmax. cbv zeta. unfold rotated.
  set (size := Text.len content). set (st := w_state w).
  assert (Hsize : 0 <= size) by (unfold size, Text.len; lia).
  unfold readChunk, bind, getState, modifyState, modify, ret, throw.
  fold size st.
  destruct (bool_decide (logPath (observe st) ≠ path) || (size <? pos (observe st)))
    eqn:Hrot; simpl.
  - fold size.
    replace (Z.max 0 (Z.max 0 (size - maxBytes))) with (Z.max 0 (size - maxBytes)) by lia.
    replace (Z.max 0 (size - Z.max 0 (size - maxBytes)))
      with (size - Z.max 0 (size - maxBytes)) by lia.
    set (n := Z.min maxBytes (size - Z.max 0 (size - maxBytes))).
    assert (Hn : 0 <= n <= size) by (subst n; lia).
    assert ((n <? 0) = false) as -> by (apply Z.ltb_ge; lia).
    replace (Z.max 0 (size - n)) with (size - n) by lia.
    eexists. split; [reflexivity|]. simpl. done.
  - apply orb_false_elim in Hrot as [Hp Hs].
    apply bool_decide_eq_false_1 in Hp. apply dec_stable in Hp.
    apply Z.ltb_ge in Hs. fold st.
    replace (Z.max 0 (size - Z.max 0 (pos (observe st))))
      with (size - Z.max 0 (pos (observe st))) by lia.
    set (n := Z.min maxBytes (size - Z.max 0 (pos (observe st)))).
    assert (Hn : 0 <= n <= size) by (subst n; lia).
    assert ((n <? 0) = false) as -> by (apply Z.ltb_ge; lia).
    replace (Z.max 0 (size - n)) with (size - n) by lia.
    eexists. split; [reflexivity|]. simpl. done.
Qed.

(** X9. First sight of a file, a rotation to another path, or a file that
    shrank below the cursor: the tailer does not start at the beginning but
    reads the last [min(maxBytes, size)] bytes, and leaves the cursor on the
    new path at the end of the file. *)
Theorem tailer_restarts_at_tail (path content : string) (maxBytes : Z) (w : World) :
  0 <= maxBytes ->
  logPath (observe (w_state w)) <> path
  \/ Text.len content < pos (observe (w_state w)) ->
  let size := Text.len content in
  let n := Z.min maxBytes size in
  exists w',
    readChunk path content maxBytes w = (Ok (Text.slice (size - n) n content), w')
    /\ logPath (observe (w_state w')) = path
    /\ pos (observe (w_state w')) = size
    /\ lastSize (observe (w_state w')) = size.
Proof.
  intros Hmax Hrot size n.
  destruct (readChunk_ok path content maxBytes w Hmax)
    as (w' & Hrun & Hn & Hp & Hpos & Hls & _).
  assert (Hr : rotated path content (w_state w) = true).
  { unfold rotated. apply orb_true_iff. destruct Hrot as [H|H].
    - left. by apply bool_decide_eq_true_2.
    - right. by apply Z.ltb_lt. }
  rewrite Hr in Hrun.
  assert (Hsize : 0 <= size) by (unfold size, Text.len; lia).
  replace (Z.min maxBytes (Text.len content - Z.max 0 (Text.len content - maxBytes)))
    with n in Hrun by (subst n size; lia).
  exists w'. done.
Qed.

Lemma tailer_restarts_at_tail_witness :
  exists w',
    readChunk gwLog "0123456789" 4 world0
    = (Ok (Text.slice (10 - 4) 4 "0123456789"), w')
    /\ logPath (observe (w_state w')) = gwLog
    /\ pos (observe (w_state w')) = 10
    /\ lastSize (observe (w_state w')) = 10.
Proof.
  apply (tailer_restarts_at_tail gwLog "0123456789" 4 world0); [lia|].
  left. vm_compute. discriminate.
Defined.

Lemma readChunk_at_end path content maxBytes w :
  0 <= maxBytes ->
  logPath (observe (w_state w)) = path ->
  pos (observe (w_state w)) = Text.len content ->
  lastSize (observe (w_state w)) = Text.len content ->
  readChunk path content maxBytes w = (Ok "", w).
Proof.
  intros Hmax Hp Hpos Hls.
  destruct w as [st jb sf lg ck rd dp ls tl lo up dc].
  destruct st as [lb ln lc ob oe ol]. destruct ob as [lp ps lsz la lr cn].
  simpl in *. subst.
  unfold readChunk, bind, getState, modifyState, modify, ret, throw. simpl.
  rewrite bool_decide_eq_false_2 by (intros H; by apply H).
  rewrite Z.ltb_irrefl. simpl.
  assert (Hsize : 0 <= Text.len content) by (unfold Text.len; lia).
  replace (Z.max 0 (Text.len content)) with (Text.len content) by lia.
  replace (Z.max 0 (Text.len content - Text.len content)) with 0 by lia.
  replace (Z.min maxBytes 0) with 0 by lia. simpl.
  unfold Text.slice. simpl. by rewrite substring_zero.
Qed.

(** X10. A second read of a file that did not change returns no text and
    changes nothing: no byte is delivered twice. *)
Theorem tailer_rereads_nothing (path content : string) (maxBytes : Z) (w : World) :
  0 <= maxBytes ->
  exists text w1,
    readChunk path content maxBytes w = (Ok text, w1)
    /\ readChunk path content maxBytes w1 = (Ok "", w1).
Proof.
  intros Hmax.
  destruct (readChunk_ok path content maxBytes w Hmax)
    as (w' & Hrun & Hn & Hp & Hpos & Hls & _).
  eexists _, w'. split; [exact Hrun|]. by apply readChunk_at_end.
Qed.

Lemma tailer_rereads_nothing_witness :
  exists text w1,
    readChunk gwLog "0123456789" 4 world_tail = (Ok text, w1)
    /\ readChunk gwLog "0123456789" 4 w1 = (Ok "", w1).
Proof. apply (tailer_rereads_nothing gwLog "0123456789" 4 world_tail). lia. Defined.

(** X11. Text appended to the file between two reads is delivered by the
    second read exactly, when it fits the byte cap. *)
Theorem tailer_delivers_the_growth (path content more : string) (maxBytes : Z)
    (w : World) :
  0 <= maxBytes -> Text.len more <= maxBytes ->
  exists text w1 w2,
    readChunk path content maxBytes w = (Ok text, w1)
    /\ readChunk path (content +:+ more) maxBytes w1 = (Ok more, w2)
    /\ pos (observe (w_state w2)) = Text.len (content +:+ more).
Proof.
  intros Hmax Hfit.
  destruct (readChunk_ok path content maxBytes w Hmax)
    as (w1 & Hrun & Hn & Hp & Hpos & Hls & _).
  destruct (readChunk_ok path (content +:+ more) maxBytes w1 Hmax)
    as (w2 & Hrun2 & Hn2 & Hp2 & Hpos2 & _).
  eexists _, w1, w2. split; [exact Hrun|]. split; [|exact Hpos2].
  rewrite Hrun2. do 2 f_equal.
  assert (Hlen : Text.len (content +:+ more) = Text.len content + Text.len more).
  { unfold Text.len. rewrite string_length_app. lia. }
  assert (Hr : rotated path (content +:+ more) (w_state w1) = false).
  { unfold rotated. rewrite Hp, Hpos, Hlen.
    rewrite bool_decide_eq_false_2 by (intros H; by apply H). simpl.
    apply Z.ltb_ge. unfold Text.len. lia. }
  rewrite Hr, Hpos, Hlen.
  assert (Hc : 0 <= Text.len content) by (unfold Text.len; lia).
  assert (Hm : 0 <= Text.len more) by (unfold Text.len; lia).
  replace (Z.min maxBytes (Text.len content + Text.len more - Z.max 0 (Text.len content)))
    with (Text.len more) by lia.
  replace (Text.len content + Text.len more - Text.len more) with (Text.len content) by lia.
  unfold Text.slice, Text.len. rewrite !Nat2Z.id. apply substring_app_r.
Qed.

Lemma tailer_delivers_the_growth_witness :
  exists text w1 w2,
    readChunk gwLog "0123456789" 4 world_tail = (Ok text, w1)
    /\ readChunk gwLog ("0123456789" +:+ "abc") 4 w1 = (Ok "abc", w2)
    /\ pos (observe (w_state w2)) = Text.len ("0123456789" +:+ "abc").
Proof.
  apply (tailer_delivers_the_growth gwLog "0123456789" "abc" 4 world_tail).
  - lia.
  - vm_compute. discriminate.
Defined.

Lemma readChunk_negative path content maxBytes w :
  maxBytes < 0 ->
  exists e w',
    readChunk path content maxBytes w = (Throw e, w')
    /\ w_logger w' = w_logger w /\ w_jobs w' = w_jobs w
    /\ observeEscalation (w_state w') = observeEscalation (w_state w).
Proof.
  intros Hneg.
  assert (Hsize : 0 <= Text.len content) by (unfold Text.len; lia).
  unfold readChunk, bind, getState, modifyState, modify, ret, throw.
  destruct (bool_decide _ || _); simpl;
    match goal with
    | |- context [if ?a <? 0 then _ else _] =>
        assert ((a <? 0) = true) as -> by (apply Z.ltb_lt; lia)
    end; eexists _, _; (split; [reflexivity|]); done.
Qed.

(** X12. A negative [maxBytesPerTick] makes every observation of an
    existing log fail in the buffer allocation: the tick logs one error,
    writes no job and raises no escalation. *)
Theorem observer_fails_on_negative_cap (cfg : Config) (path content : string)
    (w : World) :
  obsEnabled cfg = true ->
  observeCfg cfg obs_logPath = Some path ->
  w_logs w path = Some content ->
  obsMaxBytes cfg < 0 ->
  exists msg w',
    observeFromGatewayLogs cfg w = (Ok tt, w')
    /\ w_logger w' = w_logger w ++ [(Error, msg)]
    /\ w_jobs w' = w_jobs w
    /\ observeEscalation (w_state w') = observeEscalation (w_state w).
Proof.
  intros Hen Hpath Hlog Hneg.
  destruct (readChunk_negative path content (obsMaxBytes cfg) w Hneg)
    as (e & w1 & Hrun & Hl & Hj & He).
  unfold observeFromGatewayLogs, resolveLogPath. rewrite Hen, Hpath. simpl.
  unfold bind at 1. unfold ret at 1.
  erewrite try_catch_throw.
  2:{ unfold bind at 1. unfold get at 1. rewrite Hlog.
      erewrite bind_throw; [reflexivity | exact Hrun]. }
  unfold logger, modify. eexists _, _. split; [reflexivity|]. simpl.
  by rewrite Hl, Hj, He.
Qed.

Lemma observer_fails_on_negative_cap_witness :
  exists msg w',
    observeFromGatewayLogs cfg_negative_cap (with_log "0123456789" world0) = (Ok tt, w')
    /\ w_logger w' = w_logger (with_log "0123456789" world0) ++ [(Error, msg)]
    /\ w_jobs w' = w_jobs (with_log "0123456789" world0)
    /\ observeEscalation (w_state w')
       = observeEscalation (w_state (with_log "0123456789" world0)).
Proof.
  apply (observer_fails_on_negative_cap cfg_negative_cap gwLog "0123456789"
           (with_log "0123456789" world0)); vm_compute; reflexivity.
Defined.

(* ===================================================================== *)
(** * Further properties of the health signal detector                    *)
(* ===================================================================== *)

Lemma sumCounts_assoc_set (m : Counts) k v :
  sumCounts (assoc_set m k v) = sumCounts m - nullish (assoc_get m k) 0 + v.
Proof.
  induction m as [|[k' v'] m IH]; simpl; [lia|].
  destruct (String.eqb k' k); simpl; [lia | rewrite IH; lia].
Qed.

Lemma sumCounts_bump m k : sumCounts (bump m k) = sumCounts m + 1.
Proof. unfold bump. rewrite sumCounts_assoc_set. lia. Qed.

Lemma tally1_step hit agent c m :
  let r := tally1 hit agent (c, m) in
  c <= fst r <= c + 1
  /\ sumCounts m <= sumCounts (snd r)
  /\ sumCounts (snd r) - sumCounts m <= fst r - c
  /\ (Text.nonempty agent = true -> sumCounts (snd r) - sumCounts m = fst r - c).
Proof.
  unfold tally1. destruct hit; simpl; [|lia].
  destruct (Text.nonempty agent); rewrite ?sumCounts_bump; lia.
Qed.

Lemma scanLine_countsWithin include exclude scope t l k :
  countsWithin k t -> countsWithin (k + 1) (scanLine include exclude scope t l).
Proof.
  intros (H1 & H2 & H3 & H4 & H5 & H6 & H7). unfold scanLine.
  destruct (negb (matches include exclude scope l)).
  { unfold countsWithin. lia. }
  cbv zeta. unfold countsWithin.
  cbn [count401 count405 count429 count5xx countExecutorFailed countExecFailed
       countPluginLoadFailed agents401 agents405 agents429 agents5xx
       agentsExecutorFailed].
  repeat match goal with
  | |- context [tally1 ?h ?a (?c, ?m)] =>
      let H := fresh "T" in
      pose proof (tally1_step h a c m) as H; cbv zeta in H;
      let r := fresh "r" in
      set (r := tally1 h a (c, m)) in *; clearbody r
  end.
  repeat match goal with |- context [if ?b then _ else _] => destruct b end; lia.
Qed.

Lemma scanLines_countsWithin_from include exclude scope lines : forall t k,
  countsWithin k t ->
  countsWithin (k + Z.of_nat (List.length lines))
    (fold_left (scanLine include exclude scope) lines t).
Proof.
  induction lines as [|l lines IH]; intros t k Ht; simpl fold_left.
  - replace (k + Z.of_nat (List.length (@nil string))) with k by (simpl; lia). done.
  - replace (k + Z.of_nat (List.length (l :: lines)))
      with (k + 1 + Z.of_nat (List.length lines)) by (simpl List.length; lia).
    apply IH. by apply scanLine_countsWithin.
Qed.

(** X13. The counts of one scan are consistent: for each kind of error the
    occurrences attributed to agents are at most the occurrences counted,
    and no count exceeds the number of lines scanned. *)
Theorem scan_counts_are_consistent (include exclude : list Regex.RegExp)
    (scope : Scope) (lines : list string) :
  countsWithin (Z.of_nat (List.length lines)) (scanLines include exclude scope lines).
Proof.
  unfold scanLines.
  apply (scanLines_countsWithin_from include exclude scope lines emptyTally 0).
  unfold countsWithin. simpl. lia.
Qed.

Lemma scanLine_fullyAttributed include exclude scope t l :
  (matches include exclude scope l = true -> extractAgent l <> "") ->
  fullyAttributed t -> fullyAttributed (scanLine include exclude scope t l).
Proof.
  intros Hl (H1 & H2 & H3 & H4 & H5). unfold scanLine.
  destruct (matches include exclude scope l); simpl negb; cbv iota; [|done].
  assert (Hne : Text.nonempty (extractAgent l) = true).
  { destruct (extractAgent l); [by destruct Hl | done]. }
  cbv zeta. unfold fullyAttributed.
  cbn [count401 count405 count429 count5xx countExecutorFailed countExecFailed
       countPluginLoadFailed agents401 agents405 agents429 agents5xx
       agentsExecutorFailed].
  repeat match goal with
  | |- context [tally1 ?h ?a (?c, ?m)] =>
      let H := fresh "T" in
      pose proof (tally1_step h a c m) as H; cbv zeta in H;
      destruct H as (_ & _ & _ & H); specialize (H Hne);
      let r := fresh "r" in
      set (r := tally1 h a (c, m)) in *; clearbody r
  end.
  lia.
Qed.

(** X14. When every matching line of a scan names an agent, every counted
    error is attributed: per kind, the per-agent counts add up to the
    count. *)
Theorem attributed_scan_adds_up (include exclude : list Regex.RegExp)
    (scope : Scope) (lines : list string) :
  (forall l, l ∈ lines -> matches include exclude scope l = true ->
             extractAgent l <> "") ->
  fullyAttributed (scanLines include exclude scope lines).
Proof.
  unfold scanLines. intros Hall.
  assert (H0 : fullyAttributed emptyTally) by (unfold fullyAttributed; simpl; lia).
  revert H0. generalize emptyTally.
  induction lines as [|l lines IH]; intros t Ht; simpl; [done|].
  apply IH.
  - intros l' Hl'. apply Hall. by right.
  - apply scanLine_fullyAttributed; [apply Hall; left | done].
Qed.

Lemma attributed_scan_adds_up_witness :
  fullyAttributed
    (scanLines [] [] gateway
       ["HTTP 401 for pm@gateway"; "all quiet"; "HTTP 503 for dev-prod@gateway"]).
Proof.
  apply (attributed_scan_adds_up [] [] gateway
           ["HTTP 401 for pm@gateway"; "all quiet"; "HTTP 503 for dev-prod@gateway"]).
  intros l Hl Hm.
  repeat (apply elem_of_cons in Hl as [->|Hl];
          [first [vm_compute in Hm; discriminate Hm | vm_compute; discriminate]|]).
  by apply elem_of_nil in Hl.
Defined.

(** X15. A line that matches an exclude pattern contributes nothing,
    whatever else it matches: the scan of a text is the scan of the text
    without its excluded lines. *)
Theorem excluded_lines_are_not_counted (include exclude : list Regex.RegExp)
    (scope : Scope) (lines : list string) :
  scanLines include exclude scope lines
  = scanLines include exclude scope
      (filter (fun l => notExcluded exclude l = true) lines).
Proof.
  unfold scanLines. generalize emptyTally.
  induction lines as [|l lines IH]; intros t; [done|].
  rewrite filter_cons. case_decide as Hex; simpl; [apply IH|].
  rewrite IH. f_equal. unfold scanLine, matches.
  unfold notExcluded in Hex. apply not_true_is_false, negb_false_iff in Hex.
  by rewrite Hex.
Qed.

Lemma scanLine_gateway include exclude t l :
  countExecutorFailed t = 0 /\ countExecFailed t = 0 /\ countPluginLoadFailed t = 0
  /\ agentsExecutorFailed t = [] ->
  let t' := scanLine include exclude gateway t l in
  countExecutorFailed t' = 0 /\ countExecFailed t' = 0 /\ countPluginLoadFailed t' = 0
  /\ agentsExecutorFailed t' = [].
Proof.
  intros (H1 & H2 & H3 & H4). unfold scanLine.
  destruct (negb (matches include exclude gateway l)); [done|].
  cbv zeta. rewrite (bool_decide_eq_false_2 (gateway = flock)) by done.
  simpl. done.
Qed.

(** X16. In gateway scope the three flock failure kinds (executor failed,
    exec failed, plugin load failed) are never counted, whatever the lines
    say. *)
Theorem gateway_scope_counts_no_flock_failures (include exclude : list Regex.RegExp)
    (lines : list string) :
  let t := scanLines include exclude gateway lines in
  countExecutorFailed t = 0 /\ countExecFailed t = 0 /\ countPluginLoadFailed t = 0
  /\ agentsExecutorFailed t = [].
Proof.
  cbv zeta. unfold scanLines.
  assert (H0 : countExecutorFailed emptyTally = 0 /\ countExecFailed emptyTally = 0
               /\ countPluginLoadFailed emptyTally = 0
               /\ agentsExecutorFailed emptyTally = []) by done.
  revert H0. generalize emptyTally.
  induction lines as [|l lines IH]; intros t Ht; simpl; [done|].
  apply IH. by apply scanLine_gateway.
Qed.

(** X17. The persistent counters accumulate: after the counts of a scan
    were added, the counter of an agent whose errors can be counted (it has
    a numeric counter, or none yet and a name other than that of a member
    every object inherits) is its counter before plus the errors of all
    kinds attributed to it in the scan. Whether an agent's errors can be
    counted never changes, and an agent for which they cannot holds no
    number: under a name such as constructor the counter object keeps a
    text, or nothing. *)
Theorem counters_accumulate_scan_counts (include exclude : list Regex.RegExp)
    (scope : Scope) (lines : list string) (scopeCounters : ScopeCounters)
    (agent : string) :
  let t := scanLines include exclude scope lines in
  numOf (bumpAll t scopeCounters) agent
  = numOf scopeCounters agent
    + (if counted scopeCounters agent then tickTotal t agent else 0)
  /\ counted (bumpAll t scopeCounters) agent = counted scopeCounters agent
  /\ (own_get scopeCounters agent = None -> objectMember agent = true ->
      forall n, own_get (bumpAll t scopeCounters) agent <> Some (CNum n)).
Proof.
  cbv zeta. split_and!.
  - apply numOf_bumpAll, scanLines_bumped.
  - apply counted_bumpAll.
  - intros Hnone Hmem n Hown. apply own_number in Hown as [Hc _].
    rewrite counted_bumpAll in Hc. unfold counted in Hc.
    rewrite Hnone, Hmem in Hc. discriminate Hc.
Qed.


(* ===================================================================== *)
(** * Further properties of the briefing scheduler                        *)
(* ===================================================================== *)

Lemma many_stops_at_LF {R} ts body (cont : option ascii -> string -> option R) r :
  forall prev,
  oneLine ts = true ->
  (forall p, cont p (String Text.LF body) = Some r) ->
  Regex.many false (Regex.NoneOf [(Text.LF, Text.LF)]) prev
    (ts +:+ String Text.LF body) cont = Some r.
Proof.
  induction ts as [|c ts IH]; intros prev Hone Hcont.
  - simpl. apply Hcont.
  - simpl in Hone. apply andb_true_iff in Hone as [Hc Hts].
    apply negb_true_iff in Hc.
    simpl. unfold Regex.cls_match, Regex.cls_base. simpl existsb.
    rewrite in_range_single, Hc. simpl.
    by rewrite IH.
Qed.

Lemma run_lit {R} lit_text : forall prev,
  lit_text <> "" ->
  exists q, forall s cap (cont : option ascii -> string -> option string -> option R),
    Regex.run false (Regex.lit lit_text) prev (lit_text +:+ s) cap cont = cont q s cap.
Proof.
  induction lit_text as [|c p IH]; intros prev Hne; [done|].
  destruct p as [|d p].
  - exists (Some c). intros s cap cont. simpl.
    unfold Regex.cls_match, Regex.cls_base. by rewrite Ascii.eqb_refl.
  - destruct (IH (Some c)) as [q Hq]; [done|].
    exists q. intros s cap cont.
    change (Regex.lit (String c (String d p)))
      with (Regex.Seq (Regex.One (Regex.Lit c)) (Regex.lit (String d p))).
    change (String c (String d p) +:+ s) with (String c (String d p +:+ s)).
    cbn [Regex.run]. unfold Regex.cls_match, Regex.cls_base.
    rewrite Ascii.eqb_refl. apply Hq.
Qed.

Lemma search_hit ci r prev s m :
  Regex.run ci r prev s None (fun _ t c => Some (Regex.mkMatch EmptyString t c)) = Some m ->
  Regex.search ci r prev s = Some m.
Proof. intros H. destruct s; simpl; by rewrite H. Qed.

Lemma header_strip timestamp body :
  Text.nonempty timestamp = true -> oneLine timestamp = true ->
  withoutHeader (briefHeader timestamp +:+ String Text.LF body) = body.
Proof.
  intros Hne Hone. destruct timestamp as [|c ts]; [done|].
  simpl in Hone. apply andb_true_iff in Hone as [Hc Hts].
  apply negb_true_iff in Hc.
  unfold withoutHeader, Regex.remove_first, Regex.exec, rx_header, briefHeader.
  cbn [Regex.pattern Regex.ignoreCase Regex.rx Regex.seq].
  destruct (run_lit (R:=Regex.MatchResult) "[progress-briefing] " None) as [q Hq]; [done|].
  rewrite (search_hit _ _ _ _ (Regex.mkMatch "" body None)); [reflexivity|].
  cbn [Regex.run].
  replace (("[progress-briefing] " +:+ String c ts) +:+ String Text.LF body)
    with ("[progress-briefing] " +:+ String c (ts +:+ String Text.LF body))
    by reflexivity.
  rewrite Hq.
  unfold Regex.cls_match at 1. unfold Regex.cls_base. simpl existsb.
  rewrite in_range_single, Hc. simpl negb. cbv iota.
  apply many_stops_at_LF; [done|].
  intros p. simpl. reflexivity.
Qed.

(** X18. The header line of a briefing, with the line break after it, is
    what the duplicate check leaves out: for a timestamp that is not empty
    and has no line break, what remains of header, line break and body is
    the body. *)
Theorem header_is_left_out (timestamp body : string) :
  Text.nonempty timestamp = true -> oneLine timestamp = true ->
  withoutHeader (briefHeader timestamp +:+ String Text.LF body) = body.
Proof. apply header_strip. Qed.

Lemma header_is_left_out_witness :
  withoutHeader (briefHeader "1/1/2026, 9:00:00 AM" +:+ String Text.LF "(no activity)")
  = "(no activity)".
Proof.
  apply (header_is_left_out "1/1/2026, 9:00:00 AM" "(no activity)"); reflexivity.
Defined.

(** X19. A briefing that differs from the last posted one only in the
    timestamp of its header is not posted, however much time has passed,
    as long as no escalation is pending: the tick only takes its two clock
    readings. *)
Theorem timestamp_change_alone_does_not_post (cfg : Config) (jobs : list JobRecord)
    (ts1 ts2 body : string) (w : World) :
  Text.nonempty ts1 = true -> oneLine ts1 = true ->
  Text.nonempty ts2 = true -> oneLine ts2 = true ->
  lastBriefContent (w_state w) = Some (briefHeader ts1 +:+ String Text.LF body) ->
  pending (observeEscalation (w_state w)) = false ->
  postBrief cfg jobs (briefHeader ts2 +:+ String Text.LF body) w
  = (Ok tt, with_reads (2 + w_reads w)%nat w).
Proof.
  intros N1 O1 N2 O2 Hlast Hpend. rewrite postBrief_run, Hlast, Hpend. simpl nullish.
  rewrite !header_strip by done.
  rewrite bool_decide_eq_true_2 by done.
  unfold shouldPost. simpl. by rewrite andb_false_r.
Qed.

Lemma timestamp_change_alone_does_not_post_witness :
  postBrief cfg_discord_on []
    (briefHeader "1/1/2026, 9:05:00 AM" +:+ String Text.LF "(no activity)") world_posted
  = (Ok tt, with_reads (2 + w_reads world_posted)%nat world_posted).
Proof.
  apply (timestamp_change_alone_does_not_post cfg_discord_on []
           "1/1/2026, 9:00:00 AM" "1/1/2026, 9:05:00 AM" "(no activity)" world_posted);
    reflexivity.
Defined.

(** X20. Once a briefing was posted, the same text is not posted again by
    the next decision: the successful post recorded the text and cleared the
    escalation. *)
Theorem posted_text_is_not_posted_again (cfg : Config) (jobs jobs' : list JobRecord)
    (text : string) (w : World) :
  publishDue cfg text w -> transportFails cfg w = false ->
  exists w1,
    postBrief cfg jobs text w = (Ok tt, w1)
    /\ posted cfg text w w1
    /\ postBrief cfg jobs' text w1 = (Ok tt, with_reads (2 + w_reads w1)%nat w1).
Proof.
  intros Hdue Hup. apply publishDue_decide in Hdue.
  rewrite postBrief_run, Hdue, Hup. eexists. split; [reflexivity|].
  split; [done|].
  rewrite postBrief_run.
  assert (Hlast : lastBriefContent (w_state (afterPost cfg text w)) = Some text) by done.
  assert (Hpend : pending (observeEscalation (w_state (afterPost cfg text w))) = false).
  { unfold afterPost. simpl.
    destruct (pending (observeEscalation (w_state w))) eqn:E; simpl; done. }
  rewrite Hlast, Hpend. simpl nullish.
  rewrite bool_decide_eq_true_2 by done.
  unfold shouldPost. simpl. by rewrite andb_false_r.
Qed.

Lemma posted_text_is_not_posted_again_witness :
  exists w1,
    postBrief cfg_watch [] "(no jobs)" world_pending_up = (Ok tt, w1)
    /\ posted cfg_watch "(no jobs)" world_pending_up w1
    /\ postBrief cfg_watch [] "(no jobs)" w1 = (Ok tt, with_reads (2 + w_reads w1)%nat w1).
Proof.
  apply (posted_text_is_not_posted_again cfg_watch [] [] "(no jobs)" world_pending_up).
  - right. reflexivity.
  - reflexivity.
Defined.

Lemma inState_filter s jobs :
  s <> registered ->
  inState s (filter (fun j => bucket j <> registered) jobs) = inState s jobs.
Proof.
  intros Hs. unfold inState. induction jobs as [|j jobs IH]; [done|].
  rewrite (filter_cons (fun j => bucket j <> registered)).
  rewrite (filter_cons (fun j => bucket j = s) j jobs).
  case_decide as H1.
  - rewrite filter_cons. case_decide; by rewrite IH.
  - rewrite IH. case_decide as H2; [congruence | done].
Qed.

(** X21. Jobs in state [registered], and jobs without a state, never show
    in a briefing: the text is the same as without them. *)
Theorem registered_jobs_are_not_briefed (jobs : list JobRecord)
    (header : option string) (toolLines : list string) :
  formatBrief jobs header toolLines
  = formatBrief (filter (fun j => bucket j <> registered) jobs) header toolLines.
Proof. unfold formatBrief. by rewrite !inState_filter. Qed.

(* ===================================================================== *)
(** * Activity tracking: the tool-call hooks                              *)
(* ===================================================================== *)

Lemma split_on_cons sep s : exists x l, split_on sep s = x :: l.
Proof.
  induction s as [|c s (x & l & IH)]; simpl; [by eexists _, _|].
  rewrite IH. destruct (Ascii.eqb c sep); by eexists _, _.
Qed.

Lemma split_on_colonFree a rest :
  colonFree a = true ->
  split_on ":"%char (a +:+ String ":"%char rest) = a :: split_on ":"%char rest.
Proof.
  induction a as [|c a IH]; intros Hfree.
  - simpl. destruct (split_on_cons ":"%char rest) as (x & l & ->). done.
  - simpl in Hfree. apply andb_true_iff in Hfree as [Hc Ha].
    apply negb_true_iff in Hc.
    change (String c a +:+ String ":"%char rest)
      with (String c (a +:+ String ":"%char rest)).
    cbn [split_on]. rewrite (IH Ha), Hc. done.
Qed.

Lemma split_on_colonFree_end a :
  colonFree a = true -> split_on ":"%char a = [a].
Proof.
  induction a as [|c a IH]; intros Hfree; [done|].
  simpl in Hfree. apply andb_true_iff in Hfree as [Hc Ha].
  apply negb_true_iff in Hc. cbn [split_on]. by rewrite (IH Ha), Hc.
Qed.

Lemma endsWith_app s suffix : endsWith (s +:+ suffix) suffix = true.
Proof.
  induction s as [|c s IH].
  - change ("" +:+ suffix) with suffix.
    destruct suffix; cbn [endsWith]; by rewrite String.eqb_refl.
  - change (String c s +:+ suffix) with (String c (s +:+ suffix)).
    cbn [endsWith]. rewrite IH. apply orb_true_r.
Qed.

Lemma append_assoc (a b c : string) : (a +:+ b) +:+ c = a +:+ (b +:+ c).
Proof.
  induction a as [|x a IH]; [done|].
  change (String x ((a +:+ b) +:+ c) = String x (a +:+ (b +:+ c))). by f_equal.
Qed.

Lemma prefix_append p s : String.prefix p (p +:+ s) = true.
Proof.
  induction p as [|c p IH]; [by destruct s|].
  simpl. destruct (ascii_dec c c); [exact IH | done].
Qed.

(** X22. The job id under which the hooks file an agent is recognised by
    the agents tool, which reads the agent back as the part of the agent id
    before its first colon: an id without a colon comes back whole, a
    session key used as id comes back cut. *)
Theorem agent_job_id_reads_back (a rest : string) :
  colonFree a = true ->
  extractAgentId (agentJobId a) = a
  /\ extractAgentId (agentJobId (a +:+ String ":"%char rest)) = a
  /\ (forall id j, jobId j = Some (agentJobId id) -> isAgentCurrentJob j = true).
Proof.
  intros Hfree. unfold extractAgentId, agentJobId. split_and!.
  - change ("agent:" +:+ a +:+ ":current")
      with ("agent" +:+ String ":"%char (a +:+ String ":"%char "current")).
    rewrite (split_on_colonFree "agent") by done.
    rewrite (split_on_colonFree a) by done. done.
  - rewrite append_assoc.
    change ("agent:" +:+ a +:+ String ":"%char rest +:+ ":current")
      with ("agent" +:+ String ":"%char (a +:+ String ":"%char (rest +:+ ":current"))).
    rewrite (split_on_colonFree "agent") by done.
    rewrite (split_on_colonFree a) by done.
    destruct (split_on_cons ":"%char (rest +:+ ":current")) as (x & l & ->).
    cbn [List.length nth].
    destruct (3 <=? Z.of_nat (S (S (S (List.length l))))) eqn:E; [done|].
    apply Z.leb_gt in E. lia.
  - intros id j Hj. unfold isAgentCurrentJob. rewrite Hj.
    change ("agent:" +:+ id +:+ ":current") with (("agent:" +:+ id) +:+ ":current") at 2.
    by rewrite endsWith_app, prefix_append.
Qed.

Lemma agent_job_id_reads_back_witness :
  extractAgentId (agentJobId "main") = "main"
  /\ extractAgentId (agentJobId ("main" +:+ String ":"%char "discord:123")) = "main"
  /\ (forall id j, jobId j = Some (agentJobId id) -> isAgentCurrentJob j = true).
Proof. apply (agent_job_id_reads_back "main" "discord:123"). reflexivity. Defined.

(** X23. With the default exclusions the plugin's own four tools are not
    tracked: neither hook reads the clock, logs, writes a job or changes
    the tracking state when one of them is called. *)
Theorem own_tools_are_not_tracked (acfg : option ActivityConfig) (tool : string)
    (event : ToolEvent) (ctx : HookContext) (act : Activity) (w : World) :
  acfg ≫= act_excludeTools = None ->
  tool ∈ [ "progress_briefing_report"; "progress_briefing_status";
           "progress_briefing_agents"; "progress_briefing_reset" ] ->
  ev_toolName event = Some tool ->
  before_tool_call acfg event ctx act w = (Ok act, w)
  /\ tool_result_persist acfg event ctx act w = (Ok (Some act), w).
Proof.
  intros Hex Hin Hev.
  assert (Hun : untracked acfg (Some tool) = true).
  { unfold untracked, excludeTools. rewrite Hex. simpl nullish.
    apply orb_true_iff. right. by apply bool_decide_eq_true_2. }
  unfold before_tool_call, tool_result_persist. rewrite Hev. cbn [orelse].
  rewrite Hun. destruct (negb (activityEnabled acfg)); split; reflexivity.
Qed.

Lemma own_tools_are_not_tracked_witness :
  before_tool_call None (mkToolEvent (Some "progress_briefing_report") None)
    ctx_main noActivity world0 = (Ok noActivity, world0)
  /\ tool_result_persist None (mkToolEvent (Some "progress_briefing_report") None)
       ctx_main noActivity world0 = (Ok (Some noActivity), world0).
Proof.
  apply (own_tools_are_not_tracked None "progress_briefing_report"
           (mkToolEvent (Some "progress_briefing_report") None) ctx_main noActivity
           world0); [reflexivity | | reflexivity].
  left.
Defined.

Lemma mapGet_mapSet {V} (m : list (string * V)) k v : mapGet (mapSet m k v) k = Some v.
Proof.
  induction m as [|[k' v'] m IH]; simpl; [by rewrite String.eqb_refl|].
  destruct (String.eqb k' k) eqn:E; simpl; by rewrite E.
Qed.

Lemma mapDelete_mapSet {V} (m : list (string * V)) k v :
  mapGet m k = None -> mapDelete (mapSet m k v) k = m.
Proof.
  induction m as [|[k' v'] m IH]; simpl; [by rewrite String.eqb_refl|].
  destruct (String.eqb k' k) eqn:E; [done|]. simpl. rewrite E.
  intros H. by rewrite IH.
Qed.

Lemma findActive_mapSet m k call :
  mapGet m k = None -> findActive m (a_toolName call) = None ->
  findActive (mapSet m k call) (a_toolName call) = Some (k, call).
Proof.
  induction m as [|[k' c'] m IH]; simpl; [by rewrite String.eqb_refl|].
  destruct (String.eqb k' k) eqn:E; [done|].
  destruct (String.eqb (a_toolName c') (a_toolName call)) eqn:E2; [done|].
  intros H1 H2. simpl. rewrite E2. by apply IH.
Qed.

Lemma lastN_length {A} n (l : list A) : (List.length (lastN n l) <= n)%nat.
Proof. unfold lastN. rewrite length_skipn. lia. Qed.

Lemma lastN_snoc {A} n (l : list A) x :
  (0 < n)%nat -> last (lastN n (l ++ [x])) = Some x.
Proof.
  intros Hn. unfold lastN. rewrite length_app. simpl.
  rewrite skipn_app.
  replace (List.length l + 1 - n - List.length l)%nat with 0%nat by lia.
  simpl. apply last_snoc.
Qed.

Lemma agentJobId_nonempty a : Text.nonempty (agentJobId a) = true.
Proof. done. Qed.

(** the run of the [before_tool_call] handler on a tracked tool *)
Lemma before_tool_call_run acfg event ctx act w tool :
  activityEnabled acfg = true -> ev_toolName event = Some tool ->
  untracked acfg (Some tool) = false ->
  let r := w_reads w in
  let agentId := firstTruthy (ctx_agentId ctx) (ctx_sessionKey ctx) "unknown" in
  let params := nullish (ev_params event) [] in
  let summary := formatParamsSummary params 60 in
  let callId := Text.num (callSeq act + 1) in
  let patch :=
    mkJob (Some (agentJobId agentId)) (Some (agentId +:+ " (auto)")) (Some agentId)
      (Some running) None (Some ("Last tool: " +:+ tool +:+ " " +:+ summary)) None
      (Some (w_clock w (3 + r)%nat)) None in
  let w1 :=
    with_logger
      (w_logger w ++ [(Debug, "[progress-briefing] before_tool_call: " +:+ tool
                               +:+ " (id=" +:+ callId +:+ ")")])
      (with_reads (4 + r)%nat w) in
  before_tool_call acfg event ctx act w
  = (Ok (mkActivity (callSeq act + 1)
           (mapSet (activeTools act) callId
              (mkActiveToolCall tool params (ctx_sessionKey ctx) (ctx_agentId ctx)
                 (w_clock w (2 + r)%nat)))
           (recentTools act)
           (mapSet (agentActivity act) agentId
              (mkAgentActivity (w_clock w r) tool summary
                 (lastN 5
                    (agentRecentTools
                       (nullish (mapGet (agentActivity act) agentId)
                          (mkAgentActivity 0 "" "" []))
                     ++ [mkToolStamp tool summary (w_clock w (1 + r)%nat)]))))),
     afterUpsert patch w1).
Proof.
  intros Hen Hev Hun. cbv zeta.
  unfold before_tool_call. rewrite Hen, Hev, Hun. cbn [negb nullish].
  destruct w as [st jb sf lg ck rd dp ls tl lo up dc].
  run_m. rewrite upsertJob_run. reflexivity.
Qed.

(** X24. A tracked tool call files its agent as running: the hook stores
    the record [agent:<id>:current] with state [running], the agent as
    owner and the tool in the detail; the id is the agent id, else the
    session key, else "unknown"; the [updatedAt] the hook passes is
    overwritten by [upsertJob]'s own reading. The call gets the next
    sequence number and is active under it, and it is the last of at most
    five recent calls kept for the agent. *)
Theorem tool_call_files_agent_as_running (acfg : option ActivityConfig)
    (event : ToolEvent) (ctx : HookContext) (act : Activity) (w : World)
    (tool : string) :
  activityEnabled acfg = true -> ev_toolName event = Some tool ->
  untracked acfg (Some tool) = false ->
  let agentId := firstTruthy (ctx_agentId ctx) (ctx_sessionKey ctx) "unknown" in
  let summary := formatParamsSummary (nullish (ev_params event) []) 60 in
  exists act' w' job mine,
    before_tool_call acfg event ctx act w = (Ok act', w')
    /\ currentRecord (Some (agentJobId agentId)) w' = Some job
    /\ state job = Some running /\ owner job = Some agentId
    /\ detail job = Some ("Last tool: " +:+ tool +:+ " " +:+ summary)
    /\ updatedAt job = Some (w_clock w (w_reads w' - 2)%nat)
    /\ (w_reads w + 6 <= w_reads w')%nat
    /\ callSeq act' = callSeq act + 1
    /\ mapGet (activeTools act') (Text.num (callSeq act')) 
       = Some (mkActiveToolCall tool (nullish (ev_params event) [])
                 (ctx_sessionKey ctx) (ctx_agentId ctx) (w_clock w (2 + w_reads w)%nat))
    /\ recentTools act' = recentTools act
    /\ mapGet (agentActivity act') agentId = Some mine
    /\ lastToolName mine = tool
    /\ (List.length (agentRecentTools mine) <= 5)%nat
    /\ last (agentRecentTools mine)
       = Some (mkToolStamp tool summary (w_clock w (1 + w_reads w)%nat)).
Proof.
  intros Hen Hev Hun agentId summary.
  rewrite (before_tool_call_run acfg event ctx act w tool Hen Hev Hun).
  cbv zeta. fold agentId summary.
  eexists _, _, _, _. split; [reflexivity|].
  split; [apply currentRecord_afterUpsert; [apply agentJobId_nonempty | done]|].
  cbn [callSeq activeTools recentTools agentActivity].
  rewrite !mapGet_mapSet.
  split_and!; try done.
  - unfold upsertNext. by destruct (currentRecord _ _).
  - unfold upsertNext. by destruct (currentRecord _ _).
  - unfold upsertNext. by destruct (currentRecord _ _).
  - unfold upsertNext, afterUpsert, upsertReads.
    destruct (currentRecord _ _); simpl; do 2 f_equal; lia.
  - unfold afterUpsert, upsertReads. destruct (currentRecord _ _); simpl; lia.
  - apply lastN_length.
  - apply lastN_snoc. lia.
Qed.

Lemma tool_call_files_agent_as_running_witness :
  exists act' w' job mine,
    before_tool_call None ev_exec ctx_main noActivity world0 = (Ok act', w')
    /\ currentRecord (Some (agentJobId "main")) w' = Some job
    /\ state job = Some running /\ owner job = Some "main"
    /\ detail job = Some ("Last tool: " +:+ "exec" +:+ " " +:+ "`npm test`")
    /\ updatedAt job = Some (w_clock world0 (w_reads w' - 2)%nat)
    /\ (w_reads world0 + 6 <= w_reads w')%nat
    /\ callSeq act' = callSeq noActivity + 1
    /\ mapGet (activeTools act') (Text.num (callSeq act')) 
       = Some (mkActiveToolCall "exec" [("command", JsString "npm test")]
                 (Some "agent:main:discord") (Some "main")
                 (w_clock world0 (2 + w_reads world0)%nat))
    /\ recentTools act' = recentTools noActivity
    /\ mapGet (agentActivity act') "main" = Some mine
    /\ lastToolName mine = "exec"
    /\ (List.length (agentRecentTools mine) <= 5)%nat
    /\ last (agentRecentTools mine)
       = Some (mkToolStamp "exec" "`npm test`" (w_clock world0 (1 + w_reads world0)%nat)).
Proof.
  apply (tool_call_files_agent_as_running None ev_exec ctx_main noActivity world0 "exec");
    reflexivity.
Defined.

Lemma popWhileOver_ok {A} (cap : Z) :
  0 <= cap -> forall fuel (l : list A),
  (List.length l <= fuel + Z.to_nat cap)%nat ->
  popWhileOver fuel cap l = Some (firstn (Z.to_nat cap) l).
Proof.
  intros Hcap. induction fuel as [|fuel IH]; intros l Hfuel.
  - simpl. assert ((cap <? Z.of_nat (List.length l)) = false) as ->
      by (apply Z.ltb_ge; lia).
    rewrite firstn_all2 by lia. done.
  - simpl. destruct (cap <? Z.of_nat (List.length l)) eqn:E.
    + apply Z.ltb_lt in E. rewrite IH.
      * rewrite firstn_removelast by lia. done.
      * destruct l as [|x l]; [simpl in *; lia|].
        pose proof (removelast_firstn_len (x :: l)) as Hr.
        rewrite Hr, length_firstn. simpl in *. lia.
    + apply Z.ltb_ge in E. rewrite firstn_all2 by lia. done.
Qed.

Lemma popWhileOver_diverges {A} (cap : Z) :
  cap < 0 -> forall fuel (l : list A), popWhileOver fuel cap l = None.
Proof.
  intros Hcap. induction fuel as [|fuel IH]; intros l; simpl;
    assert ((cap <? Z.of_nat (List.length l)) = true) as ->
      by (apply Z.ltb_lt; lia); [done | apply IH].
Qed.

(** X25. A tracked tool result is put in front of the recent calls, and
    the list is cut to [maxRecent] entries (when that is not negative): the
    newest calls stay, in order. The entry's duration is the difference of
    its two timestamps. The hook writes no job and leaves the plugin state
    alone. *)
Theorem recent_calls_are_capped (acfg : option ActivityConfig) (event : ToolEvent)
    (ctx : HookContext) (act : Activity) (w : World) (tool : string) :
  activityEnabled acfg = true ->
  orelse (ev_toolName event) (ctx_toolName ctx) = Some tool ->
  untracked acfg (Some tool) = false ->
  0 <= maxRecentTools acfg ->
  exists act' w' entry,
    tool_result_persist acfg event ctx act w = (Ok (Some act'), w')
    /\ recentTools act'
       = firstn (Z.to_nat (maxRecentTools acfg)) (entry :: recentTools act)
    /\ Z.of_nat (List.length (recentTools act')) <= maxRecentTools acfg
    /\ r_toolName entry = tool
    /\ r_durationMs entry = r_endedAt entry - r_startedAt entry
    /\ callSeq act' = callSeq act /\ agentActivity act' = agentActivity act
    /\ w_jobs w' = w_jobs w /\ w_state w' = w_state w.
Proof.
  intros Hen Hname Hun Hcap.
  unfold tool_result_persist. rewrite Hen, Hname, Hun. cbn [negb nullish].
  destruct w as [st jb sf lg ck rd dp ls tl lo up dc].
  destruct (findActive (activeTools act) tool) as [[id call]|];
    [destruct (Text.nonempty id)|]; run_m;
    rewrite popWhileOver_ok by (done || (simpl; lia));
    (eexists _, _, _; split; [reflexivity|]);
    cbn [recentTools callSeq agentActivity r_toolName r_durationMs r_endedAt
         r_startedAt w_jobs w_state];
    (split_and!; try done; rewrite length_firstn; lia).
Qed.

Lemma recent_calls_are_capped_witness :
  exists act' w' entry,
    tool_result_persist None ev_exec ctx_main noActivity world0 = (Ok (Some act'), w')
    /\ recentTools act'
       = firstn (Z.to_nat (maxRecentTools None)) (entry :: recentTools noActivity)
    /\ Z.of_nat (List.length (recentTools act')) <= maxRecentTools None
    /\ r_toolName entry = "exec"
    /\ r_durationMs entry = r_endedAt entry - r_startedAt entry
    /\ callSeq act' = callSeq noActivity
    /\ agentActivity act' = agentActivity noActivity
    /\ w_jobs w' = w_jobs world0 /\ w_state w' = w_state world0.
Proof.
  apply (recent_calls_are_capped None ev_exec ctx_main noActivity world0 "exec");
    [reflexivity | reflexivity | reflexivity | vm_compute; discriminate].
Defined.

(** X26. With a negative [maxRecent] the trimming loop of the result hook
    never ends: its condition still holds on the empty list, where [pop]
    removes nothing. No number of iterations completes it, so the hook
    returns for no tracked tool. *)
Theorem negative_cap_never_finishes_trimming (acfg : option ActivityConfig)
    (event : ToolEvent) (ctx : HookContext) (act : Activity) (w : World)
    (tool : string) :
  activityEnabled acfg = true ->
  orelse (ev_toolName event) (ctx_toolName ctx) = Some tool ->
  untracked acfg (Some tool) = false ->
  maxRecentTools acfg < 0 ->
  (forall fuel (l : list RecentToolCall),
     popWhileOver fuel (maxRecentTools acfg) l = None)
  /\ fst (tool_result_persist acfg event ctx act w) = Ok None.
Proof.
  intros Hen Hname Hun Hcap. split; [by apply popWhileOver_diverges|].
  unfold tool_result_persist. rewrite Hen, Hname, Hun. cbn [negb nullish].
  destruct w as [st jb sf lg ck rd dp ls tl lo up dc].
  destruct (findActive (activeTools act) tool) as [[id call]|];
    [destruct (Text.nonempty id)|]; run_m;
    by rewrite popWhileOver_diverges.
Qed.

Lemma negative_cap_never_finishes_trimming_witness :
  (forall fuel (l : list RecentToolCall),
     popWhileOver fuel (maxRecentTools (Some (mkActivityConfig None (Some (-1)) None))) l
     = None)
  /\ fst (tool_result_persist (Some (mkActivityConfig None (Some (-1)) None)) ev_exec
            ctx_main noActivity world0) = Ok None.
Proof.
  apply (negative_cap_never_finishes_trimming
           (Some (mkActivityConfig None (Some (-1)) None)) ev_exec ctx_main noActivity
           world0 "exec");
    [reflexivity | reflexivity | reflexivity | vm_compute; reflexivity].
Defined.

Lemma orelse_same {A} (x : option A) : orelse x x = x.
Proof. by destruct x. Qed.

Lemma num_nonempty z : Text.nonempty (Text.num z) = true.
Proof.
  unfold Text.num. destruct (Z.to_int z) as [d|d]; [|done].
  by destruct d.
Qed.

(** the run of the result hook when an active call of the tool exists *)
Lemma persist_run_matched acfg event ctx act w tool id call :
  activityEnabled acfg = true ->
  orelse (ev_toolName event) (ctx_toolName ctx) = Some tool ->
  untracked acfg (Some tool) = false ->
  0 <= maxRecentTools acfg ->
  findActive (activeTools act) tool = Some (id, call) ->
  Text.nonempty id = true ->
  tool_result_persist acfg event ctx act w
  = (Ok (Some
           (mkActivity (callSeq act) (mapDelete (activeTools act) id)
              (firstn (Z.to_nat (maxRecentTools acfg))
                 (mkRecentToolCall tool (a_params call)
                    (orelse (ctx_sessionKey ctx) (a_sessionKey call))
                    (orelse (ctx_agentId ctx) (a_agentId call))
                    (a_startedAt call) (w_clock w (w_reads w))
                    (w_clock w (w_reads w) - a_startedAt call)
                  :: recentTools act))
              (agentActivity act))),
     with_reads (S (w_reads w))
       (with_logger
          (w_logger w
           ++ [(Debug, "[progress-briefing] tool_result_persist: " +:+ tool);
               (Debug, "[progress-briefing] removed active call: " +:+ id)])
          w)).
Proof.
  intros Hen Hname Hun Hcap Hfind Hid.
  unfold tool_result_persist. rewrite Hen, Hname, Hun. cbn [negb nullish].
  rewrite Hfind, Hid.
  destruct w as [st jb sf lg ck rd dp ls tl lo up dc].
  run_m. rewrite popWhileOver_ok by (done || (simpl; lia)).
  by rewrite <- app_assoc.
Qed.

(** X27. A call and its result pair up: when no call of the same tool was
    active before, the result hook finds the call the call hook just
    recorded, removes it (the active calls are as before the call), and
    files it under the recent calls with the start time the call hook read
    and the parameters of the call. *)
Theorem result_closes_the_call (acfg : option ActivityConfig) (event : ToolEvent)
    (ctx : HookContext) (act : Activity) (w : World) (tool : string) :
  activityEnabled acfg = true -> ev_toolName event = Some tool ->
  untracked acfg (Some tool) = false ->
  0 <= maxRecentTools acfg ->
  mapGet (activeTools act) (Text.num (callSeq act + 1)) = None ->
  findActive (activeTools act) tool = None ->
  exists act1 w1 act2 w2,
    before_tool_call acfg event ctx act w = (Ok act1, w1)
    /\ tool_result_persist acfg event ctx act1 w1 = (Ok (Some act2), w2)
    /\ activeTools act2 = activeTools act
    /\ recentTools act2
       = firstn (Z.to_nat (maxRecentTools acfg))
           (mkRecentToolCall tool (nullish (ev_params event) [])
              (ctx_sessionKey ctx) (ctx_agentId ctx)
              (w_clock w (2 + w_reads w)%nat) (w_clock w (w_reads w1))
              (w_clock w (w_reads w1) - w_clock w (2 + w_reads w)%nat)
            :: recentTools act)
    /\ w_jobs w2 = w_jobs w1.
Proof.
  intros Hen Hev Hun Hcap Hfresh Hidle.
  rewrite (before_tool_call_run acfg event ctx act w tool Hen Hev Hun). cbv zeta.
  set (call := mkActiveToolCall tool _ _ _ _).
  set (w1 := afterUpsert _ _).
  set (act1 := mkActivity _ _ _ _).
  assert (Hfind : findActive (activeTools act1) tool
                  = Some (Text.num (callSeq act + 1), call))
    by exact (findActive_mapSet (activeTools act) _ call Hfresh Hidle).
  assert (Hname : orelse (ev_toolName event) (ctx_toolName ctx) = Some tool)
    by (by rewrite Hev).
  exists act1, w1.
  rewrite (persist_run_matched acfg event ctx act1 w1 tool _ call Hen Hname Hun Hcap
             Hfind (num_nonempty _)).
  eexists _, _. split; [reflexivity|]. split; [reflexivity|].
  cbn [activeTools recentTools w_jobs act1 call a_startedAt a_params a_sessionKey
       a_agentId].
  rewrite (mapDelete_mapSet _ _ _ Hfresh), !orelse_same. done.
Qed.

Lemma result_closes_the_call_witness :
  exists act1 w1 act2 w2,
    before_tool_call None ev_exec ctx_main noActivity world0 = (Ok act1, w1)
    /\ tool_result_persist None ev_exec ctx_main act1 w1 = (Ok (Some act2), w2)
    /\ activeTools act2 = activeTools noActivity
    /\ recentTools act2
       = firstn (Z.to_nat (maxRecentTools None))
           (mkRecentToolCall "exec" (nullish (ev_params ev_exec) [])
              (ctx_sessionKey ctx_main) (ctx_agentId ctx_main)
              (w_clock world0 (2 + w_reads world0)%nat) (w_clock world0 (w_reads w1))
              (w_clock world0 (w_reads w1) - w_clock world0 (2 + w_reads world0)%nat)
            :: recentTools noActivity)
    /\ w_jobs w2 = w_jobs w1.
Proof.
  apply (result_closes_the_call None ev_exec ctx_main noActivity world0 "exec");
    [reflexivity | reflexivity | reflexivity | vm_compute; discriminate
    | reflexivity | reflexivity].
Defined.

Lemma mapGet_elem_of {V} (m : list (string * V)) k v :
  mapGet m k = Some v -> (k, v) ∈ m.
Proof.
  induction m as [|[k' v'] m IH]; simpl; [done|].
  destruct (String.eqb k' k) eqn:E.
  - apply String.eqb_eq in E as ->. intros [= ->]. left.
  - intros H. right. by apply IH.
Qed.

Lemma stringParam_Some ps k s :
  stringParam ps k = Some s -> (k, JsString s) ∈ ps /\ s <> "".
Proof.
  unfold stringParam. destruct (mapGet ps k) as [[| | | |s']|] eqn:E; try done.
  destruct (Text.nonempty s') eqn:Hne; [|done]. intros [= Heq]. rewrite <- Heq.
  split; [by apply mapGet_elem_of | by destruct s'].
Qed.

Lemma paramEntries_elem_of (ps : Params) kv : kv ∈ paramEntries ps <-> kv ∈ ps.
Proof.
  unfold paramEntries. rewrite elem_of_app, sort_perm, !list_elem_of_filter.
  destruct (array_index (fst kv)) eqn:E.
  - split; [intros [[_ H]|[? _]]; done | intros H; left; split; [by eexists | done]].
  - split; [intros [[[? ?] _]|[_ H]]; done | intros H; right; done].
Qed.

Lemma firstStringParam_empty (l : Params) n :
  firstStringParam l n = "" <-> ~ hasStringParam l.
Proof.
  unfold hasStringParam. induction l as [|[k v] l IH]; simpl.
  - split; [intros _ (k & s & H & _); by apply elem_of_nil in H | done].
  - assert (Hrest : forall v', (forall s, v' = JsString s -> s = "") -> v = v' ->
      (firstStringParam l n = "" <->
       ~ (exists k0 s, (k0, JsString s) ∈ (k, v) :: l /\ s <> ""))).
    { intros v' Hv ->. rewrite IH. split.
      - intros Hno (k0 & s & [[= -> Heq]|Hin]%elem_of_cons & Hs).
        + by apply Hs, Hv.
        + apply Hno. by exists k0, s.
      - intros Hno (k0 & s & Hin & Hs). apply Hno. exists k0, s. split; [by right|done]. }
    destruct v as [| | b | z | s];
      [ apply (Hrest JsUndefined); done | apply (Hrest JsNull); done
      | apply (Hrest (JsBool b)); done | apply (Hrest (JsNumber z)); done | ].
    destruct (Text.nonempty s) eqn:Hne.
    + split.
      * intros H. by destruct k.
      * intros Hno. exfalso. apply Hno. exists k, s. split; [left | by destruct s].
    + apply (Hrest (JsString s)); [|done]. intros s' [= <-]. by destruct s.
Qed.

(** X28. The parameter summary of a tool call is empty exactly when no
    parameter is a non-empty string: numbers, booleans and nested values
    are never shown, and any non-empty string parameter gives a summary. *)
Theorem params_summary_empty_iff_no_string (params : Params) (maxLen : Z) :
  formatParamsSummary params maxLen = "" <-> ~ hasStringParam params.
Proof.
  unfold formatParamsSummary.
  assert (Hsome : forall k s (text : string),
    stringParam params k = Some s -> text <> "" ->
    (text = "" <-> ~ hasStringParam params)).
  { intros k s text Hk Htext. apply stringParam_Some in Hk as [Hin Hs].
    split; [done|]. intros Hno. exfalso. apply Hno. by exists k, s. }
  destruct (stringParam params "reason") eqn:E1; [by eapply Hsome|].
  destruct (stringParam params "command") eqn:E2; [by eapply Hsome|].
  destruct (stringParam params "path") eqn:E3; [by eapply Hsome|].
  destruct (stringParam params "file_path") eqn:E4; [by eapply Hsome|].
  destruct (stringParam params "query") eqn:E5; [by eapply Hsome|].
  destruct (stringParam params "url") eqn:E6; [by eapply Hsome|].
  rewrite firstStringParam_empty. unfold hasStringParam.
  split; intros Hno (k & s & Hin & Hs); apply Hno; exists k, s;
    (split; [by apply paramEntries_elem_of | done]).
Qed.

(** X29. What survives a restart: a process that starts with the initial
    state and loads the snapshot [saveState] wrote gets the saved state
    back whole, except that a snapshot without [lastBriefContent] (as saved
    after a reset) leaves the initial empty text in place. *)
Theorem saved_state_survives_restart (w : World) :
  let restarted := with_state (fun _ => initialState) (snd (saveState w)) in
  exists w',
    loadState restarted = (Ok tt, w')
    /\ w_state w' = restored (w_state w)
    /\ (is_Some (lastBriefContent (w_state w)) -> w_state w' = w_state w)
    /\ w_stateFile w' = Some (w_state w).
Proof.
  cbv zeta. unfold loadState, saveState. run_m.
  eexists. split; [reflexivity|]. cbn [w_state w_stateFile with_state].
  destruct (w_state w) as [lb ln lc ob oe ol]. unfold restored. simpl.
  split_and!; try done; [by destruct lc | intros [c ->]; done].
Qed.
